(** * SP1060 LNHR DAC driver: codec, transport, channels and device

    A shallow embedding of [SP1060_24_AWG.py].  Python [float] is IEEE
    binary64 and is modelled by the Standard Library's executable
    specification of binary floating point ([spec_float] at precision 53 and
    maximal exponent 1024); Python [int] is [Z]; Python [str] is [string]
    read as a sequence of code points below 256.  A call either returns a
    value or raises; the driver talks to the instrument through a VISA
    handle whose use is recorded as a trace of events. *)

From Stdlib Require Import ZArith QArith Qabs Qround Qpower List String Ascii Bool Lia Psatz.
From Stdlib Require Import SpecFloat.
Import ListNotations.

Local Open Scope Z_scope.

(** ** Outcomes of Python calls *)

Inductive exn : Set :=
| ValueError
| OverflowError
| TypeError.

Inductive py (A : Type) : Type :=
| Ret (a : A)
| Raise (e : exn).

Arguments Ret {A} a.
Arguments Raise {A} e.

Definition py_bind {A B : Type} (m : py A) (k : A -> py B) : py B :=
  match m with
  | Ret a => k a
  | Raise e => Raise e
  end.

Notation "x <- m ;; k" := (py_bind m (fun x => k))
  (at level 61, m at next level, right associativity).

(** [try: return e / except: pass]: the value of [e], or [None] when
    evaluating [e] raises anything. *)
Definition try_except_pass {A : Type} (body : py A) : py (option A) :=
  match body with
  | Ret a => Ret (Some a)
  | Raise _ => Ret None
  end.

(** ** Binary64 arithmetic *)

Module B64.

Definition prec : Z := 53.
Definition emax : Z := 1024.

Definition add : spec_float -> spec_float -> spec_float := SFadd prec emax.
Definition sub : spec_float -> spec_float -> spec_float := SFsub prec emax.
Definition mul : spec_float -> spec_float -> spec_float := SFmul prec emax.
Definition div : spec_float -> spec_float -> spec_float := SFdiv prec emax.

(** The binary64 nearest to an integer (ties to even). *)
Definition of_Z (z : Z) : spec_float := binary_normalize prec emax z 0 false.

(** The binary64 nearest to the quotient [n / d] of two integers, [d > 0]:
    how a decimal literal such as [838860.75] or [0.01] is read. *)
Definition of_ratio (n : Z) (d : positive) : spec_float :=
  match n with
  | Z0 => S754_zero false
  | Zpos p => div (S754_finite false p 0) (S754_finite false d 0)
  | Zneg p => div (S754_finite true p 0) (S754_finite false d 0)
  end.

Definition is_finite (x : spec_float) : bool :=
  match x with
  | S754_zero _ | S754_finite _ _ _ => true
  | _ => false
  end.

(** Integer part, rounding toward zero. *)
Definition trunc (x : spec_float) : Z :=
  match x with
  | S754_finite s m e => cond_Zopp s (Z.shiftl (Zpos m) e)
  | _ => 0
  end.

(** [2^e] as a rational, for any integer [e]. *)
Definition pow2 (e : Z) : Q := (2 ^ e)%Q.

(** The exact value of a finite binary64. *)
Definition to_Q (x : spec_float) : Q :=
  match x with
  | S754_finite s m e => (inject_Z (cond_Zopp s (Zpos m)) * pow2 e)%Q
  | _ => 0%Q
  end.

(** Nearest integer to [n / d], ties to even ([n >= 0], [d > 0]). *)
Definition div_half_even (n d : Z) : Z :=
  let q := n / d in
  let r := n mod d in
  match 2 * r ?= d with
  | Lt => q
  | Gt => q + 1
  | Eq => if Z.even q then q else q + 1
  end.

End B64.

(** ** Python numbers and conversions *)

Inductive pynum : Set :=
| PyInt (z : Z)
| PyFloat (f : spec_float).

(** [float(x)]: an [int] too large for a double raises. *)
Definition py_float (x : pynum) : py spec_float :=
  match x with
  | PyFloat f => Ret f
  | PyInt z =>
      match B64.of_Z z with
      | S754_infinity _ => Raise OverflowError
      | f => Ret f
      end
  end.

(** [int(f)] on a float truncates toward zero; it raises on NaN and on the
    infinities. *)
Definition py_int_of_float (f : spec_float) : py Z :=
  match f with
  | S754_nan => Raise ValueError
  | S754_infinity _ => Raise OverflowError
  | _ => Ret (B64.trunc f)
  end.

(** [round(f, 6)] on a float: the double nearest to the decimal with six
    fractional digits nearest to the exact value of [f] (ties to even);
    NaN, the infinities and the zeros are returned unchanged. *)
Definition py_round6 (f : spec_float) : spec_float :=
  match f with
  | S754_finite s m e =>
      let n :=
        match e with
        | Zneg p => B64.div_half_even (Zpos m * 1000000) (Z.pow_pos 2 p)
        | _ => Z.shiftl (Zpos m * 1000000) e
        end in
      match n with
      | Zpos p => B64.div (S754_finite s p 0) (S754_finite false 1000000 0)
      | _ => S754_zero s
      end
  | _ => f
  end.

(** ** Python strings *)

Module PyStr.

(** White space as [str.strip] sees it, for code points below 256. *)
Definition is_space (c : ascii) : bool :=
  let n := N_of_ascii c in
  (((9 <=? n) && (n <=? 13)) || ((28 <=? n) && (n <=? 32))
   || (n =? 133) || (n =? 160))%N.

(** White space as [int] skips it around a literal: the separators
    28 to 31 are not part of it. *)
Definition is_space_int (c : ascii) : bool :=
  let n := N_of_ascii c in
  (((9 <=? n) && (n <=? 13)) || (n =? 32) || (n =? 133) || (n =? 160))%N.

Fixpoint lstrip_by (sp : ascii -> bool) (s : string) : string :=
  match s with
  | String c r => if sp c then lstrip_by sp r else s
  | EmptyString => s
  end.

Fixpoint rev_onto (s acc : string) : string :=
  match s with
  | String c r => rev_onto r (String c acc)
  | EmptyString => acc
  end.

Definition rev (s : string) : string := rev_onto s EmptyString.

Definition strip_by (sp : ascii -> bool) (s : string) : string :=
  rev (lstrip_by sp (rev (lstrip_by sp s))).

(** [s.strip()] *)
Definition strip (s : string) : string := strip_by is_space s.

(** The value of a hexadecimal digit. *)
Definition hex_digit_value (c : ascii) : option Z :=
  let n := Z.of_N (N_of_ascii c) in
  if (48 <=? n) && (n <=? 57) then Some (n - 48)
  else if (65 <=? n) && (n <=? 70) then Some (n - 55)
  else if (97 <=? n) && (n <=? 102) then Some (n - 87)
  else None.

(** Digits of an integer literal in base 16, underscores allowed singly
    between digits: [acc] is the value read so far, [prev_us] tells
    whether the previous character was an underscore, [seen] whether a
    digit has been read. *)
Fixpoint scan_hex (s : string) (acc : Z) (prev_us seen : bool) : option Z :=
  match s with
  | EmptyString => if prev_us || negb seen then None else Some acc
  | String c r =>
      if Ascii.eqb c "_"%char then
        if prev_us then None else scan_hex r acc true seen
      else
        match hex_digit_value c with
        | Some d => scan_hex r (16 * acc + d) false true
        | None => None
        end
  end.

(** The sign of a literal and what follows it. *)
Definition split_sign (t : string) : bool * string :=
  match t with
  | String c r =>
      if Ascii.eqb c "+"%char then (false, r)
      else if Ascii.eqb c "-"%char then (true, r)
      else (false, t)
  | EmptyString => (false, t)
  end.

(** After the sign: an optional [0x] or [0X] is skipped, and one
    underscore after it. *)
Definition skip_prefix (s : string) : string :=
  match s with
  | String c (String x r) =>
      if Ascii.eqb c "0"%char && (Ascii.eqb x "x"%char || Ascii.eqb x "X"%char) then
        match r with
        | String u r' => if Ascii.eqb u "_"%char then r' else r
        | EmptyString => r
        end
      else s
  | _ => s
  end.

(** Then the digits, which may not start with an underscore. *)
Definition parse_hex_body (s : string) : option Z :=
  let s1 := skip_prefix s in
  match s1 with
  | String c _ => if Ascii.eqb c "_"%char then None else scan_hex s1 0 false false
  | EmptyString => None
  end.

(** [int(s, 16)] *)
Definition int16 (s : string) : py Z :=
  let '(neg, body) := split_sign (strip_by is_space_int s) in
  match parse_hex_body body with
  | Some v => Ret (if neg then - v else v)
  | None => Raise ValueError
  end.

Definition upper_hex_digit (d : Z) : ascii :=
  ascii_of_N (Z.to_N (if d <? 10 then 48 + d else 55 + d)).

Definition dec_digit (d : Z) : ascii := ascii_of_N (Z.to_N (48 + d)).

(** Digits of [n > 0] in base [b], most significant first, prepended to
    [acc]; [fuel] bounds the number of digits. *)
Fixpoint digits_onto (digit : Z -> ascii) (b : Z) (fuel : nat) (n : Z)
    (acc : string) : string :=
  match fuel with
  | O => acc
  | S fuel' =>
      if n <? b then String (digit n) acc
      else digits_onto digit b fuel' (n / b) (String (digit (n mod b)) acc)
  end.

Definition unsigned_digits (digit : Z -> ascii) (b : Z) (n : Z) : string :=
  digits_onto digit b (S (Z.to_nat (Z.log2 n))) n EmptyString.

Definition signed_digits (digit : Z -> ascii) (b : Z) (n : Z) : string :=
  if n <? 0 then String "-"%char (unsigned_digits digit b (- n))
  else unsigned_digits digit b n.

(** ['{:X}'.format(n)] *)
Definition format_X (n : Z) : string := signed_digits upper_hex_digit 16 n.

(** ['{:0}'.format(n)] and ['{:1}'.format(n)]: plain decimal. *)
Definition format_d (n : Z) : string := signed_digits dec_digit 10 n.

Fixpoint starts_with (p s : string) : option string :=
  match p, s with
  | EmptyString, _ => Some s
  | String a p', String b s' => if Ascii.eqb a b then starts_with p' s' else None
  | String _ _, EmptyString => None
  end.

(** [s.replace(old, "")] for a non-empty [old]: occurrences are removed
    left to right, without overlap. *)
Fixpoint remove_all (old : string) (s : string) (fuel : nat) : string :=
  match fuel with
  | O => s
  | S fuel' =>
      match starts_with old s with
      | Some rest => remove_all old rest fuel'
      | None =>
          match s with
          | EmptyString => EmptyString
          | String c r => String c (remove_all old r fuel')
          end
      end
  end.

Definition replace_with_empty (old s : string) : string :=
  remove_all old s (S (String.length s)).

(** [s.split(sep)] for a one-character separator; [cur] holds the
    current piece reversed. *)
Fixpoint split_onto (sep : ascii) (s : string) (cur : string) : list string :=
  match s with
  | EmptyString => [rev cur]
  | String c r =>
      if Ascii.eqb c sep then rev cur :: split_onto sep r EmptyString
      else split_onto sep r (String c cur)
  end.

Definition split (sep : ascii) (s : string) : list string :=
  split_onto sep s EmptyString.

(** [sep.join(parts)] *)
Fixpoint join (sep : string) (parts : list string) : string :=
  match parts with
  | [] => EmptyString
  | [p] => p
  | p :: rest => p ++ sep ++ join sep rest
  end.

(** [needle in s] for strings. *)
Fixpoint contains (needle s : string) : bool :=
  match starts_with needle s with
  | Some _ => true
  | None =>
      match s with
      | EmptyString => false
      | String _ r => contains needle r
      end
  end.

End PyStr.

(** ** Codec: [SP1060Reader] *)

Module SP1060Reader.

(** The literal [838860.75]. *)
Definition scale : spec_float := B64.of_ratio 83886075 100.

Definition ten : spec_float := B64.of_Z 10.

(** [_vval_to_dacval]: [int((float(vval)+10)*838860.75)], [None] when
    anything raises. *)
Definition _vval_to_dacval (vval : pynum) : py (option Z) :=
  try_except_pass
    (f <- py_float vval ;;
     py_int_of_float (B64.mul (B64.add f ten) scale)).

(** [_dacval_to_vval]:
    [round((int(dacval.strip(),16)/float(838860.75))-10, 6)], [None] when
    anything raises. *)
Definition _dacval_to_vval (dacval : string) : py (option spec_float) :=
  try_except_pass
    (code <- PyStr.int16 (PyStr.strip dacval) ;;
     num <- py_float (PyInt code) ;;
     Ret (py_round6 (B64.sub (B64.div num scale) ten))).

End SP1060Reader.

(** ** Transport: the VISA handle

    Every use of the handle is recorded.  The instrument is a function from
    the history of the session to the line the next read returns; transport
    failures (time-outs, disconnects) are outside the model. *)

Inductive event : Type :=
| Clear
| Write (cmd : string)
| Read (reply : string)
| Sleep (seconds : Q).

Definition instrument : Type := list event -> string.

(** A driver action runs on the trace so far and returns or raises; the
    trace keeps what was done before a raise. *)
Definition io (A : Type) : Type := list event -> py A * list event.

Definition io_ret {A : Type} (a : A) : io A := fun tr => (Ret a, tr).

Definition io_bind {A B : Type} (m : io A) (k : A -> io B) : io B :=
  fun tr =>
    match m tr with
    | (Ret a, tr') => k a tr'
    | (Raise e, tr') => (Raise e, tr')
    end.

Definition io_lift {A : Type} (r : py A) : io A := fun tr => (r, tr).

Notation "x <~ m ;; k" := (io_bind m (fun x => k))
  (at level 61, m at next level, right associativity).

Notation "m ;;; k" := (io_bind m (fun _ => k))
  (at level 61, right associativity).

(** [for x in xs: body(x)] *)
Fixpoint io_for {A : Type} (xs : list A) (body : A -> io unit) : io unit :=
  match xs with
  | [] => io_ret tt
  | x :: rest => body x ;;; io_for rest body
  end.

(** [tuple(body(x) for x in xs)] *)
Fixpoint io_map {A B : Type} (xs : list A) (body : A -> io B) : io (list B) :=
  match xs with
  | [] => io_ret []
  | x :: rest => y <~ body x ;; ys <~ io_map rest body ;; io_ret (y :: ys)
  end.

(** The commands written in a trace, oldest first. *)
Fixpoint writes (tr : list event) : list string :=
  match tr with
  | [] => []
  | Write cmd :: rest => cmd :: writes rest
  | _ :: rest => writes rest
  end.

Local Open Scope string_scope.

Section Driver.

Variable instr : instrument.

Definition visa_clear : io unit := fun tr => (Ret tt, (tr ++ [Clear])%list).

Definition visa_write (cmd : string) : io unit :=
  fun tr => (Ret tt, (tr ++ [Write cmd])%list).

Definition visa_read : io string :=
  fun tr => let reply := instr tr in (Ret reply, (tr ++ [Read reply])%list).

Definition sleep (seconds : Q) : io unit :=
  fun tr => (Ret tt, (tr ++ [Sleep seconds])%list).

(** Modelled from the spec: the framework's [ask], which is not in the
    source: it writes the command with its terminator and reads exactly
    one reply line, which it returns without the terminator. *)
Definition ask (cmd : string) : io string :=
  visa_write cmd ;;; visa_read.

(** ** Device: [SP1060] *)

(** [empty_buffer] *)
Definition empty_buffer : io unit := visa_clear.

(** [write] *)
Definition write (cmd : string) : io string :=
  empty_buffer ;;; ask cmd.

(** [_set_voltage]: ['{:0} {:X}'.format(chan, code)]; formatting [None]
    with [X] raises. *)
Definition _set_voltage (chan : Z) (code : option Z) : io unit :=
  match code with
  | Some n => write (PyStr.format_d chan ++ " " ++ PyStr.format_X n) ;;; io_ret tt
  | None => io_lift (Raise TypeError)
  end.

(** [_read_voltage] *)
Definition _read_voltage (chan : Z) : io (option spec_float) :=
  dac_code <~ write (PyStr.format_d chan ++ " V?") ;;
  io_lift (SP1060Reader._dacval_to_vval dac_code).

Definition crlf : string := String (ascii_of_nat 13) (String (ascii_of_nat 10) EmptyString).

(** [query_all] *)
Definition query_all : io (list string) :=
  reply <~ write "All S?" ;;
  io_ret (PyStr.split ";"%char (PyStr.replace_with_empty crlf reply)).

(** [all_on] *)
Definition all_on : io unit := write "ALL ON" ;;; io_ret tt.

(** [all_off] *)
Definition all_off : io unit := write "ALL OFF" ;;; io_ret tt.

(** [s[3:]] *)
Definition drop3 (s : string) : string :=
  String.substring 3 (String.length s - 3) s.

(** [s[-5:]] *)
Definition last5 (s : string) : string :=
  String.substring (String.length s - 5) 5 s.

(** [get_serial] *)
Definition get_serial : io string :=
  write "HARD?" ;;;
  reply <~ visa_read ;;
  sleep (1 # 100) ;;;
  empty_buffer ;;;
  io_ret (drop3 (PyStr.strip reply)).

(** [get_firmware] *)
Definition get_firmware : io string :=
  write "SOFT?" ;;;
  reply <~ visa_read ;;
  sleep (1 # 100) ;;;
  empty_buffer ;;;
  io_ret (last5 (PyStr.strip reply)).

Record idn : Type := {
  vendor : string;
  model : string;
  serial : string;
  firmware : string
}.

(** [get_idn] *)
Definition get_idn : io idn :=
  SN <~ get_serial ;;
  FW <~ get_firmware ;;
  io_ret {| vendor := "BasPI"; model := "LNHR DAC SP1060";
            serial := SN; firmware := FW |}.

(** [set_newWaveform] *)
Definition set_newWaveform (channel waveform frequency amplitude wavemem : string)
    : io unit :=
  let memsave :=
    if String.eqb wavemem "0" then "A"
    else if String.eqb wavemem "1" then "B"
    else if String.eqb wavemem "2" then "C"
    else if String.eqb wavemem "3" then "D"
    else EmptyString in
  write "C WAV-B CLR" ;;;
  sleep (1 # 100) ;;;
  write "C SWG MODE 0" ;;;
  sleep (1 # 100) ;;;
  write ("C SWG WF " ++ waveform) ;;;
  sleep (1 # 100) ;;;
  write ("C SWG DF " ++ frequency) ;;;
  sleep (1 # 100) ;;;
  write ("C SWG AMP " ++ amplitude) ;;;
  sleep (1 # 100) ;;;
  write ("C SWG WMEM " ++ wavemem) ;;;
  sleep (1 # 100) ;;;
  write "C SWG WFUN 0" ;;;
  sleep (1 # 100) ;;;
  write ("C SWG LIN " ++ channel) ;;;
  sleep (1 # 100) ;;;
  write ("C AWG-" ++ memsave ++ " CH " ++ channel) ;;;
  sleep (1 # 100) ;;;
  write "C SWG APPLY" ;;;
  sleep (1 # 100) ;;;
  write ("C WAV-" ++ memsave ++ " SAVE") ;;;
  sleep (1 # 100) ;;;
  write ("C WAV-" ++ memsave ++ " WRITE") ;;;
  sleep (1 # 100) ;;;
  write ("C AWG-" ++ memsave ++ " START") ;;;
  io_ret tt.

End Driver.

(** ** Validators and parameters of the instrument framework *)

(** [min(a, b)] and [max(a, b)] on numbers: the first argument wins ties. *)
Definition py_min (a b : Q) : Q := if Qle_bool a b then a else b.
Definition py_max (a b : Q) : Q := if Qle_bool b a then a else b.

(** Modelled from the spec: the framework's validators [vals.Ints] and
    [vals.Numbers], which are not in the source: a value is accepted when it
    lies between the two bounds, both included, and is rejected with a range
    error (a [ValueError]) otherwise.  Voltages at this level are the exact
    numbers the caller writes. *)
Record Ints : Type := { ints_min : Z; ints_max : Z }.

Definition Ints_validate (v : Ints) (n : Z) : py unit :=
  if ((ints_min v <=? n) && (n <=? ints_max v))%Z then Ret tt else Raise ValueError.

Record Numbers : Type := { _min_value : Q; _max_value : Q }.

Definition Numbers_accepts (v : Numbers) (x : Q) : bool :=
  Qle_bool (_min_value v) x && Qle_bool x (_max_value v).

Definition Numbers_validate (v : Numbers) (x : Q) : py unit :=
  if Numbers_accepts v x then Ret tt else Raise ValueError.

(** The part of a framework parameter the driver configures: its validator,
    the largest step of one update, the least delay between two updates, and
    the cached last known value. *)
Record Param : Type := {
  vals : Numbers;
  step : option Q;
  inter_delay : Q;
  latest : option Q
}.

(** ** Channel: [SP1060Channel] *)

Record SP1060Channel : Type := {
  name : string;
  _channel : Z;
  _volt_val : Numbers;
  volt : Param
}.

(** [SP1060Channel.__init__(parent, name, channel, min_val, max_val)]: the
    channel number is validated, the voltage range is put in order, and the
    parameter [volt] is added with that range as its validator. *)
Definition SP1060Channel_init (name : string) (channel : Z) (min_val max_val : Q)
    : py SP1060Channel :=
  let _CHANNEL_VAL := {| ints_min := 1; ints_max := 24 |} in
  _ <- Ints_validate _CHANNEL_VAL channel ;;
  let volt_val := {| _min_value := py_min min_val max_val;
                     _max_value := py_max min_val max_val |} in
  Ret {| name := name;
         _channel := channel;
         _volt_val := volt_val;
         volt := {| vals := volt_val; step := None; inter_delay := 0;
                    latest := None |} |}.

Definition with_volt (ch : SP1060Channel) (p : Param) : SP1060Channel :=
  {| name := name ch; _channel := _channel ch; _volt_val := _volt_val ch;
     volt := p |}.

Definition with_latest (p : Param) (v : option Q) : Param :=
  {| vals := vals p; step := step p; inter_delay := inter_delay p; latest := v |}.

(** Modelled from the spec: the values a stepped update passes through,
    which the framework computes and the source does not: when the change
    from the last known value is larger than the step, intermediate values
    one step apart in the direction of the target, and the target itself
    last; the last move may be shorter than a step. *)
Definition ramp_values (start target step : Q) : list Q :=
  let dist := Qabs (target - start) in
  if Qle_bool dist step || Qle_bool step 0 then [target]
  else
    let n := Z.to_nat (Qceiling (dist / step) - 1) in
    let signed := if Qle_bool start target then step else (- step)%Q in
    (map (fun i => (start + inject_Z (Z.of_nat i) * signed)%Q) (seq 1 n)
     ++ [target])%list.

(** The double nearest to an exact number. *)
Definition float_of_Q (x : Q) : pynum := PyFloat (B64.of_ratio (Qnum x) (Qden x)).

Section Channels.

Variable instr : instrument.

(** One update of the output: the set parser ([_vval_to_dacval]) and then
    the set command ([_set_voltage] bound to the channel number). *)
Definition send_value (chan : Z) (v : Q) : io unit :=
  code <~ io_lift (SP1060Reader._vval_to_dacval (float_of_Q v)) ;;
  _set_voltage instr chan code.

Fixpoint send_values (chan : Z) (delay : Q) (vs : list Q) : io unit :=
  match vs with
  | [] => io_ret tt
  | v :: rest =>
      send_value chan v ;;;
      match rest with
      | [] => io_ret tt
      | _ => sleep delay ;;; send_values chan delay rest
      end
  end.

(** Modelled from the spec: setting the parameter [volt] of a channel, as
    the framework does it and the source does not: the value is validated
    against the range before anything is sent; the update is stepped from
    the last known value when there is one and a step is configured, the
    updates being spaced by the delay; the value set becomes the last
    known value. *)
Definition volt_set (ch : SP1060Channel) (value : Q) : io SP1060Channel :=
  let p := volt ch in
  io_lift (Numbers_validate (vals p) value) ;;;
  let vs :=
    match step p, latest p with
    | Some st, Some start => ramp_values start value st
    | _, _ => [value]
    end in
  send_values (_channel ch) (inter_delay p) vs ;;;
  io_ret (with_volt ch (with_latest p (Some value))).

(** Modelled from the spec: reading the parameter [volt], as the
    framework does it: the get command ([_read_voltage] bound to the
    channel number); a voltage read becomes the last known value. *)
Definition volt_get (ch : SP1060Channel) : io (option spec_float * SP1060Channel) :=
  r <~ _read_voltage instr (_channel ch) ;;
  io_ret (r, with_volt ch (with_latest (volt ch) (option_map B64.to_Q r))).

(** ** Device construction and aggregate operations *)

Record SP1060 : Type := {
  num_chans : Z;
  channels : list SP1060Channel
}.

Fixpoint py_map {A B : Type} (f : A -> py B) (xs : list A) : py (list B) :=
  match xs with
  | [] => Ret []
  | x :: rest => y <- f x ;; ys <- py_map f rest ;; Ret (y :: ys)
  end.

(** [range(lo, hi)] *)
Definition range (lo hi : Z) : list Z :=
  map (fun i => lo + Z.of_nat i) (seq 0 (Z.to_nat (hi - lo))).

(** [SP1060.__init__(name, address, min_val, max_val, baud_rate)].  The
    serial settings configure the handle without traffic.  The channels
    are built with the default range: [min_val] and [max_val] are not
    handed on.  The framework's [connect_message] asks for the identity
    through [get_idn]; the last line reads every channel. *)
Definition SP1060_init (name address : string) (min_val max_val : Q)
    (baud_rate : Z) : io SP1060 :=
  let num := 24 in
  chans <~ io_lift (py_map
                      (fun i => SP1060Channel_init ("chan" ++ PyStr.format_d i) i (-10) 10)
                      (range 1 (1 + num))) ;;
  let chans :=
    map (fun ch =>
           with_volt ch {| vals := vals (volt ch);
                           step := Some (1 # 100);
                           inter_delay := 2 # 100;
                           latest := latest (volt ch) |}) chans in
  status <~ query_all instr ;;
  (if existsb (String.eqb "OFF") status then all_on instr else io_ret tt) ;;;
  _ <~ get_idn instr ;;
  read <~ io_map chans volt_get ;;
  io_ret {| num_chans := num; channels := map snd read |}.

(** [set_all] *)
Definition set_all (dev : SP1060) (v : Q) : io SP1060 :=
  chans <~ io_map (channels dev) (fun ch => volt_set ch v) ;;
  io_ret {| num_chans := num_chans dev; channels := chans |}.

End Channels.

(** [hex(n)]: the text [0x] and lower-case digits, after the sign. *)
Definition lower_hex_digit (d : Z) : ascii :=
  ascii_of_N (Z.to_N (if (d <? 10)%Z then 48 + d else 87 + d)).

Definition py_hex (n : Z) : string :=
  if (n <? 0)%Z then "-0x" ++ PyStr.unsigned_digits lower_hex_digit 16 (- n)
  else "0x" ++ PyStr.unsigned_digits lower_hex_digit 16 n.

(** The round trip of a voltage through the codec: the voltage is encoded,
    the code is written in hexadecimal (as the driver formats it, or as
    [hex] does), the text is decoded, and the result is a finite number
    within [tol] of the voltage. *)
Definition roundtrip_within (tol : Q) (v : spec_float) : Prop :=
  exists (code : Z) (r : spec_float),
    SP1060Reader._vval_to_dacval (PyFloat v) = Ret (Some code)
    /\ SP1060Reader._dacval_to_vval (PyStr.format_X code) = Ret (Some r)
    /\ SP1060Reader._dacval_to_vval (py_hex code) = Ret (Some r)
    /\ B64.is_finite r = true
    /\ (Qabs (B64.to_Q r - B64.to_Q v) <= tol)%Q.

(** A channel as the device builds it, with the device's step and delay,
    and a given last known value. *)
Definition device_channel (i : Z) (last : option Q) : SP1060Channel :=
  let range := {| _min_value := py_min (-10) 10; _max_value := py_max (-10) 10 |} in
  {| name := "chan" ++ PyStr.format_d i;
     _channel := i;
     _volt_val := range;
     volt := {| vals := range; step := Some (1 # 100); inter_delay := 2 # 100;
                latest := last |} |}.

(** An action that always returns, having written the commands [ws]. *)
Definition runs {A : Type} (m : io A) (ws : list string) : Prop :=
  forall tr, exists a tr',
    m tr = (Ret a, tr') /\ writes tr' = (writes tr ++ ws)%list.


(** A string without the character [c]. *)
Fixpoint lacks_char (c : ascii) (s : string) : bool :=
  match s with
  | EmptyString => true
  | String a r => negb (Ascii.eqb a c) && lacks_char c r
  end.

(** The traffic allowed on the handle: complete exchanges (the buffer is
    cleared, one command is written, one reply is read), and beside them
    only clears, reads and pauses. *)
Inductive exchanges : list event -> Prop :=
| exchanges_nil : exchanges []
| exchanges_exchange (cmd reply : string) (es : list event) :
    exchanges es -> exchanges (Clear :: Write cmd :: Read reply :: es)
| exchanges_clear (es : list event) : exchanges es -> exchanges (Clear :: es)
| exchanges_read (reply : string) (es : list event) :
    exchanges es -> exchanges (Read reply :: es)
| exchanges_sleep (s : Q) (es : list event) : exchanges es -> exchanges (Sleep s :: es).

(** An action that adds such traffic to the trace, whether it returns or
    raises. *)
Definition disciplined {A : Type} (m : io A) : Prop :=
  forall tr, exists es, snd (m tr) = (tr ++ es)%list /\ exchanges es.

(** The calls a user of the driver can make. *)
Inductive call : Type :=
| call_init (name address : string) (min_val max_val : Q) (baud_rate : Z)
| call_write (cmd : string)
| call_empty_buffer
| call_set_voltage (chan : Z) (code : option Z)
| call_read_voltage (chan : Z)
| call_set_all (dev : SP1060) (v : Q)
| call_query_all
| call_all_on
| call_all_off
| call_get_serial
| call_get_firmware
| call_get_idn
| call_set_newWaveform (channel waveform frequency amplitude wavemem : string)
| call_volt_set (ch : SP1060Channel) (v : Q)
| call_volt_get (ch : SP1060Channel).

Definition discard {A : Type} (m : io A) : io unit := m ;;; io_ret tt.

Definition perform (instr : instrument) (c : call) : io unit :=
  match c with
  | call_init nm address min_val max_val baud_rate =>
      discard (SP1060_init instr nm address min_val max_val baud_rate)
  | call_write cmd => discard (write instr cmd)
  | call_empty_buffer => empty_buffer
  | call_set_voltage chan code => _set_voltage instr chan code
  | call_read_voltage chan => discard (_read_voltage instr chan)
  | call_set_all dev v => discard (set_all instr dev v)
  | call_query_all => discard (query_all instr)
  | call_all_on => all_on instr
  | call_all_off => all_off instr
  | call_get_serial => discard (get_serial instr)
  | call_get_firmware => discard (get_firmware instr)
  | call_get_idn => discard (get_idn instr)
  | call_set_newWaveform channel waveform frequency amplitude wavemem =>
      set_newWaveform instr channel waveform frequency amplitude wavemem
  | call_volt_set ch v => discard (volt_set instr ch v)
  | call_volt_get ch => discard (volt_get instr ch)
  end.

(** The trace of a session: the calls are made one after the other, the
    caller going on after a call that raised. *)
Definition session (instr : instrument) (cs : list call) : list event :=
  fold_left (fun tr c => snd (perform instr c tr)) cs [].

(** The command that reads channel [chan]. *)
Definition read_command (chan : Z) : string := PyStr.format_d chan ++ " V?".

(** The code sent for a value, when the encoder gives one. *)
Definition dac_code (v : Q) : option Z :=
  match SP1060Reader._vval_to_dacval (float_of_Q v) with
  | Ret code => code
  | Raise _ => None
  end.

(** The command that sets channel [chan] to the value [v]. *)
Definition set_command (chan : Z) (v : Q) : string :=
  match dac_code v with
  | Some n => PyStr.format_d chan ++ " " ++ PyStr.format_X n
  | None => EmptyString
  end.

(** Consecutive values at most [st] apart, the first from [prev]. *)
Fixpoint steps_within (prev : Q) (vs : list Q) (st : Q) : Prop :=
  match vs with
  | [] => True
  | v :: rest => (Qabs (v - prev) <= st)%Q /\ steps_within v rest st
  end.

(** A rising ramp: every value is above the one before it, by no more than
    [st]. *)
Fixpoint rises_within (prev : Q) (vs : list Q) (st : Q) : Prop :=
  match vs with
  | [] => True
  | v :: rest => (prev < v)%Q /\ (v - prev <= st)%Q /\ rises_within v rest st
  end.

Fixpoint rises_withinb (prev : Q) (vs : list Q) (st : Q) : bool :=
  match vs with
  | [] => true
  | v :: rest =>
      negb (Qle_bool v prev) && Qle_bool (v - prev) st && rises_withinb v rest st
  end.

(** ** Vocabulary of the proofs on binary64 and on digit strings *)

(** The float of sign [s], mantissa [m] and exponent [e]; a zero when the
    mantissa is 0. *)
Definition float_of (s : bool) (m e : Z) : spec_float :=
  match m with
  | Z0 => S754_zero s
  | Zpos p => S754_finite s p e
  | Zneg _ => S754_nan
  end.

(** A bound on the exponent of a finite float. *)
Definition exponent_le (f : spec_float) (b : Z) : Prop :=
  match f with
  | S754_finite _ _ e => e <= b
  | _ => True
  end.

(** [r] is a finite float of exponent at most [Bx], of the sign of [x],
    and within [2^B] of [x]. *)
Definition rounds_to (r : spec_float) (x : Q) (Bx B : Z) : Prop :=
  B64.is_finite r = true
  /\ exponent_le r Bx
  /\ ((0 <= x -> 0 <= B64.to_Q r) /\ (x <= 0 -> B64.to_Q r <= 0))%Q
  /\ (Qabs (B64.to_Q r - x) <= B64.pow2 B)%Q.

(** A character that is no white space. *)
Definition nospace (c : ascii) : bool :=
  negb (PyStr.is_space c) && negb (PyStr.is_space_int c).

(** A character that is a hexadecimal digit: no white space, sign,
    underscore or letter x. *)
Definition plain (c : ascii) : bool :=
  nospace c
  && negb (Ascii.eqb c "+"%char) && negb (Ascii.eqb c "-"%char)
  && negb (Ascii.eqb c "_"%char)
  && negb (Ascii.eqb c "x"%char) && negb (Ascii.eqb c "X"%char).

Fixpoint all_chars (P : ascii -> bool) (s : string) : bool :=
  match s with
  | EmptyString => true
  | String c r => P c && all_chars P r
  end.

(** ** Vocabulary of the properties on the shape of the traffic *)

(** The bank letter of [set_newWaveform]: its local variable [memsave],
    set from the selector [wavemem]. *)
Definition memsave (wavemem : string) : string :=
  if String.eqb wavemem "0" then "A"
  else if String.eqb wavemem "1" then "B"
  else if String.eqb wavemem "2" then "C"
  else if String.eqb wavemem "3" then "D"
  else EmptyString.

(** An event without the text that was read. *)
Definition shape (e : event) : event :=
  match e with
  | Read _ => Read EmptyString
  | _ => e
  end.

Definition skeleton (tr : list event) : list event := map shape tr.

(** An action that always returns, having added events of skeleton [sk]
    to the trace. *)
Definition performs {A : Type} (m : io A) (sk : list event) : Prop :=
  forall tr, exists a tr',
    m tr = (Ret a, tr') /\ skeleton tr' = (skeleton tr ++ sk)%list.

(** The skeleton of one [write]. *)
Definition exchange (cmd : string) : list event :=
  [Clear; Write cmd; Read EmptyString].

(** The skeleton of commands written one after the other with a pause
    between two of them. *)
Fixpoint paced (delay : Q) (cmds : list string) : list event :=
  match cmds with
  | [] => []
  | [c] => exchange c
  | c :: rest => (exchange c ++ Sleep delay :: paced delay rest)%list
  end.

(** The line the instrument sends after its reply to the command [cmd],
    written on the trace [tr]. *)
Definition second_line (instr : instrument) (cmd : string) (tr : list event)
    : string :=
  let sent := (tr ++ [Clear; Write cmd])%list in
  instr (sent ++ [Read (instr sent)])%list.

(** The reply of the instrument to the command [cmd], written on the trace
    [tr]. *)
Definition reply_to (instr : instrument) (cmd : string) (tr : list event)
    : string :=
  instr (tr ++ [Clear; Write cmd])%list.

(** The same channel but for the last known value of its parameter. *)
Definition same_settings (a b : SP1060Channel) : Prop :=
  name b = name a /\ _channel b = _channel a /\ _volt_val b = _volt_val a
  /\ vals (volt b) = vals (volt a) /\ step (volt b) = step (volt a)
  /\ inter_delay (volt b) = inter_delay (volt a).

(** The values one update of a parameter passes through: the ramp from the
    last known value when there is one and a step is configured, the value
    alone otherwise (the local [vs] of [volt_set]). *)
Definition update_values (p : Param) (value : Q) : list Q :=
  match step p, latest p with
  | Some st, Some start => ramp_values start value st
  | _, _ => [value]
  end.

(** The channel after its parameter was set to [v]. *)
Definition channel_set_to (v : Q) (ch : SP1060Channel) : SP1060Channel :=
  with_volt ch (with_latest (volt ch) (Some v)).
(** * Properties *)

(** ** Codec at the ends of the span *)

(** C8: the encoder maps -10 to code 0 and 10 to code 16777215, which is
    2^24 - 1, whether the voltage is given as an integer or as a float; the
    conversion truncates, as at 1 V, where the product is 9227468.25. *)
Theorem encode_span_endpoints :
  SP1060Reader._vval_to_dacval (PyInt (-10)) = Ret (Some 0%Z)
  /\ SP1060Reader._vval_to_dacval (PyInt 10) = Ret (Some 16777215%Z)
  /\ SP1060Reader._vval_to_dacval (PyFloat (B64.of_Z (-10))) = Ret (Some 0%Z)
  /\ SP1060Reader._vval_to_dacval (PyFloat (B64.of_Z 10)) = Ret (Some 16777215%Z)
  /\ (16777215 = 2 ^ 24 - 1)%Z
  /\ (B64.to_Q (B64.mul (B64.add (B64.of_Z 1) SP1060Reader.ten) SP1060Reader.scale)
      == 36909873 # 4)%Q
  /\ SP1060Reader._vval_to_dacval (PyInt 1) = Ret (Some 9227468%Z).
Proof.
  split; [vm_compute; reflexivity |].
  split; [vm_compute; reflexivity |].
  split; [vm_compute; reflexivity |].
  split; [vm_compute; reflexivity |].
  split; [reflexivity |].
  split; vm_compute; reflexivity.
Qed.

(** ** Decoding text that is not hexadecimal *)

(** C7, as the code has it: when [int(raw.strip(), 16)] rejects the text,
    the decoder raises nothing and returns [None]. *)
Theorem decode_invalid_returns_none (raw : string) :
  (exists e, PyStr.int16 (PyStr.strip raw) = Raise e) ->
  SP1060Reader._dacval_to_vval raw = Ret None
  /\ forall e, SP1060Reader._dacval_to_vval raw <> Raise e.
Proof.
  intros [e He]. unfold SP1060Reader._dacval_to_vval.
  rewrite He. split; [reflexivity | discriminate].
Qed.

Lemma decode_invalid_returns_none_witness :
  SP1060Reader._dacval_to_vval "zz" = Ret None
  /\ forall e, SP1060Reader._dacval_to_vval "zz" <> Raise e.
Proof.
  apply decode_invalid_returns_none.
  exists ValueError. vm_compute. reflexivity.
Defined.

(** C7, as the claim has it, fails: the text [zz] is not hexadecimal, and
    decoding it raises no error. *)
Lemma decode_invalid_no_error :
  ~ (exists e, SP1060Reader._dacval_to_vval "zz" = Raise e).
Proof.
  intros [e He]. vm_compute in He. discriminate He.
Qed.

(** The decoder never raises, whatever the text. *)
Lemma decode_never_raises (raw : string) (e : exn) :
  SP1060Reader._dacval_to_vval raw <> Raise e.
Proof.
  unfold SP1060Reader._dacval_to_vval.
  destruct (_ <- _ ;; _); cbn; discriminate.
Qed.

(** ** Reasoning on driver actions *)

Lemma io_bind_ret {A B : Type} (m : io A) (k : A -> io B) tr a tr' :
  m tr = (Ret a, tr') -> io_bind m k tr = k a tr'.
Proof. intros H. unfold io_bind. rewrite H. reflexivity. Qed.

Lemma io_bind_raise {A B : Type} (m : io A) (k : A -> io B) tr e tr' :
  m tr = (Raise e, tr') -> io_bind m k tr = (Raise e, tr').
Proof. intros H. unfold io_bind. rewrite H. reflexivity. Qed.

Lemma writes_app (l1 l2 : list event) :
  writes (l1 ++ l2) = (writes l1 ++ writes l2)%list.
Proof.
  induction l1 as [| ev l1 IH]; [reflexivity |].
  destruct ev; cbn; rewrite IH; reflexivity.
Qed.

(** The exact behaviour of [write]: clear, write the command, read one
    reply and return it. *)
Lemma write_eq (instr : instrument) (cmd : string) (tr : list event) :
  write instr cmd tr
  = (Ret (instr (tr ++ [Clear; Write cmd])%list),
     (tr ++ [Clear; Write cmd; Read (instr (tr ++ [Clear; Write cmd])%list)])%list).
Proof.
  unfold write, empty_buffer, ask, io_bind, visa_clear, visa_write, visa_read.
  repeat rewrite <- app_assoc. reflexivity.
Qed.

Lemma runs_ret {A : Type} (a : A) : runs (io_ret a) [].
Proof. intros tr. exists a, tr. rewrite app_nil_r. split; reflexivity. Qed.

Lemma runs_bind {A B : Type} (m : io A) (k : A -> io B) ws1 ws2 ws :
  runs m ws1 -> (forall a, runs (k a) ws2) -> ws = (ws1 ++ ws2)%list ->
  runs (io_bind m k) ws.
Proof.
  intros Hm Hk -> tr.
  destruct (Hm tr) as (a & tr1 & E1 & W1).
  destruct (Hk a tr1) as (b & tr2 & E2 & W2).
  exists b, tr2. rewrite (io_bind_ret _ _ _ _ _ E1), E2, W2, W1, app_assoc.
  split; reflexivity.
Qed.

Lemma runs_write (instr : instrument) (cmd : string) : runs (write instr cmd) [cmd].
Proof.
  intros tr. rewrite write_eq. eexists _, _. split; [reflexivity |].
  rewrite writes_app. reflexivity.
Qed.

Lemma runs_sleep (s : Q) : runs (sleep s) [].
Proof.
  intros tr. exists tt, (tr ++ [Sleep s])%list. split; [reflexivity |].
  rewrite writes_app. reflexivity.
Qed.

Lemma runs_clear : runs visa_clear [].
Proof.
  intros tr. exists tt, (tr ++ [Clear])%list. split; [reflexivity |].
  rewrite writes_app. reflexivity.
Qed.

Lemma runs_read (instr : instrument) : runs (visa_read instr) [].
Proof.
  intros tr. eexists _, _. split; [reflexivity |].
  rewrite writes_app. reflexivity.
Qed.

Ltac runs_step :=
  lazymatch goal with
  | |- runs (io_ret _) _ => apply runs_ret
  | |- runs (write _ _) _ => apply runs_write
  | |- runs (sleep _) _ => apply runs_sleep
  | |- runs visa_clear _ => apply runs_clear
  | |- runs empty_buffer _ => apply runs_clear
  | |- runs (visa_read _) _ => apply runs_read
  | |- runs (io_bind _ _) _ => eapply runs_bind; [ | intro | ]
  end.

Ltac runs_auto := repeat runs_step; try reflexivity.

(** An action seen through the skeleton of what it adds to the trace. *)

Lemma skeleton_app (l1 l2 : list event) :
  skeleton (l1 ++ l2) = (skeleton l1 ++ skeleton l2)%list.
Proof. apply map_app. Qed.

Lemma performs_ret {A : Type} (a : A) : performs (io_ret a) [].
Proof. intros tr. exists a, tr. rewrite app_nil_r. split; reflexivity. Qed.

Lemma performs_bind {A B : Type} (m : io A) (k : A -> io B) sk1 sk2 sk :
  performs m sk1 -> (forall a, performs (k a) sk2) -> sk = (sk1 ++ sk2)%list ->
  performs (io_bind m k) sk.
Proof.
  intros Hm Hk -> tr.
  destruct (Hm tr) as (a & tr1 & E1 & S1).
  destruct (Hk a tr1) as (b & tr2 & E2 & S2).
  exists b, tr2. split.
  - unfold io_bind. rewrite E1. exact E2.
  - rewrite S2, S1, app_assoc. reflexivity.
Qed.

Lemma performs_write (instr : instrument) (cmd : string) :
  performs (write instr cmd) (exchange cmd).
Proof.
  intros tr. rewrite write_eq. eexists _, _. split; [reflexivity |].
  rewrite skeleton_app. reflexivity.
Qed.

Lemma performs_sleep (s : Q) : performs (sleep s) [Sleep s].
Proof.
  intros tr. exists tt, (tr ++ [Sleep s])%list. split; [reflexivity |].
  rewrite skeleton_app. reflexivity.
Qed.

Lemma performs_clear : performs visa_clear [Clear].
Proof.
  intros tr. exists tt, (tr ++ [Clear])%list. split; [reflexivity |].
  rewrite skeleton_app. reflexivity.
Qed.

Lemma performs_read (instr : instrument) :
  performs (visa_read instr) [Read EmptyString].
Proof.
  intros tr. exists (instr tr), (tr ++ [Read (instr tr)])%list.
  split; [reflexivity |]. rewrite skeleton_app. reflexivity.
Qed.

Ltac performs_step :=
  lazymatch goal with
  | |- performs (io_ret _) _ => apply performs_ret
  | |- performs (write _ _) _ => apply performs_write
  | |- performs (sleep _) _ => apply performs_sleep
  | |- performs visa_clear _ => apply performs_clear
  | |- performs empty_buffer _ => apply performs_clear
  | |- performs (visa_read _) _ => apply performs_read
  | |- performs (io_bind _ _) _ => eapply performs_bind; [ | intro | ]
  end.

Ltac performs_auto := repeat performs_step; try reflexivity.

(** ** Waveform programming *)

(** C4: with bank selector 0 the sequence of commands is the following
    one: its first command clears wave memory B, the others name bank A. *)
Theorem set_newWaveform_bank0_commands (instr : instrument) (tr : list event) :
  writes (snd (set_newWaveform instr "12" "0" "100.0" "5.0" "0" tr))
  = (writes tr ++
     ["C WAV-B CLR"; "C SWG MODE 0"; "C SWG WF 0"; "C SWG DF 100.0";
      "C SWG AMP 5.0"; "C SWG WMEM 0"; "C SWG WFUN 0"; "C SWG LIN 12";
      "C AWG-A CH 12"; "C SWG APPLY"; "C WAV-A SAVE"; "C WAV-A WRITE";
      "C AWG-A START"])%list
  /\ PyStr.contains "WAV-A" "C WAV-B CLR" = false
  /\ PyStr.contains "WAV-B" "C WAV-B CLR" = true.
Proof.
  split; [| split; reflexivity].
  assert (R : runs (set_newWaveform instr "12" "0" "100.0" "5.0" "0")
                ["C WAV-B CLR"; "C SWG MODE 0"; "C SWG WF 0"; "C SWG DF 100.0";
                 "C SWG AMP 5.0"; "C SWG WMEM 0"; "C SWG WFUN 0"; "C SWG LIN 12";
                 "C AWG-A CH 12"; "C SWG APPLY"; "C WAV-A SAVE"; "C WAV-A WRITE";
                 "C AWG-A START"]).
  { unfold set_newWaveform. runs_auto. }
  destruct (R tr) as (a & tr' & E & W). rewrite E. exact W.
Qed.

(** ** Range of a channel *)

Lemma Qle_bool_false (a b : Q) : Qle_bool a b = false <-> (b < a)%Q.
Proof.
  split; intros H.
  - apply Qnot_le_lt. intros L. apply Qle_bool_iff in L. congruence.
  - destruct (Qle_bool a b) eqn:E; [| reflexivity].
    apply Qle_bool_iff in E. exfalso. exact (Qlt_not_le _ _ H E).
Qed.

(** The validator of a channel as built: the two bounds in order. *)
Lemma SP1060Channel_init_vals (nm : string) (channel : Z) (min_val max_val : Q)
    (ch : SP1060Channel) :
  SP1060Channel_init nm channel min_val max_val = Ret ch ->
  vals (volt ch) = {| _min_value := py_min min_val max_val;
                      _max_value := py_max min_val max_val |}
  /\ _volt_val ch = vals (volt ch)
  /\ _channel ch = channel
  /\ (1 <= channel <= 24)%Z.
Proof.
  unfold SP1060Channel_init, Ints_validate. cbn.
  destruct ((1 <=? channel)%Z && (channel <=? 24)%Z) eqn:E; cbn; [| discriminate].
  intros [= <-]. cbn. repeat split; lia.
Qed.

(** C3: a value below the lower bound or above the upper bound of the
    channel's validator is rejected with the range error, and the trace is
    left as it was: nothing is written to the instrument. *)
Theorem volt_set_out_of_range_rejected (instr : instrument) (ch : SP1060Channel)
    (v : Q) (tr : list event) :
  (v < _min_value (vals (volt ch)) \/ _max_value (vals (volt ch)) < v)%Q ->
  volt_set instr ch v tr = (Raise ValueError, tr)
  /\ writes (snd (volt_set instr ch v tr)) = writes tr.
Proof.
  intros H.
  assert (E : volt_set instr ch v tr = (Raise ValueError, tr)).
  { unfold volt_set. apply io_bind_raise.
    unfold io_lift, Numbers_validate, Numbers_accepts.
    destruct H as [H | H]; apply Qle_bool_false in H; rewrite H;
      rewrite ?andb_false_r; reflexivity. }
  rewrite E. split; reflexivity.
Qed.

Lemma volt_set_out_of_range_rejected_witness :
  volt_set (fun _ => "0") (device_channel 1 (Some 0%Q)) 11 [] = (Raise ValueError, [])
  /\ writes (snd (volt_set (fun _ => "0") (device_channel 1 (Some 0%Q)) 11 [])) = writes [].
Proof.
  apply (volt_set_out_of_range_rejected (fun _ => "0") (device_channel 1 (Some 0%Q)) 11 []).
  right. reflexivity.
Defined.

(** C10: with the bounds given in the wrong order the construction
    succeeds, the validator holds them in order, and the accepted values are
    those of the channel built with the bounds exchanged. *)
Theorem channel_inverted_bounds_normalised (nm : string) (channel : Z)
    (min_val max_val : Q) :
  (1 <= channel <= 24)%Z ->
  (max_val < min_val)%Q ->
  exists ch ch',
    SP1060Channel_init nm channel min_val max_val = Ret ch
    /\ SP1060Channel_init nm channel max_val min_val = Ret ch'
    /\ vals (volt ch) = {| _min_value := max_val; _max_value := min_val |}
    /\ vals (volt ch') = vals (volt ch)
    /\ forall v, Numbers_accepts (vals (volt ch)) v
                 = Numbers_accepts (vals (volt ch')) v.
Proof.
  intros Hc Hlt.
  unfold SP1060Channel_init, Ints_validate. cbn.
  replace ((1 <=? channel)%Z && (channel <=? 24)%Z) with true
    by (symmetry; apply andb_true_intro; split; apply Z.leb_le; lia).
  cbn. eexists _, _. split; [reflexivity |]. split; [reflexivity |]. cbn.
  unfold py_min, py_max.
  pose proof (proj2 (Qle_bool_false min_val max_val) Hlt) as E1.
  assert (E2 : Qle_bool max_val min_val = true)
    by (apply Qle_bool_iff, Qlt_le_weak, Hlt).
  rewrite E1, E2. repeat split; reflexivity.
Qed.

Lemma channel_inverted_bounds_normalised_witness :
  exists ch ch',
    SP1060Channel_init "chan3" 3 5 (-5) = Ret ch
    /\ SP1060Channel_init "chan3" 3 (-5) 5 = Ret ch'
    /\ vals (volt ch) = {| _min_value := -5; _max_value := 5 |}
    /\ vals (volt ch') = vals (volt ch)
    /\ forall v, Numbers_accepts (vals (volt ch)) v
                 = Numbers_accepts (vals (volt ch')) v.
Proof.
  apply (channel_inverted_bounds_normalised "chan3" 3 5 (-5)).
  - lia.
  - reflexivity.
Defined.

(** ** Splitting the status reply *)

Lemma rev_onto_rev_onto (t cur acc : string) :
  PyStr.rev_onto (PyStr.rev_onto t cur) acc = PyStr.rev_onto cur (t ++ acc).
Proof.
  revert cur acc. induction t as [| c t IH]; intros cur acc; cbn.
  - reflexivity.
  - rewrite IH. reflexivity.
Qed.

Lemma string_app_nil_r (s : string) : s ++ EmptyString = s.
Proof. induction s as [| c s IH]; cbn; [| rewrite IH]; reflexivity. Qed.

Lemma string_app_assoc (a b c : string) : (a ++ b) ++ c = a ++ (b ++ c).
Proof. induction a as [| x a IH]; cbn; [| rewrite IH]; reflexivity. Qed.

Lemma split_onto_piece (sep : ascii) (t s cur : string) :
  lacks_char sep t = true ->
  PyStr.split_onto sep (t ++ s) cur = PyStr.split_onto sep s (PyStr.rev_onto t cur).
Proof.
  revert cur. induction t as [| c t IH]; intros cur H; cbn in *.
  - reflexivity.
  - apply andb_prop in H as [Hc Ht].
    destruct (Ascii.eqb c sep); [discriminate |]. apply IH, Ht.
Qed.

Lemma split_onto_sep (sep : ascii) (s cur : string) :
  PyStr.split_onto sep (String sep s) cur
  = PyStr.rev cur :: PyStr.split_onto sep s EmptyString.
Proof. cbn. rewrite Ascii.eqb_refl. reflexivity. Qed.

Lemma split_join (sep : ascii) (t : string) (ts : list string) :
  Forall (fun x => lacks_char sep x = true) (t :: ts) ->
  PyStr.split sep (PyStr.join (String sep EmptyString) (t :: ts)) = t :: ts.
Proof.
  unfold PyStr.split. revert t.
  induction ts as [| u ts IH]; intros t H.
  - cbn. inversion H as [| ? ? Ht _]; subst.
    rewrite <- (string_app_nil_r t) at 1.
    rewrite split_onto_piece by exact Ht.
    cbn. unfold PyStr.rev. rewrite rev_onto_rev_onto. cbn.
    rewrite string_app_nil_r. reflexivity.
  - inversion H as [| ? ? Ht Hts]; subst.
    change (PyStr.join (String sep EmptyString) (t :: u :: ts))
      with (t ++ String sep EmptyString ++ PyStr.join (String sep EmptyString) (u :: ts)).
    rewrite split_onto_piece by exact Ht.
    cbn [append]. rewrite split_onto_sep, (IH u Hts).
    unfold PyStr.rev. rewrite rev_onto_rev_onto. cbn [PyStr.rev_onto].
    rewrite string_app_nil_r. reflexivity.
Qed.

Lemma starts_with_contains (old s : string) :
  PyStr.contains old s = false -> PyStr.starts_with old s = None.
Proof.
  destruct s; cbn; destruct (PyStr.starts_with old _); congruence.
Qed.

Lemma remove_all_absent (old s : string) (fuel : nat) :
  PyStr.contains old s = false -> PyStr.remove_all old s fuel = s.
Proof.
  revert s. induction fuel as [| fuel IH]; intros s H; [reflexivity |].
  cbn. rewrite (starts_with_contains _ _ H).
  destruct s as [| c r]; [reflexivity |].
  rewrite IH; [reflexivity |].
  cbn in H. destruct (PyStr.starts_with old (String c r)); [discriminate | exact H].
Qed.

Lemma query_all_eq (instr : instrument) (tr : list event) :
  let reply := instr (tr ++ [Clear; Write "All S?"])%list in
  query_all instr tr
  = (Ret (PyStr.split ";"%char (PyStr.replace_with_empty crlf reply)),
     (tr ++ [Clear; Write "All S?"; Read reply])%list).
Proof.
  cbv zeta. unfold query_all.
  rewrite (io_bind_ret _ _ _ _ _ (write_eq instr "All S?" tr)). reflexivity.
Qed.

(** C9: when the instrument answers the status query with 24 tokens
    separated by semicolons, tokens that hold no semicolon, in a line that
    holds no line terminator, [query_all] sends the one query and returns
    the 24 tokens as they are, in their order. *)
Theorem query_all_returns_tokens (instr : instrument) (tr : list event)
    (tokens : list string) :
  List.length tokens = 24%nat ->
  Forall (fun t => lacks_char ";"%char t = true) tokens ->
  PyStr.contains crlf (PyStr.join ";" tokens) = false ->
  instr (tr ++ [Clear; Write "All S?"])%list = PyStr.join ";" tokens ->
  fst (query_all instr tr) = Ret tokens
  /\ writes (snd (query_all instr tr)) = (writes tr ++ ["All S?"])%list.
Proof.
  intros Hlen Hsemi Hcrlf Hreply.
  rewrite query_all_eq. cbn [fst snd]. rewrite Hreply. split.
  - unfold PyStr.replace_with_empty. rewrite remove_all_absent by exact Hcrlf.
    destruct tokens as [| t ts]; [discriminate Hlen |].
    rewrite split_join by exact Hsemi. reflexivity.
  - rewrite writes_app. reflexivity.
Qed.

Lemma query_all_returns_tokens_witness :
  let tokens := (repeat "ON" 23 ++ ["OFF"])%list in
  let instr := fun _ : list event => PyStr.join ";" tokens in
  fst (query_all instr []) = Ret tokens
  /\ writes (snd (query_all instr [])) = (writes [] ++ ["All S?"])%list.
Proof.
  cbv zeta.
  apply (query_all_returns_tokens
           (fun _ => PyStr.join ";" (repeat "ON" 23 ++ ["OFF"])%list) []
           (repeat "ON" 23 ++ ["OFF"])%list).
  - reflexivity.
  - cbn. repeat constructor.
  - vm_compute. reflexivity.
  - reflexivity.
Defined.

(** ** Device construction *)

Lemma runs_lift_decode (raw : string) :
  runs (io_lift (SP1060Reader._dacval_to_vval raw)) [].
Proof.
  intros tr. unfold io_lift.
  destruct (SP1060Reader._dacval_to_vval raw) as [r | e] eqn:E.
  - exists r, tr. rewrite app_nil_r. split; reflexivity.
  - exfalso. exact (decode_never_raises raw e E).
Qed.

Lemma runs_read_voltage (instr : instrument) (chan : Z) :
  runs (_read_voltage instr chan) [read_command chan].
Proof.
  unfold _read_voltage.
  eapply runs_bind; [apply runs_write | intro; apply runs_lift_decode | reflexivity].
Qed.

Lemma runs_volt_get (instr : instrument) (ch : SP1060Channel) :
  runs (volt_get instr ch) [read_command (_channel ch)].
Proof.
  unfold volt_get.
  eapply runs_bind; [apply runs_read_voltage | intro; apply runs_ret | reflexivity].
Qed.

Lemma runs_io_map {A B : Type} (body : A -> io B) (cmd : A -> string) (xs : list A) :
  (forall x, runs (body x) [cmd x]) ->
  runs (io_map xs body) (map cmd xs).
Proof.
  intros H. induction xs as [| x xs IH]; cbn [io_map map].
  - apply runs_ret.
  - eapply runs_bind; [apply H | intro | reflexivity].
    eapply runs_bind; [apply IH | intro; apply runs_ret |].
    rewrite app_nil_r. reflexivity.
Qed.

Lemma runs_all_on (instr : instrument) : runs (all_on instr) ["ALL ON"].
Proof. unfold all_on. runs_auto. Qed.

Lemma runs_get_idn (instr : instrument) : runs (get_idn instr) ["HARD?"; "SOFT?"].
Proof. unfold get_idn, get_serial, get_firmware. runs_auto. Qed.

(** What the construction writes, given the tokens of the status reply;
    [tr] is what happened on the handle before. *)
Lemma SP1060_init_writes (instr : instrument) (nm address : string)
    (min_val max_val : Q) (baud_rate : Z) (tr : list event) :
  let tokens := PyStr.split ";"%char
                  (PyStr.replace_with_empty crlf
                     (instr (tr ++ [Clear; Write "All S?"])%list)) in
  exists dev tr',
    SP1060_init instr nm address min_val max_val baud_rate tr = (Ret dev, tr')
    /\ writes tr'
       = (writes tr
          ++ "All S?"
          :: (if existsb (String.eqb "OFF") tokens then ["ALL ON"] else [])
          ++ ["HARD?"; "SOFT?"]
          ++ map read_command (range 1 25))%list.
Proof.
  unfold SP1060_init. cbv zeta.
  destruct (py_map (fun i => SP1060Channel_init ("chan" ++ PyStr.format_d i) i (-10) 10)
              (range 1 (1 + 24))) as [chans | e] eqn:E;
    [| vm_compute in E; discriminate E].
  assert (Hch : map _channel chans = range 1 25).
  { vm_compute in E. injection E as <-. reflexivity. }
  erewrite io_bind_ret by reflexivity.
  erewrite io_bind_ret by apply (query_all_eq instr tr).
  set (chans' := map _ chans).
  assert (Hch' : map (fun ch => read_command (_channel ch)) chans'
                 = map read_command (range 1 25)).
  { rewrite <- Hch. unfold chans'. rewrite !map_map. reflexivity. }
  set (tr0 := (tr ++ [Clear; Write "All S?"; Read _])%list).
  assert (W0 : writes tr0 = (writes tr ++ ["All S?"])%list)
    by (unfold tr0; rewrite writes_app; reflexivity).
  assert (R : forall m : io unit, forall ws, runs m ws ->
              runs (m ;;; (_ <~ get_idn instr ;;
                           read <~ io_map chans' (volt_get instr) ;;
                           io_ret {| num_chans := 24; channels := map snd read |}))
                   (ws ++ ["HARD?"; "SOFT?"] ++ map read_command (range 1 25))%list).
  { intros m ws Hm.
    eapply runs_bind; [exact Hm | intro | reflexivity].
    eapply runs_bind; [apply runs_get_idn | intro | reflexivity].
    eapply runs_bind;
      [apply (runs_io_map (volt_get instr)
                (fun ch => read_command (_channel ch))), runs_volt_get
      | intro; apply runs_ret |].
    rewrite app_nil_r, Hch'. reflexivity. }
  destruct (existsb (String.eqb "OFF") _).
  - destruct (R _ _ (runs_all_on instr) tr0) as (dev & tr' & Erun & W).
    exists dev, tr'. split; [exact Erun |].
    rewrite W, W0, <- app_assoc. reflexivity.
  - destruct (R _ _ (runs_ret tt) tr0) as (dev & tr' & Erun & W).
    exists dev, tr'. split; [exact Erun |].
    rewrite W, W0, <- app_assoc. reflexivity.
Qed.

(** C5: whatever happened on the handle before, the construction
    completes, and the commands it writes hold [ALL ON] once when the status
    reply has a token [OFF], and not at all when it has none; the command
    comes right after the status query. *)
Theorem init_all_on_once_iff_off (instr : instrument) (nm address : string)
    (min_val max_val : Q) (baud_rate : Z) (tr : list event) :
  let tokens := PyStr.split ";"%char
                  (PyStr.replace_with_empty crlf
                     (instr (tr ++ [Clear; Write "All S?"])%list)) in
  exists dev tr' ws,
    SP1060_init instr nm address min_val max_val baud_rate tr = (Ret dev, tr')
    /\ writes tr' = (writes tr ++ ws)%list
    /\ fst (query_all instr tr) = Ret tokens
    /\ count_occ string_dec ws "ALL ON"
       = (if existsb (String.eqb "OFF") tokens then 1%nat else 0%nat)
    /\ (existsb (String.eqb "OFF") tokens = true ->
        firstn 2 ws = ["All S?"; "ALL ON"]).
Proof.
  cbv zeta.
  destruct (SP1060_init_writes instr nm address min_val max_val baud_rate tr)
    as (dev & tr' & E & W).
  cbv zeta in W.
  eexists dev, tr', _. split; [exact E |]. split; [exact W |].
  split; [rewrite query_all_eq; reflexivity |].
  destruct (existsb (String.eqb "OFF") _).
  - split; [vm_compute; reflexivity | intros _; reflexivity].
  - split; [vm_compute; reflexivity | discriminate].
Qed.

(** ** Discipline of the transport *)

Lemma exchanges_app (es1 es2 : list event) :
  exchanges es1 -> exchanges es2 -> exchanges (es1 ++ es2).
Proof.
  intros H1 H2. induction H1; cbn; try constructor; assumption.
Qed.

(** In such traffic a written command stands between the clear before it
    and the read of its reply. *)
Lemma exchanges_write_framed (es : list event) :
  exchanges es ->
  forall pre cmd post, es = (pre ++ Write cmd :: post)%list ->
    (exists pre', pre = (pre' ++ [Clear])%list)
    /\ (exists reply post', post = Read reply :: post').
Proof.
  induction 1 as [| c r es H IH | es H IH | r es H IH | s es H IH];
    intros pre cmd post E.
  - destruct pre; discriminate E.
  - destruct pre as [| p0 [| p1 [| p2 pre]]]; try discriminate E.
    + injection E as E0 E1 E2. subst.
      split; [exists []; reflexivity | eauto].
    + injection E as E0 E1 E2 E3. subst.
      destruct (IH pre cmd post eq_refl) as [[pre' ->] Hpost].
      split; [exists (Clear :: Write c :: Read r :: pre'); reflexivity | exact Hpost].
  - destruct pre as [| p0 pre]; [discriminate E |].
    injection E as E0 E1. subst p0.
    destruct pre as [| p1 pre].
    + cbn in E1. subst es. inversion H.
    + destruct (IH (p1 :: pre) cmd post E1) as [[pre' Hpre] Hpost].
      split; [exists (Clear :: pre'); cbn; rewrite <- Hpre; reflexivity | exact Hpost].
  - destruct pre as [| p0 pre]; [discriminate E |].
    injection E as E0 E1. subst p0.
    destruct pre as [| p1 pre].
    + cbn in E1. subst es. inversion H.
    + destruct (IH (p1 :: pre) cmd post E1) as [[pre' Hpre] Hpost].
      split; [exists (Read r :: pre'); cbn; rewrite <- Hpre; reflexivity | exact Hpost].
  - destruct pre as [| p0 pre]; [discriminate E |].
    injection E as E0 E1. subst p0.
    destruct pre as [| p1 pre].
    + cbn in E1. subst es. inversion H.
    + destruct (IH (p1 :: pre) cmd post E1) as [[pre' Hpre] Hpost].
      split; [exists (Sleep s :: pre'); cbn; rewrite <- Hpre; reflexivity | exact Hpost].
Qed.

Lemma disciplined_ret {A : Type} (a : A) : disciplined (io_ret a).
Proof. intros tr. exists []. rewrite app_nil_r. split; [reflexivity | constructor]. Qed.

Lemma disciplined_lift {A : Type} (r : py A) : disciplined (io_lift r).
Proof. intros tr. exists []. rewrite app_nil_r. split; [reflexivity | constructor]. Qed.

Lemma disciplined_bind {A B : Type} (m : io A) (k : A -> io B) :
  disciplined m -> (forall a, disciplined (k a)) -> disciplined (io_bind m k).
Proof.
  intros Hm Hk tr. destruct (Hm tr) as (es1 & E1 & X1).
  unfold io_bind. destruct (m tr) as [[a | e] tr1]; cbn [snd] in *; subst tr1.
  - destruct (Hk a (tr ++ es1)%list) as (es2 & E2 & X2).
    exists (es1 ++ es2)%list. rewrite E2, app_assoc.
    split; [reflexivity | apply exchanges_app; assumption].
  - exists es1. split; [reflexivity | exact X1].
Qed.

Lemma disciplined_write (instr : instrument) (cmd : string) :
  disciplined (write instr cmd).
Proof.
  intros tr. rewrite write_eq. eexists. split; [reflexivity |].
  repeat constructor.
Qed.

Lemma disciplined_clear : disciplined visa_clear.
Proof. intros tr. exists [Clear]. split; [reflexivity | repeat constructor]. Qed.

Lemma disciplined_read (instr : instrument) : disciplined (visa_read instr).
Proof. intros tr. eexists. split; [reflexivity | repeat constructor]. Qed.

Lemma disciplined_sleep (s : Q) : disciplined (sleep s).
Proof. intros tr. exists [Sleep s]. split; [reflexivity | repeat constructor]. Qed.

Lemma disciplined_io_map {A B : Type} (body : A -> io B) (xs : list A) :
  (forall x, disciplined (body x)) -> disciplined (io_map xs body).
Proof.
  intros H. induction xs as [| x xs IH]; cbn [io_map].
  - apply disciplined_ret.
  - apply disciplined_bind; [apply H | intro].
    apply disciplined_bind; [apply IH | intro; apply disciplined_ret].
Qed.

Ltac disc_step :=
  lazymatch goal with
  | |- disciplined (io_ret _) => apply disciplined_ret
  | |- disciplined (io_lift _) => apply disciplined_lift
  | |- disciplined (write _ _) => apply disciplined_write
  | |- disciplined (sleep _) => apply disciplined_sleep
  | |- disciplined visa_clear => apply disciplined_clear
  | |- disciplined empty_buffer => apply disciplined_clear
  | |- disciplined (visa_read _) => apply disciplined_read
  | |- disciplined (io_bind _ _) => apply disciplined_bind; [ | intro ]
  | |- disciplined (discard _) => unfold discard
  | |- disciplined (if ?b then _ else _) => destruct b
  | |- disciplined (match ?x with Some _ => _ | None => _ end) => destruct x
  end.

Ltac disc_auto := repeat disc_step.

Lemma disciplined_set_voltage (instr : instrument) (chan : Z) (code : option Z) :
  disciplined (_set_voltage instr chan code).
Proof. unfold _set_voltage. disc_auto. Qed.

Lemma disciplined_read_voltage (instr : instrument) (chan : Z) :
  disciplined (_read_voltage instr chan).
Proof. unfold _read_voltage. disc_auto. Qed.

Lemma disciplined_get_idn (instr : instrument) : disciplined (get_idn instr).
Proof. unfold get_idn, get_serial, get_firmware. disc_auto. Qed.

Lemma disciplined_send_values (instr : instrument) (chan : Z) (delay : Q)
    (vs : list Q) :
  disciplined (send_values instr chan delay vs).
Proof.
  induction vs as [| v vs IH]; cbn [send_values].
  - apply disciplined_ret.
  - apply disciplined_bind.
    + unfold send_value. apply disciplined_bind;
        [apply disciplined_lift | intro; apply disciplined_set_voltage].
    + intros _. destruct vs; [apply disciplined_ret |].
      apply disciplined_bind; [apply disciplined_sleep | intro; exact IH].
Qed.

Lemma disciplined_volt_set (instr : instrument) (ch : SP1060Channel) (v : Q) :
  disciplined (volt_set instr ch v).
Proof.
  unfold volt_set.
  apply disciplined_bind; [apply disciplined_lift | intro].
  apply disciplined_bind; [apply disciplined_send_values | intro; apply disciplined_ret].
Qed.

Lemma disciplined_volt_get (instr : instrument) (ch : SP1060Channel) :
  disciplined (volt_get instr ch).
Proof.
  unfold volt_get.
  apply disciplined_bind; [apply disciplined_read_voltage | intro; apply disciplined_ret].
Qed.

Lemma disciplined_init (instr : instrument) (nm address : string)
    (min_val max_val : Q) (baud_rate : Z) :
  disciplined (SP1060_init instr nm address min_val max_val baud_rate).
Proof.
  unfold SP1060_init. cbv zeta.
  apply disciplined_bind; [apply disciplined_lift | intro].
  apply disciplined_bind; [unfold query_all; disc_auto | intro].
  apply disciplined_bind; [destruct (existsb _ _); unfold all_on; disc_auto | intro].
  apply disciplined_bind; [apply disciplined_get_idn | intro].
  apply disciplined_bind;
    [apply disciplined_io_map, disciplined_volt_get | intro; apply disciplined_ret].
Qed.

Lemma disciplined_perform (instr : instrument) (c : call) :
  disciplined (perform instr c).
Proof.
  destruct c; cbn [perform]; unfold discard.
  - apply disciplined_bind; [apply disciplined_init | intro; apply disciplined_ret].
  - disc_auto.
  - disc_auto.
  - apply disciplined_set_voltage.
  - apply disciplined_bind; [apply disciplined_read_voltage | intro; apply disciplined_ret].
  - unfold set_all. apply disciplined_bind; [| intro; apply disciplined_ret].
    apply disciplined_bind; [| intro; apply disciplined_ret].
    apply disciplined_io_map. intro. apply disciplined_volt_set.
  - unfold query_all. disc_auto.
  - unfold all_on. disc_auto.
  - unfold all_off. disc_auto.
  - unfold get_serial. disc_auto.
  - unfold get_firmware. disc_auto.
  - apply disciplined_bind; [apply disciplined_get_idn | intro; apply disciplined_ret].
  - unfold set_newWaveform. disc_auto.
  - apply disciplined_bind; [apply disciplined_volt_set | intro; apply disciplined_ret].
  - apply disciplined_bind; [apply disciplined_volt_get | intro; apply disciplined_ret].
Qed.

Lemma session_exchanges (instr : instrument) (cs : list call) :
  exchanges (session instr cs).
Proof.
  unfold session.
  assert (G : forall tr, exchanges tr ->
              exchanges (fold_left (fun tr c => snd (perform instr c tr)) cs tr)).
  { induction cs as [| c cs IH]; intros tr H; cbn [fold_left]; [exact H |].
    apply IH. destruct (disciplined_perform instr c tr) as (es & -> & X).
    apply exchanges_app; assumption. }
  apply G. constructor.
Qed.

(** C6: in the trace of any session of driver calls, a written command is
    immediately preceded by a clear of the buffer and immediately followed
    by the read of one reply. *)
Theorem write_is_drained_exchange (instr : instrument) (cs : list call)
    (pre post : list event) (cmd : string) :
  session instr cs = (pre ++ Write cmd :: post)%list ->
  (exists pre', pre = (pre' ++ [Clear])%list)
  /\ (exists reply post', post = Read reply :: post').
Proof.
  intros E. exact (exchanges_write_framed _ (session_exchanges instr cs) _ _ _ E).
Qed.

Lemma write_is_drained_exchange_witness :
  (exists pre', [Clear; Write "All S?"; Read "ON;OFF"; Clear] = (pre' ++ [Clear])%list)
  /\ (exists reply post', [Read "ON;OFF"] = Read reply :: post').
Proof.
  apply (write_is_drained_exchange (fun _ => "ON;OFF") [call_query_all; call_all_on]
           [Clear; Write "All S?"; Read "ON;OFF"; Clear] [Read "ON;OFF"] "ALL ON").
  reflexivity.
Defined.

(** ** Stepped update of a channel *)

Lemma steps_within_linear (start signed st target : Q) (m k : nat) :
  (Qabs signed <= st)%Q ->
  (Qabs (target - (start + inject_Z (Z.of_nat (k + m)) * signed)) <= st)%Q ->
  steps_within (start + inject_Z (Z.of_nat k) * signed)%Q
    (map (fun i => (start + inject_Z (Z.of_nat i) * signed)%Q) (seq (S k) m) ++ [target])%list
    st.
Proof.
  intros Hs. revert k. induction m as [| m IH]; intros k Hlast.
  - cbn. rewrite Nat.add_0_r in Hlast. split; [exact Hlast | exact I].
  - cbn [seq map app steps_within]. split.
    + setoid_replace (start + inject_Z (Z.of_nat (S k)) * signed
                      - (start + inject_Z (Z.of_nat k) * signed))%Q with signed; [exact Hs |].
      rewrite Nat2Z.inj_succ. unfold Z.succ. rewrite inject_Z_plus. ring.
    + apply IH. replace (S k + m)%nat with (k + S m)%nat by lia. exact Hlast.
Qed.

(** The ramp in general: for a positive step, every value is within one
    step of the one before it, the first within one step of the start, and
    the last value is the target. *)
Lemma ramp_values_steps (start target st : Q) :
  (0 < st)%Q ->
  steps_within start (ramp_values start target st) st
  /\ last (ramp_values start target st) start = target.
Proof.
  intros Hst. unfold ramp_values.
  set (dist := Qabs (target - start)).
  destruct (Qle_bool dist st) eqn:Ed; cbn [orb].
  - split; [| reflexivity]. cbn. split; [apply Qle_bool_iff, Ed | exact I].
  - replace (Qle_bool st 0) with false
      by (symmetry; apply Qle_bool_false; exact Hst).
    apply Qle_bool_false in Ed.
    split; [| apply last_last].
    set (x := (dist / st)%Q).
    assert (Hx : (1 < x)%Q).
    { unfold x. apply Qlt_shift_div_l; [exact Hst | lra]. }
    pose proof (Qle_ceiling x) as C1. pose proof (Qceiling_lt x) as C2.
    set (N := (Qceiling x - 1)%Z) in *.
    assert (HN : (1 <= N)%Z).
    { assert (L : (1 < inject_Z (Qceiling x))%Q) by lra.
      change 1%Q with (inject_Z 1) in L. rewrite <- Zlt_Qlt in L. unfold N. lia. }
    assert (EN : (inject_Z (Qceiling x) == inject_Z N + 1)%Q).
    { unfold N, Z.sub. rewrite inject_Z_plus, inject_Z_opp. change (inject_Z 1) with 1%Q. ring. }
    rewrite EN in C1.
    assert (Edist : (dist == x * st)%Q) by (unfold x; field; lra).
    assert (Hrem : (0 < dist - inject_Z N * st <= st)%Q).
    { rewrite Edist. split.
      - setoid_replace (x * st - inject_Z N * st)%Q with ((x - inject_Z N) * st)%Q by ring.
        apply Qmult_lt_0_compat; lra.
      - setoid_replace (x * st - inject_Z N * st)%Q with ((x - inject_Z N) * st)%Q by ring.
        rewrite <- (Qmult_1_l st) at 2. apply Qmult_le_compat_r; lra. }
    pose proof (steps_within_linear start
                  (if Qle_bool start target then st else (- st)%Q) st target
                  (Z.to_nat N) 0) as G.
    change (inject_Z (Z.of_nat 0)) with 0%Q in G.
    assert (E0 : forall s : Q, (start + 0 * s == start)%Q) by (intros; ring).
    cbn [Nat.add] in G. rewrite Z2Nat.id in G by lia.
    assert (G' : steps_within (start + 0 * (if Qle_bool start target then st else - st))%Q
                   (map (fun i => (start + inject_Z (Z.of_nat i)
                                           * (if Qle_bool start target then st else - st))%Q)
                        (seq 1 (Z.to_nat N)) ++ [target])%list st).
    { apply G.
      - destruct (Qle_bool start target); [| rewrite Qabs_opp]; rewrite Qabs_pos; lra.
      - unfold dist in Hrem.
        destruct (Qle_bool start target) eqn:Edir.
        + apply Qle_bool_iff in Edir. rewrite Qabs_pos in Hrem by lra.
          apply Qabs_Qle_condition. split; lra.
        + apply Qle_bool_false in Edir. rewrite Qabs_neg in Hrem by lra.
          apply Qabs_Qle_condition. split; lra. }
    clear G. revert G'.
    generalize (map (fun i => (start + inject_Z (Z.of_nat i)
                                       * (if Qle_bool start target then st else - st))%Q)
                    (seq 1 (Z.to_nat N)) ++ [target])%list.
    intros l. destruct l as [| v l]; cbn [steps_within]; [trivial |].
    intros [H1 H2]. split; [| exact H2].
    eapply Qle_trans; [| exact H1]. apply Qle_lteq. right.
    apply Qabs_wd. ring.
Qed.

Lemma rises_withinb_sound (prev : Q) (vs : list Q) (st : Q) :
  rises_withinb prev vs st = true -> rises_within prev vs st.
Proof.
  revert prev. induction vs as [| v vs IH]; intros prev H; cbn in *; [exact I |].
  apply andb_prop in H as [H H3]. apply andb_prop in H as [H1 H2].
  split; [| split].
  - apply Qle_bool_false. destruct (Qle_bool v prev); [discriminate | reflexivity].
  - apply Qle_bool_iff, H2.
  - apply IH, H3.
Qed.

Lemma runs_send_value (instr : instrument) (chan : Z) (v : Q) :
  dac_code v <> None ->
  runs (send_value instr chan v) [set_command chan v].
Proof.
  unfold send_value, set_command, dac_code. intros H tr.
  destruct (SP1060Reader._vval_to_dacval (float_of_Q v)) as [[n |] | e];
    try (exfalso; apply H; reflexivity).
  erewrite io_bind_ret by reflexivity.
  unfold _set_voltage.
  assert (R : runs (write instr (PyStr.format_d chan ++ " " ++ PyStr.format_X n) ;;; io_ret tt)
                [PyStr.format_d chan ++ " " ++ PyStr.format_X n]) by runs_auto.
  exact (R tr).
Qed.

Lemma runs_send_values (instr : instrument) (chan : Z) (delay : Q) (vs : list Q) :
  Forall (fun v => dac_code v <> None) vs ->
  runs (send_values instr chan delay vs) (map (set_command chan) vs).
Proof.
  induction 1 as [| v vs Hv Hvs IH]; cbn [send_values map].
  - apply runs_ret.
  - eapply runs_bind; [apply runs_send_value, Hv | intro | reflexivity].
    destruct vs as [| w vs]; [apply runs_ret |].
    eapply runs_bind; [apply runs_sleep | intro; exact IH | reflexivity].
Qed.

Lemma performs_send_value (instr : instrument) (chan : Z) (v : Q) :
  dac_code v <> None ->
  performs (send_value instr chan v) (exchange (set_command chan v)).
Proof.
  unfold send_value, set_command, dac_code. intros H tr.
  destruct (SP1060Reader._vval_to_dacval (float_of_Q v)) as [[n |] | e];
    try (exfalso; apply H; reflexivity).
  erewrite io_bind_ret by reflexivity.
  unfold _set_voltage.
  assert (R : performs
                (write instr (PyStr.format_d chan ++ " " ++ PyStr.format_X n) ;;; io_ret tt)
                (exchange (PyStr.format_d chan ++ " " ++ PyStr.format_X n)))
    by performs_auto.
  exact (R tr).
Qed.

Lemma performs_send_values (instr : instrument) (chan : Z) (delay : Q) (vs : list Q) :
  Forall (fun v => dac_code v <> None) vs ->
  performs (send_values instr chan delay vs)
           (paced delay (map (set_command chan) vs)).
Proof.
  induction 1 as [| v vs Hv Hvs IH]; cbn [send_values map].
  - apply performs_ret.
  - destruct vs as [| w vs].
    + eapply performs_bind; [apply performs_send_value, Hv | intro; apply performs_ret |].
      cbn [map paced]. rewrite app_nil_r. reflexivity.
    + eapply performs_bind; [apply performs_send_value, Hv | intro | reflexivity].
      eapply performs_bind; [apply performs_sleep | intro; exact IH | reflexivity].
Qed.

Lemma last_app_map {A B : Type} (f : A -> B) (l : list B) (vs : list A) (d : B) (d' : A) :
  vs <> [] -> last (l ++ map f vs) d = f (last vs d').
Proof.
  intros H. destruct vs as [| v vs]; [contradiction |]. clear H.
  revert l v. induction vs as [| w vs IH]; intros l v.
  - cbn [map]. apply last_last.
  - change (l ++ map f (v :: w :: vs))%list with (l ++ [f v] ++ map f (w :: vs))%list.
    rewrite app_assoc, IH. reflexivity.
Qed.

(** C2: on a channel whose last known value is 0 V, with step 0.01 V and
    delay 0.02 s, setting 1 V succeeds and writes one set command for each
    of 100 values; the values rise from 0.01 V, each above the one before it
    by no more than 0.01 V, and the last is 1 V, which becomes the last
    known value.  The text of every command is fixed by its value: the
    channel, a blank, and in hexadecimal the scaled value
    (v + 10) * 838860.75 cut to an integer; on the handle the commands are
    complete exchanges with a pause of 0.02 s between two of them; the last
    command carries the code 8CCCCC, which the decoder reads as exactly
    1 V. *)
Theorem volt_set_ramp_0_to_1 (instr : instrument) (ch : SP1060Channel)
    (tr : list event) :
  latest (volt ch) = Some 0%Q ->
  step (volt ch) = Some (1 # 100)%Q ->
  inter_delay (volt ch) = (2 # 100)%Q ->
  Numbers_accepts (vals (volt ch)) 1 = true ->
  exists (vs : list Q) (ch' : SP1060Channel) (tr' : list event),
    volt_set instr ch 1 tr = (Ret ch', tr')
    /\ writes tr' = (writes tr ++ map (set_command (_channel ch)) vs)%list
    /\ Forall (fun v => dac_code v <> None) vs
    /\ (100 <= List.length vs)%nat
    /\ rises_within 0 vs (1 # 100)
    /\ last vs 0%Q = 1%Q
    /\ (forall x, In x (removelast vs) -> (x < 1)%Q)
    /\ latest (volt ch') = Some 1%Q
    /\ writes tr'
       = List.app (writes tr)
           (map (fun v => PyStr.format_d (_channel ch) ++ " "
                          ++ PyStr.format_X (Qfloor ((v + 10) * (3355443 # 4))))
                vs)
    /\ skeleton tr'
       = List.app (skeleton tr)
           (paced (2 # 100)
              (map (fun v => PyStr.format_d (_channel ch) ++ " "
                             ++ PyStr.format_X (Qfloor ((v + 10) * (3355443 # 4))))
                   vs))
    /\ last (writes tr') EmptyString = PyStr.format_d (_channel ch) ++ " 8CCCCC"
    /\ SP1060Reader._dacval_to_vval "8CCCCC" = Ret (Some (B64.of_Z 1)).
Proof.
  intros Hlatest Hstep Hdelay Hacc.
  set (vs := ramp_values 0 1 (1 # 100)).
  assert (Hfloor : forall v, In v vs ->
                     dac_code v = Some (Qfloor ((v + 10) * (3355443 # 4)))).
  { intros v Hv.
    assert (B : forallb (fun v => match dac_code v with
                                  | Some c => (c =? Qfloor ((v + 10) * (3355443 # 4)))%Z
                                  | None => false
                                  end) vs = true) by (vm_compute; reflexivity).
    rewrite forallb_forall in B. specialize (B v Hv).
    destruct (dac_code v) as [c |]; [| discriminate B].
    apply Z.eqb_eq in B. rewrite B. reflexivity. }
  assert (Hcodes : Forall (fun v => dac_code v <> None) vs).
  { apply Forall_forall. intros v Hv. rewrite (Hfloor v Hv). discriminate. }
  assert (Htext : map (set_command (_channel ch)) vs
                  = map (fun v => PyStr.format_d (_channel ch) ++ " "
                                  ++ PyStr.format_X (Qfloor ((v + 10) * (3355443 # 4))))
                        vs).
  { apply map_ext_in. intros v Hv. unfold set_command. rewrite (Hfloor v Hv).
    reflexivity. }
  pose proof (runs_send_values instr (_channel ch) (2 # 100) vs Hcodes tr)
    as (u & tr' & Esend & W).
  pose proof (performs_send_values instr (_channel ch) (2 # 100) vs Hcodes tr)
    as (u' & tr'' & Esend' & S).
  assert (Etr : tr'' = tr') by congruence. subst tr''.
  exists vs, (with_volt ch (with_latest (volt ch) (Some 1%Q))), tr'.
  split; [| split; [exact W | split; [exact Hcodes |]]].
  - unfold volt_set.
    erewrite io_bind_ret
      by (unfold io_lift, Numbers_validate; rewrite Hacc; reflexivity).
    rewrite Hstep, Hlatest, Hdelay. fold vs.
    erewrite io_bind_ret by exact Esend. reflexivity.
  - split; [vm_compute; repeat constructor |].
    split; [apply rises_withinb_sound; vm_compute; reflexivity |].
    split; [reflexivity |].
    split.
    { intros x Hx.
      assert (B : forallb (fun x => negb (Qle_bool 1 x)) (removelast vs) = true)
        by (vm_compute; reflexivity).
      rewrite forallb_forall in B. specialize (B x Hx).
      apply Qle_bool_false. destruct (Qle_bool 1 x); [discriminate B | reflexivity]. }
    split; [reflexivity |].
    split; [rewrite W, Htext; reflexivity |].
    split; [rewrite S, Htext; reflexivity |].
    split; [| vm_compute; reflexivity].
    rewrite W, Htext.
    rewrite (last_app_map _ (writes tr) vs EmptyString 0%Q) by discriminate.
    change (last vs 0%Q) with 1%Q.
    change (Qfloor ((1 + 10) * (3355443 # 4))) with 9227468%Z.
    change (PyStr.format_X 9227468) with "8CCCCC". reflexivity.
Qed.

Lemma volt_set_ramp_0_to_1_witness :
  exists (vs : list Q) (ch' : SP1060Channel) (tr' : list event),
    volt_set (fun _ => "0") (device_channel 1 (Some 0%Q)) 1 [] = (Ret ch', tr')
    /\ writes tr' = (writes [] ++ map (set_command (_channel (device_channel 1 (Some 0%Q)))) vs)%list
    /\ Forall (fun v => dac_code v <> None) vs
    /\ (100 <= List.length vs)%nat
    /\ rises_within 0 vs (1 # 100)
    /\ last vs 0%Q = 1%Q
    /\ (forall x, In x (removelast vs) -> (x < 1)%Q)
    /\ latest (volt ch') = Some 1%Q
    /\ writes tr'
       = List.app (writes [])
           (map (fun v => PyStr.format_d (_channel (device_channel 1 (Some 0%Q))) ++ " "
                          ++ PyStr.format_X (Qfloor ((v + 10) * (3355443 # 4))))
                vs)
    /\ skeleton tr'
       = List.app (skeleton [])
           (paced (2 # 100)
              (map (fun v => PyStr.format_d (_channel (device_channel 1 (Some 0%Q))) ++ " "
                             ++ PyStr.format_X (Qfloor ((v + 10) * (3355443 # 4))))
                   vs))
    /\ last (writes tr') EmptyString
       = PyStr.format_d (_channel (device_channel 1 (Some 0%Q))) ++ " 8CCCCC"
    /\ SP1060Reader._dacval_to_vval "8CCCCC" = Ret (Some (B64.of_Z 1)).
Proof.
  apply (volt_set_ramp_0_to_1 (fun _ => "0") (device_channel 1 (Some 0%Q)) []);
    reflexivity.
Defined.

(** ** Binary64: digits, shifts and rounding *)

Local Open Scope Z_scope.

Lemma digits2_pos_size (m : positive) : digits2_pos m = Pos.size m.
Proof. induction m; cbn; congruence. Qed.

Lemma Zdigits2_nonneg (m : Z) : 0 <= Zdigits2 m.
Proof. destruct m; cbn; lia. Qed.

(** A non-negative integer below [2^k] has at most [k] binary digits. *)
Lemma Zdigits2_le (m k : Z) : 0 <= k -> 0 <= m < 2 ^ k -> Zdigits2 m <= k.
Proof.
  intros Hk [H0 Hm]. destruct m as [| p | p]; cbn; [lia | | lia].
  rewrite digits2_pos_size.
  destruct (Z_lt_le_dec k (Zpos (Pos.size p))) as [L | L]; [exfalso | exact L].
  pose proof (Pos.size_le p) as S.
  assert (2 ^ Zpos (Pos.size p) <= 2 * Zpos p).
  { rewrite <- Pos2Z.inj_pow. change (2 * Zpos p) with (Zpos p~0). apply Pos2Z.pos_le_pos, S. }
  assert (2 ^ (k + 1) <= 2 ^ Zpos (Pos.size p)) by (apply Z.pow_le_mono_r; lia).
  rewrite Z.pow_add_r in * by lia. change (2 ^ 1) with 2 in *. lia.
Qed.

(** A positive integer is at least [2^(d-1)], [d] its number of digits. *)
Lemma Zdigits2_lower (p : positive) : 2 ^ (Zdigits2 (Zpos p) - 1) <= Zpos p.
Proof.
  change (Zdigits2 (Zpos p)) with (Zpos (digits2_pos p)). rewrite digits2_pos_size.
  pose proof (Pos.size_le p) as S.
  assert (H : 2 ^ Zpos (Pos.size p) <= 2 * Zpos p).
  { rewrite <- Pos2Z.inj_pow. change (2 * Zpos p) with (Zpos p~0). apply Pos2Z.pos_le_pos, S. }
  replace (Zpos (Pos.size p)) with (1 + (Zpos (Pos.size p) - 1)) in H by lia.
  rewrite Z.pow_add_r in H by lia. change (2 ^ 1) with 2 in H. lia.
Qed.

Lemma shr_1_m (mrs : shr_record) :
  0 <= shr_m mrs -> shr_m (shr_1 mrs) = shr_m mrs / 2.
Proof.
  destruct mrs as [m r s]. cbn [shr_m]. intros H.
  destruct m as [| [p | p |] | p]; cbn [shr_1 shr_m].
  - reflexivity.
  - rewrite Pos2Z.inj_xI. apply Z.div_unique with (r := 1); lia.
  - rewrite Pos2Z.inj_xO. apply Z.div_unique with (r := 0); lia.
  - reflexivity.
  - lia.
Qed.

Lemma pow2_xI (n : positive) : 2 ^ Zpos n~1 = 2 * 2 ^ Zpos n * 2 ^ Zpos n.
Proof.
  replace (Zpos n~1) with (1 + Zpos n + Zpos n) by lia.
  rewrite !Z.pow_add_r by lia. reflexivity.
Qed.

Lemma pow2_xO (n : positive) : 2 ^ Zpos n~0 = 2 ^ Zpos n * 2 ^ Zpos n.
Proof.
  replace (Zpos n~0) with (Zpos n + Zpos n) by lia.
  rewrite !Z.pow_add_r by lia. reflexivity.
Qed.

Lemma iter_shr_1_m (n : positive) (mrs : shr_record) :
  0 <= shr_m mrs ->
  shr_m (iter_pos shr_1 n mrs) = shr_m mrs / 2 ^ Zpos n.
Proof.
  revert mrs. induction n as [n IH | n IH |]; intros mrs H; cbn [iter_pos].
  - assert (H1 : 0 <= shr_m (shr_1 mrs)) by (rewrite shr_1_m by exact H; apply Z.div_pos; lia).
    assert (H2 : 0 <= shr_m (iter_pos shr_1 n (shr_1 mrs)))
      by (rewrite IH by exact H1; apply Z.div_pos; lia).
    rewrite IH by exact H2. rewrite IH by exact H1. rewrite shr_1_m by exact H.
    rewrite !Z.div_div by lia. rewrite pow2_xI. f_equal. ring.
  - assert (H2 : 0 <= shr_m (iter_pos shr_1 n mrs))
      by (rewrite IH by exact H; apply Z.div_pos; lia).
    rewrite IH by exact H2. rewrite IH by exact H.
    rewrite !Z.div_div by lia. rewrite pow2_xO. reflexivity.
  - rewrite shr_1_m by exact H. reflexivity.
Qed.

Lemma shr_record_of_loc_m (m : Z) (l : location) : shr_m (shr_record_of_loc m l) = m.
Proof. destruct l as [| []]; reflexivity. Qed.

(** The mantissa and exponent after [shr]: a floor division by [2^n]. *)
Lemma shr_spec (mrs : shr_record) (e n : Z) :
  0 <= shr_m mrs ->
  let k := Z.max n 0 in
  shr_m (fst (shr mrs e n)) = shr_m mrs / 2 ^ k /\ snd (shr mrs e n) = e + k.
Proof.
  intros H. cbv zeta. destruct n as [| p | p]; cbn [shr fst snd].
  - rewrite Z.div_1_r. split; lia.
  - rewrite iter_shr_1_m by exact H.
    replace (Z.max (Zpos p) 0) with (Zpos p) by lia. split; reflexivity.
  - replace (Z.max (Zneg p) 0) with 0 by lia. rewrite Z.div_1_r. split; lia.
Qed.

Lemma round_nearest_even_range (m : Z) (l : location) :
  m <= round_nearest_even m l <= m + 1.
Proof.
  destruct l as [| []]; cbn; try lia. destruct (Z.even m); lia.
Qed.

Lemma fexp_eq (e : Z) : fexp B64.prec B64.emax e = Z.max (e - 53) (-1074).
Proof. reflexivity. Qed.

Lemma div_pow2_bounds (m k : Z) :
  0 <= k -> m / 2 ^ k * 2 ^ k <= m < (m / 2 ^ k + 1) * 2 ^ k.
Proof.
  intros Hk. assert (P : 0 < 2 ^ k) by (apply Z.pow_pos_nonneg; lia).
  pose proof (Z.div_mod m (2 ^ k)) as E.
  pose proof (Z.mod_pos_bound m (2 ^ k) P) as M. nia.
Qed.

(** Rounding a located value to binary64: the result is a zero or a finite
    number of the given sign, and it is within one unit of its last place of
    the value, [N / D] units of [2^ex], provided that value is below
    [2^E]. *)
Lemma binary_round_aux_near (sx : bool) (mx ex : Z) (lx : location) (N D E : Z) :
  0 <= mx -> 0 < D -> mx * D <= N < (mx + 1) * D ->
  ex <= E -> -1074 <= E -> N < D * 2 ^ (E - ex) ->
  Z.max (Z.max ex (E - 52)) (-1074) <= 971 ->
  exists m e,
    0 <= m /\ ex <= e <= Z.max (Z.max ex (E - 52)) (-1074)
    /\ binary_round_aux B64.prec B64.emax sx mx ex lx = float_of sx m e
    /\ N - 2 ^ (e - ex) * D < m * 2 ^ (e - ex) * D <= N + 2 ^ (e - ex) * D.
Proof.
  intros Hmx HD HN HexE HE Hlt HB.
  unfold binary_round_aux, shr_fexp.
  set (n := fexp B64.prec B64.emax (Zdigits2 mx + ex) - ex).
  pose proof (shr_spec (shr_record_of_loc mx lx) ex n) as S1.
  rewrite shr_record_of_loc_m in S1. specialize (S1 Hmx). cbv zeta in S1.
  destruct (shr (shr_record_of_loc mx lx) ex n) as [mrs1 e1]. cbn [fst snd] in S1.
  destruct S1 as [Em1 Ee1].
  set (k1 := Z.max n 0) in *.
  assert (Hk1 : 0 <= k1) by (unfold k1; lia).
  assert (P1 : 0 < 2 ^ k1) by (apply Z.pow_pos_nonneg; lia).
  assert (Hm1 : 0 <= shr_m mrs1) by (rewrite Em1; apply Z.div_pos; lia).
  pose proof (div_pow2_bounds mx k1 Hk1) as Bm1. rewrite <- Em1 in Bm1.
  (* the mantissa is below 2^(E-ex) *)
  assert (Pe : 0 < 2 ^ (E - ex)) by (apply Z.pow_pos_nonneg; lia).
  assert (Hmxlt : mx < 2 ^ (E - ex)) by nia.
  assert (Hd : Zdigits2 mx + ex <= E).
  { pose proof (Zdigits2_le mx (E - ex)). lia. }
  assert (He1 : ex <= e1 <= Z.max (Z.max ex (E - 53)) (-1074)).
  { subst e1. unfold k1, n. rewrite fexp_eq. lia. }
  (* rounding *)
  set (m1 := round_nearest_even (shr_m mrs1) (loc_of_shr_record mrs1)).
  pose proof (round_nearest_even_range (shr_m mrs1) (loc_of_shr_record mrs1)) as R.
  fold m1 in R.
  assert (Hm1' : 0 <= m1) by lia.
  set (n2 := fexp B64.prec B64.emax (Zdigits2 m1 + e1) - e1).
  pose proof (shr_spec (shr_record_of_loc m1 loc_Exact) e1 n2) as S2.
  rewrite shr_record_of_loc_m in S2. specialize (S2 Hm1'). cbv zeta in S2.
  destruct (shr (shr_record_of_loc m1 loc_Exact) e1 n2) as [mrs2 e2]. cbn [fst snd] in S2.
  destruct S2 as [Em2 Ee2].
  set (k2 := Z.max n2 0) in *.
  assert (Hk2 : 0 <= k2) by (unfold k2; lia).
  assert (P2 : 0 < 2 ^ k2) by (apply Z.pow_pos_nonneg; lia).
  assert (Hm2 : 0 <= shr_m mrs2) by (rewrite Em2; apply Z.div_pos; lia).
  pose proof (div_pow2_bounds m1 k2 Hk2) as Bm2. rewrite <- Em2 in Bm2.
  (* the rounded mantissa is at most 2^(E-e1) *)
  assert (HEe1 : e1 <= E) by lia.
  assert (Psplit : 2 ^ (E - ex) = 2 ^ (E - e1) * 2 ^ k1).
  { rewrite <- Z.pow_add_r by lia. f_equal. lia. }
  assert (Pe1 : 0 < 2 ^ (E - e1)) by (apply Z.pow_pos_nonneg; lia).
  assert (Hm1lt : shr_m mrs1 < 2 ^ (E - e1)) by nia.
  assert (Hd1 : Zdigits2 m1 + e1 <= E + 1).
  { pose proof (Zdigits2_le m1 (E - e1 + 1)).
    rewrite Z.pow_add_r in H by lia. change (2 ^ 1) with 2 in H. lia. }
  assert (He2 : e1 <= e2 <= Z.max (Z.max ex (E - 52)) (-1074)).
  { subst e2. unfold k2, n2. rewrite fexp_eq. lia. }
  exists (shr_m mrs2), e2.
  split; [exact Hm2 |]. split; [lia |]. split.
  - unfold float_of. destruct (shr_m mrs2) as [| p | p]; [reflexivity | | lia].
    replace (e2 <=? B64.emax - B64.prec) with true; [reflexivity |].
    symmetry. apply Z.leb_le. change (B64.emax - B64.prec) with 971. lia.
  - assert (EK : 2 ^ (e2 - ex) = 2 ^ k2 * 2 ^ k1).
    { rewrite <- Z.pow_add_r by lia. f_equal. lia. }
    rewrite EK.
    assert (P12 : 0 < 2 ^ k2 * 2 ^ k1) by nia.
    split.
    + (* lower *)
      assert (shr_m mrs2 * 2 ^ k2 >= shr_m mrs1 - 2 ^ k2 + 1) by lia.
      assert (shr_m mrs1 * 2 ^ k1 >= mx - 2 ^ k1 + 1) by lia.
      assert (shr_m mrs2 * (2 ^ k2 * 2 ^ k1) >= mx - 2 ^ k2 * 2 ^ k1 + 1) by nia.
      nia.
    + assert (shr_m mrs2 * (2 ^ k2 * 2 ^ k1) <= mx + 2 ^ k1) by nia.
      assert (2 ^ k1 <= 2 ^ k2 * 2 ^ k1) by nia.
      nia.
Qed.

Lemma pow2_pos (e : Z) : (0 < B64.pow2 e)%Q.
Proof. apply Qpower_0_lt. reflexivity. Qed.

Lemma pow2_add (a b : Z) : (B64.pow2 (a + b) == B64.pow2 a * B64.pow2 b)%Q.
Proof. apply Qpower_plus. discriminate. Qed.

Lemma pow2_Z (k : Z) : 0 <= k -> (B64.pow2 k == inject_Z (2 ^ k))%Q.
Proof. intros H. unfold B64.pow2. rewrite Zpower_Qpower by exact H. reflexivity. Qed.

Lemma pow2_le (a b : Z) : a <= b -> (B64.pow2 a <= B64.pow2 b)%Q.
Proof. intros H. apply Qpower_le_compat_l; [exact H | discriminate]. Qed.

Lemma pow2_lt_inv (a b : Z) : (B64.pow2 a < B64.pow2 b)%Q -> a < b.
Proof.
  intros H. destruct (Z_lt_le_dec a b) as [L | L]; [exact L |].
  exfalso. apply (Qlt_not_le _ _ H), pow2_le, L.
Qed.

(** The exact value of the float built from a mantissa and an exponent. *)
Lemma to_Q_float_of (s : bool) (m e : Z) :
  0 <= m ->
  (B64.to_Q (float_of s m e) == inject_Z (cond_Zopp s m) * B64.pow2 e)%Q.
Proof.
  intros H. destruct m as [| p | p]; [| reflexivity | lia].
  cbn [float_of B64.to_Q]. destruct s; cbn [cond_Zopp Z.opp]; ring.
Qed.

Lemma float_of_finite (s : bool) (m e : Z) :
  0 <= m -> B64.is_finite (float_of s m e) = true.
Proof. intros H. destruct m; [reflexivity | reflexivity | lia]. Qed.

(** A bound on a value [m * 2^ex] in the rationals, read on the integers. *)
Lemma pow2_bound_Z (m ex E : Z) :
  0 < m -> (inject_Z m * B64.pow2 ex < B64.pow2 E)%Q ->
  ex <= E /\ m < 2 ^ (E - ex).
Proof.
  intros Hm H.
  assert (L : (B64.pow2 ex < B64.pow2 E)%Q).
  { eapply Qle_lt_trans; [| exact H].
    rewrite <- (Qmult_1_l (B64.pow2 ex)) at 1.
    apply Qmult_le_compat_r; [| apply Qlt_le_weak, pow2_pos].
    change 1%Q with (inject_Z 1). rewrite <- Zle_Qle. lia. }
  apply pow2_lt_inv in L. split; [lia |].
  replace E with (ex + (E - ex)) in H by lia.
  rewrite pow2_add, (pow2_Z (E - ex)) in H by lia.
  rewrite (Qmult_comm (B64.pow2 ex)) in H.
  apply Qmult_lt_r in H; [| apply pow2_pos].
  rewrite <- Zlt_Qlt in H. exact H.
Qed.

(** The core rounding lemma with the value as a rational: [x] is [N / D]
    units of [2^ex]. *)
Lemma binary_round_aux_near_Q (sx : bool) (mx ex : Z) (lx : location)
    (N D E : Z) :
  0 <= mx -> 0 < D -> mx * D <= N < (mx + 1) * D ->
  ex <= E -> -1074 <= E -> N < D * 2 ^ (E - ex) ->
  Z.max (Z.max ex (E - 52)) (-1074) <= 971 ->
  exists m e,
    0 <= m /\ e <= Z.max (Z.max ex (E - 52)) (-1074)
    /\ binary_round_aux B64.prec B64.emax sx mx ex lx = float_of sx m e
    /\ (Qabs (inject_Z m * B64.pow2 e - inject_Z N / inject_Z D * B64.pow2 ex)
        <= B64.pow2 e)%Q.
Proof.
  intros Hmx HD HN HexE HE Hlt HB.
  destruct (binary_round_aux_near sx mx ex lx N D E Hmx HD HN HexE HE Hlt HB)
    as (m & e & Hm & He & Er & Hnear).
  exists m, e. split; [exact Hm |]. split; [lia |]. split; [exact Er |].
  set (K := 2 ^ (e - ex)) in *.
  assert (PK : 0 < K) by (apply Z.pow_pos_nonneg; lia).
  assert (Ee : (B64.pow2 e == B64.pow2 ex * inject_Z K)%Q).
  { replace e with (ex + (e - ex)) at 1 by lia.
    rewrite pow2_add, (pow2_Z (e - ex)) by lia. reflexivity. }
  assert (Dq : (0 < inject_Z D)%Q) by (change 0%Q with (inject_Z 0); rewrite <- Zlt_Qlt; lia).
  assert (Dn : ~ (inject_Z D == 0)%Q) by (intros Z0; rewrite Z0 in Dq; discriminate Dq).
  pose proof (pow2_pos ex) as Pp.
  assert (Eq1 : (inject_Z m * B64.pow2 e - inject_Z N / inject_Z D * B64.pow2 ex
                 == (B64.pow2 ex / inject_Z D) * inject_Z (m * K * D - N))%Q).
  { rewrite Ee. unfold Zminus. rewrite inject_Z_plus, inject_Z_opp, !inject_Z_mult.
    field. exact Dn. }
  assert (Eq2 : (B64.pow2 e == (B64.pow2 ex / inject_Z D) * inject_Z (K * D))%Q).
  { rewrite Ee, inject_Z_mult. field. exact Dn. }
  rewrite Eq1, Eq2.
  assert (Pf : (0 <= B64.pow2 ex / inject_Z D)%Q).
  { apply Qlt_le_weak, Qlt_shift_div_l; [exact Dq |]. rewrite Qmult_0_l. exact Pp. }
  rewrite Qabs_Qmult, (Qabs_pos _ Pf).
  rewrite (Qmult_comm _ (Qabs _)), (Qmult_comm _ (inject_Z (K * D))).
  apply Qmult_le_compat_r; [| exact Pf].
  apply Qabs_Qle_condition. split.
  - rewrite <- inject_Z_opp, <- Zle_Qle. lia.
  - rewrite <- Zle_Qle. lia.
Qed.

Lemma rounds_to_weaken (r : spec_float) (x : Q) (Bx Bx' B B' : Z) :
  rounds_to r x Bx B -> Bx <= Bx' -> B <= B' -> rounds_to r x Bx' B'.
Proof.
  intros (F & X & S & A) Lx L. split; [exact F |]. split; [| split; [exact S |]].
  - destruct r; cbn in *; try exact I; lia.
  - eapply Qle_trans; [exact A | apply pow2_le, L].
Qed.

Lemma rounds_to_exact (r : spec_float) (x : Q) (Bx B : Z) :
  B64.is_finite r = true -> exponent_le r Bx -> (B64.to_Q r == x)%Q ->
  rounds_to r x Bx B.
Proof.
  intros F X E. split; [exact F |]. split; [exact X |]. split.
  - rewrite E. split; intros H; exact H.
  - rewrite E. setoid_replace (x - x)%Q with 0%Q by ring.
    apply Qlt_le_weak, pow2_pos.
Qed.

Lemma exponent_le_float_of (s : bool) (m e B : Z) :
  e <= B -> exponent_le (float_of s m e) B.
Proof. intros H. destruct m; cbn; try exact I; exact H. Qed.

Lemma iter_xO (d m : positive) : Zpos (Pos.iter xO m d) = Zpos m * 2 ^ Zpos d.
Proof.
  induction d as [| d IH] using Pos.peano_ind.
  - cbn. lia.
  - rewrite Pos.iter_succ, Pos2Z.inj_xO, IH, Pos2Z.inj_succ, Z.pow_succ_r by lia. ring.
Qed.

Lemma shl_align_spec (mx : positive) (ex e0 : Z) :
  snd (shl_align mx ex e0) = Z.min ex e0
  /\ Zpos (fst (shl_align mx ex e0)) = Zpos mx * 2 ^ (ex - Z.min ex e0).
Proof.
  unfold shl_align. destruct (e0 - ex) as [| d | d] eqn:E; cbn [fst snd].
  - replace (Z.min ex e0) with ex by lia. rewrite Z.sub_diag. split; lia.
  - replace (Z.min ex e0) with ex by lia. rewrite Z.sub_diag. split; lia.
  - replace (Z.min ex e0) with e0 by lia. split; [reflexivity |].
    rewrite iter_xO. f_equal. f_equal. lia.
Qed.

(** Rounding the positive value [mx * 2^ex], below [2^E], with sign [sx]. *)
Lemma binary_round_rounds (sx : bool) (mx : positive) (ex E : Z) :
  (inject_Z (Zpos mx) * B64.pow2 ex < B64.pow2 E)%Q ->
  -1074 <= E <= 1023 ->
  rounds_to (binary_round B64.prec B64.emax sx mx ex)
            (inject_Z (cond_Zopp sx (Zpos mx)) * B64.pow2 ex)
            (Z.max (E - 52) (-1074)) (Z.max (E - 52) (-1074)).
Proof.
  intros Hlt HE.
  destruct (pow2_bound_Z (Zpos mx) ex E ltac:(lia) Hlt) as [HexE Hmx].
  unfold binary_round.
  set (e0 := fexp B64.prec B64.emax (Zpos (digits2_pos mx) + ex)).
  destruct (shl_align_spec mx ex e0) as [Ez Em].
  destruct (shl_align mx ex e0) as [mz ez]. cbn [fst snd] in Ez, Em.
  assert (Hd : Zdigits2 (Zpos mx) + ex <= E).
  { pose proof (Zdigits2_le (Zpos mx) (E - ex)). lia. }
  assert (He0 : e0 <= Z.max (E - 53) (-1074)).
  { unfold e0. rewrite fexp_eq. change (Zdigits2 (Zpos mx)) with (Zpos (digits2_pos mx)) in Hd. lia. }
  assert (Hez : ez <= ex /\ ez <= e0) by lia.
  assert (P : 0 < 2 ^ (ex - ez)) by (apply Z.pow_pos_nonneg; lia).
  assert (Hsplit : 2 ^ (E - ez) = 2 ^ (E - ex) * 2 ^ (ex - ez)).
  { rewrite <- Z.pow_add_r by lia. f_equal. lia. }
  destruct (binary_round_aux_near_Q sx (Zpos mz) ez loc_Exact (Zpos mz) 1 E)
    as (m & e & Hm & He & Er & Hnear); try lia.
  { rewrite Hsplit, Em. rewrite <- Ez. nia. }
  rewrite Er.
  assert (Ex : (inject_Z (Zpos mz) / inject_Z 1 * B64.pow2 ez
                == inject_Z (Zpos mx) * B64.pow2 ex)%Q).
  { assert (Epow : (B64.pow2 ex == B64.pow2 ez * inject_Z (2 ^ (ex - ez)))%Q).
    { rewrite <- pow2_Z, <- pow2_add by lia.
      replace (ez + (ex - ez)) with ex by lia. reflexivity. }
    rewrite Epow, Em, <- Ez, inject_Z_mult. field. }
  rewrite Ex in Hnear.
  assert (HeB : e <= Z.max (E - 52) (-1074)) by lia.
  split; [apply float_of_finite, Hm |].
  split; [apply exponent_le_float_of, HeB |].
  rewrite to_Q_float_of by exact Hm.
  assert (Pm : (0 <= inject_Z m * B64.pow2 e)%Q).
  { apply Qmult_le_0_compat; [| apply Qlt_le_weak, pow2_pos].
    change 0%Q with (inject_Z 0). rewrite <- Zle_Qle. exact Hm. }
  assert (Px : (0 < inject_Z (Zpos mx) * B64.pow2 ex)%Q).
  { apply Qmult_lt_0_compat; [reflexivity | apply pow2_pos]. }
  destruct sx; cbn [cond_Zopp].
  - rewrite !inject_Z_opp.
    setoid_replace (- inject_Z m * B64.pow2 e)%Q with (- (inject_Z m * B64.pow2 e))%Q by ring.
    setoid_replace (- inject_Z (Zpos mx) * B64.pow2 ex)%Q
      with (- (inject_Z (Zpos mx) * B64.pow2 ex))%Q by ring.
    split.
    + split; intros H; lra.
    + setoid_replace (- (inject_Z m * B64.pow2 e) - - (inject_Z (Zpos mx) * B64.pow2 ex))%Q
        with (- (inject_Z m * B64.pow2 e - inject_Z (Zpos mx) * B64.pow2 ex))%Q by ring.
      rewrite Qabs_opp. eapply Qle_trans; [exact Hnear | apply pow2_le, HeB].
  - split.
    + split; intros H; lra.
    + eapply Qle_trans; [exact Hnear | apply pow2_le, HeB].
Qed.

Lemma cond_Zopp_abs (M : Z) :
  M = cond_Zopp (M <? 0) (Z.abs M).
Proof. destruct M; reflexivity. Qed.

(** Normalising the integer [M] scaled by [2^e]. *)
Lemma binary_normalize_rounds (M e E : Z) :
  (Qabs (inject_Z M * B64.pow2 e) < B64.pow2 E)%Q ->
  -1074 <= E <= 1023 ->
  rounds_to (binary_normalize B64.prec B64.emax M e false)
            (inject_Z M * B64.pow2 e)
            (Z.max (E - 52) (-1074)) (Z.max (E - 52) (-1074)).
Proof.
  intros Hlt HE.
  assert (Pp : (0 <= B64.pow2 e)%Q) by apply Qlt_le_weak, pow2_pos.
  destruct M as [| p | p]; cbn [binary_normalize].
  - apply rounds_to_exact; [reflexivity | exact I | cbn; ring].
  - apply (binary_round_rounds false p e E); [| exact HE].
    rewrite Qabs_pos in Hlt; [exact Hlt |].
    apply Qmult_le_0_compat; [discriminate | exact Pp].
  - apply (binary_round_rounds true p e E); [| exact HE].
    rewrite Qabs_neg in Hlt.
    + setoid_replace (inject_Z (Zpos p) * B64.pow2 e)%Q
        with (- (inject_Z (Zneg p) * B64.pow2 e))%Q; [exact Hlt |].
      change (Zneg p) with (- Zpos p). rewrite inject_Z_opp. ring.
    + change (Zneg p) with (- Zpos p). rewrite inject_Z_opp.
      setoid_replace (- inject_Z (Zpos p) * B64.pow2 e)%Q
        with (- (inject_Z (Zpos p) * B64.pow2 e))%Q by ring.
      assert (0 <= inject_Z (Zpos p) * B64.pow2 e)%Q
        by (apply Qmult_le_0_compat; [discriminate | exact Pp]).
      lra.
Qed.

Lemma inject_cond_Zopp (s : bool) (z : Z) :
  (inject_Z (cond_Zopp s z) == (if s then - inject_Z z else inject_Z z))%Q.
Proof. destruct s; cbn [cond_Zopp]; [rewrite inject_Z_opp |]; reflexivity. Qed.

Lemma aligned_value (s : bool) (m : positive) (ex ez : Z) :
  ez <= ex ->
  (inject_Z (cond_Zopp s (Zpos m * 2 ^ (ex - ez))) * B64.pow2 ez
   == inject_Z (cond_Zopp s (Zpos m)) * B64.pow2 ex)%Q.
Proof.
  intros H.
  assert (Epow : (B64.pow2 ex == B64.pow2 ez * inject_Z (2 ^ (ex - ez)))%Q).
  { rewrite <- pow2_Z, <- pow2_add by lia.
    replace (ez + (ex - ez)) with ex by lia. reflexivity. }
  rewrite Epow, !inject_cond_Zopp, inject_Z_mult. destruct s; ring.
Qed.

Lemma shl_align_value (s : bool) (m : positive) (ex ez : Z) :
  ez <= ex ->
  (inject_Z (cond_Zopp s (Zpos (fst (shl_align m ex ez)))) * B64.pow2 ez
   == inject_Z (cond_Zopp s (Zpos m)) * B64.pow2 ex)%Q.
Proof.
  intros H. destruct (shl_align_spec m ex ez) as [_ Ex].
  replace (Z.min ex ez) with ez in Ex by lia.
  rewrite Ex. apply aligned_value, H.
Qed.

Lemma rounds_to_compat (r : spec_float) (x y : Q) (Bx B : Z) :
  (x == y)%Q -> rounds_to r x Bx B -> rounds_to r y Bx B.
Proof.
  intros E (F & X & S & A). split; [exact F |]. split; [exact X |].
  rewrite <- E. split; assumption.
Qed.

(** Addition of finite floats whose sum is below [2^E] in magnitude. *)
Lemma add_rounds (a b : spec_float) (E Bin : Z) :
  B64.is_finite a = true -> B64.is_finite b = true ->
  exponent_le a Bin -> exponent_le b Bin ->
  (Qabs (B64.to_Q a + B64.to_Q b) < B64.pow2 E)%Q ->
  -1074 <= E <= 1023 ->
  rounds_to (B64.add a b) (B64.to_Q a + B64.to_Q b)
            (Z.max Bin (Z.max (E - 52) (-1074))) (Z.max (E - 52) (-1074)).
Proof.
  intros Fa Fb Xa Xb Hlt HE.
  destruct a as [sa | sa | | sa ma ea]; try discriminate Fa;
    destruct b as [sb | sb | | sb mb eb]; try discriminate Fb;
    cbn [B64.add SFadd].
  - apply rounds_to_exact; [destruct sa, sb; reflexivity | destruct sa, sb; exact I |].
    destruct sa, sb; cbn; ring.
  - apply rounds_to_exact; [reflexivity | cbn in *; lia | cbn; ring].
  - apply rounds_to_exact; [reflexivity | cbn in *; lia | cbn; ring].
  - set (ez := Z.min ea eb).
    set (A := cond_Zopp sa (Zpos (fst (shl_align ma ea ez)))).
    set (C := cond_Zopp sb (Zpos (fst (shl_align mb eb ez)))).
    assert (Es : (inject_Z (A + C) * B64.pow2 ez
                  == B64.to_Q (S754_finite sa ma ea) + B64.to_Q (S754_finite sb mb eb))%Q).
    { cbn [B64.to_Q].
      rewrite <- (shl_align_value sa ma ea ez), <- (shl_align_value sb mb eb ez)
        by (unfold ez; lia).
      fold A C. rewrite inject_Z_plus. ring. }
    eapply rounds_to_weaken; [| apply Z.le_max_r | apply Z.le_refl].
    eapply rounds_to_compat; [exact Es |].
    apply binary_normalize_rounds; [| exact HE].
    rewrite Es. exact Hlt.
Qed.

(** Subtraction of finite floats whose difference is below [2^E]. *)
Lemma sub_rounds (a b : spec_float) (E Bin : Z) :
  B64.is_finite a = true -> B64.is_finite b = true ->
  exponent_le a Bin -> exponent_le b Bin ->
  (Qabs (B64.to_Q a - B64.to_Q b) < B64.pow2 E)%Q ->
  -1074 <= E <= 1023 ->
  rounds_to (B64.sub a b) (B64.to_Q a - B64.to_Q b)
            (Z.max Bin (Z.max (E - 52) (-1074))) (Z.max (E - 52) (-1074)).
Proof.
  intros Fa Fb Xa Xb Hlt HE.
  destruct a as [sa | sa | | sa ma ea]; try discriminate Fa;
    destruct b as [sb | sb | | sb mb eb]; try discriminate Fb;
    cbn [B64.sub SFsub].
  - apply rounds_to_exact; [destruct sa, sb; reflexivity | destruct sa, sb; exact I |].
    destruct sa, sb; cbn; ring.
  - apply rounds_to_exact; [reflexivity | cbn in *; lia |].
    cbn [B64.to_Q]. rewrite !inject_cond_Zopp. destruct sb; cbn [negb]; ring.
  - apply rounds_to_exact; [reflexivity | cbn in *; lia | cbn; ring].
  - set (ez := Z.min ea eb).
    set (A := cond_Zopp sa (Zpos (fst (shl_align ma ea ez)))).
    set (C := cond_Zopp sb (Zpos (fst (shl_align mb eb ez)))).
    assert (Es : (inject_Z (A - C) * B64.pow2 ez
                  == B64.to_Q (S754_finite sa ma ea) - B64.to_Q (S754_finite sb mb eb))%Q).
    { cbn [B64.to_Q].
      rewrite <- (shl_align_value sa ma ea ez), <- (shl_align_value sb mb eb ez)
        by (unfold ez; lia).
      fold A C. unfold Z.sub. rewrite inject_Z_plus, inject_Z_opp. ring. }
    eapply rounds_to_weaken; [| apply Z.le_max_r | apply Z.le_refl].
    eapply rounds_to_compat; [exact Es |].
    apply binary_normalize_rounds; [| exact HE].
    rewrite Es. exact Hlt.
Qed.

Lemma cond_Zopp_xorb (sx sy : bool) (a b : Z) :
  cond_Zopp (xorb sx sy) (a * b) = cond_Zopp sx a * cond_Zopp sy b.
Proof. destruct sx, sy; cbn; lia. Qed.

Lemma Qabs_signed (s : bool) (x : Q) :
  (0 <= x)%Q -> (Qabs (if s then - x else x) == x)%Q.
Proof.
  intros H. destruct s; [rewrite Qabs_opp |]; apply Qabs_pos, H.
Qed.

(** The rounding of a non-negative magnitude, with its sign put back. *)
Lemma signed_rounds (s : bool) (m e B : Z) (x : Q) :
  0 <= m -> e <= B -> (0 < x)%Q ->
  (Qabs (inject_Z m * B64.pow2 e - x) <= B64.pow2 e)%Q ->
  rounds_to (float_of s m e) (if s then - x else x)%Q B B.
Proof.
  intros Hm He Hx Hnear.
  split; [apply float_of_finite, Hm |].
  split; [apply exponent_le_float_of, He |].
  rewrite to_Q_float_of, inject_cond_Zopp by exact Hm.
  assert (Pm : (0 <= inject_Z m * B64.pow2 e)%Q).
  { apply Qmult_le_0_compat; [| apply Qlt_le_weak, pow2_pos].
    change 0%Q with (inject_Z 0). rewrite <- Zle_Qle. exact Hm. }
  assert (Hn : (Qabs (inject_Z m * B64.pow2 e - x) <= B64.pow2 B)%Q)
    by (eapply Qle_trans; [exact Hnear | apply pow2_le, He]).
  destruct s.
  - setoid_replace (- inject_Z m * B64.pow2 e)%Q with (- (inject_Z m * B64.pow2 e))%Q by ring.
    split; [split; intros H; lra |].
    setoid_replace (- (inject_Z m * B64.pow2 e) - - x)%Q
      with (- (inject_Z m * B64.pow2 e - x))%Q by ring.
    rewrite Qabs_opp. exact Hn.
  - split; [split; intros H; lra | exact Hn].
Qed.

(** Multiplication of finite floats whose product is below [2^E]. *)
Lemma mul_rounds (a b : spec_float) (E Ba Bb : Z) :
  B64.is_finite a = true -> B64.is_finite b = true ->
  exponent_le a Ba -> exponent_le b Bb ->
  (Qabs (B64.to_Q a * B64.to_Q b) < B64.pow2 E)%Q ->
  -1074 <= E ->
  Z.max (Z.max (Ba + Bb) (E - 52)) (-1074) <= 971 ->
  rounds_to (B64.mul a b) (B64.to_Q a * B64.to_Q b)
            (Z.max (Z.max (Ba + Bb) (E - 52)) (-1074))
            (Z.max (Z.max (Ba + Bb) (E - 52)) (-1074)).
Proof.
  intros Fa Fb Xa Xb Hlt HE HB.
  destruct a as [sa | sa | | sa ma ea]; try discriminate Fa;
    destruct b as [sb | sb | | sb mb eb]; try discriminate Fb;
    cbn [B64.mul SFmul];
    try (apply rounds_to_exact; [reflexivity | exact I | cbn; ring]).
  cbn in Xa, Xb. cbn [B64.to_Q] in *.
  set (x := (inject_Z (Zpos (ma * mb)) * B64.pow2 (ea + eb))%Q).
  assert (Px : (0 < x)%Q) by (apply Qmult_lt_0_compat; [reflexivity | apply pow2_pos]).
  assert (Ex : (inject_Z (cond_Zopp sa (Zpos ma)) * B64.pow2 ea
                * (inject_Z (cond_Zopp sb (Zpos mb)) * B64.pow2 eb)
                == if xorb sa sb then - x else x)%Q).
  { unfold x. rewrite !inject_cond_Zopp.
    destruct sa, sb; cbn [xorb];
      rewrite pow2_add, Pos2Z.inj_mul, inject_Z_mult; ring. }
  rewrite Ex, Qabs_signed in Hlt by apply Qlt_le_weak, Px.
  destruct (pow2_bound_Z (Zpos (ma * mb)) (ea + eb) E ltac:(lia) Hlt) as [HexE Hm].
  destruct (binary_round_aux_near_Q (xorb sa sb) (Zpos (ma * mb)) (ea + eb) loc_Exact
              (Zpos (ma * mb)) 1 E) as (m & e & Hm0 & He & Er & Hnear); try lia.
  rewrite Er. eapply rounds_to_compat; [symmetry; exact Ex |].
  apply signed_rounds; [exact Hm0 | lia | exact Px |].
  setoid_replace x with (inject_Z (Zpos (ma * mb)) / inject_Z 1 * B64.pow2 (ea + eb))%Q
    by (unfold x; field).
  exact Hnear.
Qed.

Lemma pow2_neq0 (e : Z) : ~ (B64.pow2 e == 0)%Q.
Proof. intros H. pose proof (pow2_pos e) as P. rewrite H in P. discriminate P. Qed.

Lemma inject_pos_neq0 (p : positive) : ~ (inject_Z (Zpos p) == 0)%Q.
Proof. intros H. discriminate H. Qed.

Lemma pow2_sub (a b : Z) : (B64.pow2 (a - b) == B64.pow2 a / B64.pow2 b)%Q.
Proof.
  assert (E : (B64.pow2 a == B64.pow2 (a - b) * B64.pow2 b)%Q).
  { rewrite <- pow2_add. replace (a - b + b) with a by lia. reflexivity. }
  rewrite E. field. apply pow2_neq0.
Qed.

(** The quotient computed by the division core and its exponent. *)
Lemma SFdiv_core_binary_spec (ma mb : positive) (ea eb : Z) :
  let d := Zdigits2 (Zpos ma) + ea - (Zdigits2 (Zpos mb) + eb) in
  let e' := Z.min (fexp B64.prec B64.emax d) (ea - eb) in
  let N := Zpos ma * 2 ^ (ea - eb - e') in
  exists q l,
    SFdiv_core_binary B64.prec B64.emax (Zpos ma) ea (Zpos mb) eb = (q, e', l)
    /\ 0 <= q /\ q * Zpos mb <= N < (q + 1) * Zpos mb.
Proof.
  cbv zeta. unfold SFdiv_core_binary.
  set (d := Zdigits2 (Zpos ma) + ea - (Zdigits2 (Zpos mb) + eb)).
  set (e' := Z.min (fexp B64.prec B64.emax d) (ea - eb)).
  set (s := ea - eb - e').
  assert (Hs : 0 <= s) by (unfold s, e'; lia).
  set (m' := match s with Zpos _ => Z.shiftl (Zpos ma) s | Z0 => Zpos ma | Zneg _ => 0 end).
  assert (Em : m' = Zpos ma * 2 ^ s).
  { unfold m'. destruct s as [| p | p]; [lia | | lia].
    rewrite Z.shiftl_mul_pow2 by lia. reflexivity. }
  pose proof (Z_div_mod m' (Zpos mb) ltac:(lia)) as DM.
  destruct (Z.div_eucl m' (Zpos mb)) as [q r].
  exists q, (new_location (Zpos mb) r). split; [reflexivity |].
  assert (P : 0 < 2 ^ s) by (apply Z.pow_pos_nonneg; lia).
  rewrite <- Em. destruct DM as [DM1 DM2].
  assert (0 <= m') by nia.
  split; nia.
Qed.

(** Division of a finite float by a finite float that is not zero, the
    quotient below [2^E]. *)
Lemma div_rounds (a : spec_float) (sb : bool) (mb : positive) (eb E : Z) :
  B64.is_finite a = true ->
  (Qabs (B64.to_Q a / B64.to_Q (S754_finite sb mb eb)) < B64.pow2 E)%Q ->
  -1074 <= E <= 1023 ->
  rounds_to (B64.div a (S754_finite sb mb eb))
            (B64.to_Q a / B64.to_Q (S754_finite sb mb eb))
            (Z.max (E - 52) (-1074)) (Z.max (E - 52) (-1074)).
Proof.
  intros Fa Hlt HE.
  assert (Nb : ~ (B64.to_Q (S754_finite sb mb eb) == 0)%Q).
  { cbn [B64.to_Q]. rewrite inject_cond_Zopp. intros H.
    apply Qmult_integral in H as [H | H]; [| exact (pow2_neq0 _ H)].
    destruct sb; [| discriminate H].
    apply (inject_pos_neq0 mb). rewrite <- (Qopp_involutive (inject_Z (Zpos mb))), H.
    reflexivity. }
  destruct a as [sa | sa | | sa ma ea]; try discriminate Fa; cbn [B64.div SFdiv].
  - apply rounds_to_exact; [reflexivity | exact I |].
    change (B64.to_Q (S754_zero sa)) with 0%Q.
    change (B64.to_Q (S754_zero (xorb sa sb))) with 0%Q.
    generalize dependent (B64.to_Q (S754_finite sb mb eb)). intros y _ Ny.
    field. exact Ny.
  - set (x := (inject_Z (Zpos ma) / inject_Z (Zpos mb) * B64.pow2 (ea - eb))%Q).
    assert (Px : (0 < x)%Q).
    { apply Qmult_lt_0_compat; [| apply pow2_pos].
      apply Qlt_shift_div_l; [reflexivity | rewrite Qmult_0_l; reflexivity]. }
    assert (Ex : (B64.to_Q (S754_finite sa ma ea) / B64.to_Q (S754_finite sb mb eb)
                  == if xorb sa sb then - x else x)%Q).
    { cbn [B64.to_Q] in *. unfold x. rewrite !inject_cond_Zopp in *.
      destruct sa, sb; cbn [xorb]; rewrite pow2_sub; field;
        (split; [apply pow2_neq0 | apply inject_pos_neq0]). }
    rewrite Ex, Qabs_signed in Hlt by apply Qlt_le_weak, Px.
    (* the value as a comparison of products *)
    assert (Hx : (inject_Z (Zpos ma) * B64.pow2 (ea - eb)
                  < inject_Z (Zpos mb) * B64.pow2 E)%Q).
    { unfold x in Hlt.
      apply (Qmult_lt_r _ _ (inject_Z (Zpos mb))) in Hlt; [| reflexivity].
      setoid_replace (inject_Z (Zpos ma) / inject_Z (Zpos mb) * B64.pow2 (ea - eb)
                      * inject_Z (Zpos mb))%Q
        with (inject_Z (Zpos ma) * B64.pow2 (ea - eb))%Q in Hlt
        by (field; apply inject_pos_neq0).
      rewrite (Qmult_comm (inject_Z (Zpos mb))). exact Hlt. }
    set (d1 := Zdigits2 (Zpos ma)) in *. set (d2 := Zdigits2 (Zpos mb)) in *.
    assert (Hd : d1 + ea - (d2 + eb) <= E).
    { assert (L1 : (B64.pow2 (d1 - 1) <= inject_Z (Zpos ma))%Q).
      { assert (1 <= d1) by (unfold d1; cbn; lia).
        rewrite pow2_Z by lia. rewrite <- Zle_Qle. apply Zdigits2_lower. }
      assert (L2 : (inject_Z (Zpos mb) < B64.pow2 d2)%Q).
      { assert (1 <= d2) by (unfold d2; cbn; lia).
        rewrite pow2_Z by lia. rewrite <- Zlt_Qlt.
        unfold d2. cbn [Zdigits2]. rewrite digits2_pos_size, <- Pos2Z.inj_pow.
        apply Pos2Z.pos_lt_pos, Pos.size_gt. }
      assert (L : (B64.pow2 (d1 - 1 - d2 + (ea - eb)) < B64.pow2 E)%Q).
      { apply (Qmult_lt_r _ _ (B64.pow2 d2)); [apply pow2_pos |].
        rewrite <- pow2_add.
        replace (d1 - 1 - d2 + (ea - eb) + d2) with (d1 - 1 + (ea - eb)) by lia.
        rewrite pow2_add.
        eapply Qle_lt_trans;
          [apply Qmult_le_compat_r; [exact L1 | apply Qlt_le_weak, pow2_pos] |].
        eapply Qlt_trans; [exact Hx |].
        rewrite (Qmult_comm (B64.pow2 E)).
        apply Qmult_lt_compat_r; [apply pow2_pos | exact L2]. }
      apply pow2_lt_inv in L. lia. }
    destruct (SFdiv_core_binary_spec ma mb ea eb) as (q & l & Ecore & Hq & HN).
    fold d1 d2 in Ecore, HN.
    set (e' := Z.min (fexp B64.prec B64.emax (d1 + ea - (d2 + eb))) (ea - eb)) in *.
    set (N := Zpos ma * 2 ^ (ea - eb - e')) in *.
    rewrite Ecore.
    assert (He' : e' <= Z.max (E - 53) (-1074) /\ e' <= ea - eb).
    { unfold e'. rewrite fexp_eq. lia. }
    assert (Ps : 0 < 2 ^ (ea - eb - e')) by (apply Z.pow_pos_nonneg; lia).
    assert (EN : (inject_Z N * B64.pow2 e' == inject_Z (Zpos ma) * B64.pow2 (ea - eb))%Q).
    { unfold N. rewrite inject_Z_mult, <- pow2_Z by lia.
      rewrite <- Qmult_assoc, <- pow2_add.
      replace (ea - eb - e' + e') with (ea - eb) by lia. reflexivity. }
    assert (HNlt : N < Zpos mb * 2 ^ (E - e')).
    { rewrite <- EN in Hx.
      replace E with (E - e' + e') in Hx at 1 by lia.
      rewrite pow2_add, Qmult_assoc in Hx.
      apply Qmult_lt_r in Hx; [| apply pow2_pos].
      rewrite pow2_Z, <- inject_Z_mult, <- Zlt_Qlt in Hx by lia. exact Hx. }
    destruct (binary_round_aux_near_Q (xorb sa sb) q e' l N (Zpos mb) E)
      as (m & e & Hm0 & He & Er & Hnear); try lia.
    rewrite Er. eapply rounds_to_compat; [symmetry; exact Ex |].
    apply signed_rounds; [exact Hm0 | lia | exact Px |].
    setoid_replace x with (inject_Z N / inject_Z (Zpos mb) * B64.pow2 e')%Q; [exact Hnear |].
    unfold x.
    setoid_replace (inject_Z N / inject_Z (Z.pos mb) * B64.pow2 e')%Q
      with (inject_Z N * B64.pow2 e' / inject_Z (Z.pos mb))%Q
      by (field; apply inject_pos_neq0).
    rewrite EN. field. apply inject_pos_neq0.
Qed.

(** ** Truncation and rounding to six decimals *)

Lemma inject_Z_nonneg (z : Z) : 0 <= z -> (0 <= inject_Z z)%Q.
Proof. intros H. change 0%Q with (inject_Z 0). rewrite <- Zle_Qle. exact H. Qed.

(** A finite float that is not negative has sign bit 0 unless it is a
    zero. *)
Lemma nonneg_finite (s : bool) (m : positive) (e : Z) :
  (0 <= B64.to_Q (S754_finite s m e))%Q -> s = false.
Proof.
  destruct s; [| reflexivity]. cbn [B64.to_Q cond_Zopp]. intros H. exfalso.
  change (- Zpos m) with (Zneg m) in H.
  assert (P : (0 < inject_Z (Zpos m) * B64.pow2 e)%Q)
    by (apply Qmult_lt_0_compat; [reflexivity | apply pow2_pos]).
  change (Zneg m) with (- Zpos m) in H. rewrite inject_Z_opp in H.
  setoid_replace (- inject_Z (Zpos m) * B64.pow2 e)%Q
    with (- (inject_Z (Zpos m) * B64.pow2 e))%Q in H by ring.
  lra.
Qed.

(** Truncation of a float that is not negative: the integer just below. *)
Lemma trunc_bounds (p : spec_float) :
  B64.is_finite p = true -> (0 <= B64.to_Q p)%Q ->
  0 <= B64.trunc p
  /\ (inject_Z (B64.trunc p) <= B64.to_Q p < inject_Z (B64.trunc p) + 1)%Q.
Proof.
  intros F H. destruct p as [s | s | | s m e]; try discriminate F.
  - cbn. split; [lia | split; [discriminate | reflexivity]].
  - pose proof (nonneg_finite s m e H) as ->. cbn [B64.trunc B64.to_Q cond_Zopp].
    destruct (Z_le_gt_dec 0 e) as [He | He].
    + rewrite Z.shiftl_mul_pow2 by exact He.
      assert (P : 0 < 2 ^ e) by (apply Z.pow_pos_nonneg; lia).
      split; [nia |]. rewrite inject_Z_mult, <- pow2_Z by exact He. split; lra.
    + set (k := - e). assert (Hk : 0 <= k) by (unfold k; lia).
      assert (Es : Z.shiftl (Zpos m) e = Zpos m / 2 ^ k).
      { replace e with (- k) by (unfold k; lia).
        rewrite Z.shiftl_opp_r, Z.shiftr_div_pow2 by lia. reflexivity. }
      rewrite Es.
      pose proof (div_pow2_bounds (Zpos m) k Hk) as [B1 B2].
      assert (P : 0 < 2 ^ k) by (apply Z.pow_pos_nonneg; lia).
      set (t := Zpos m / 2 ^ k) in *.
      assert (Ht : 0 <= t) by (unfold t; apply Z.div_pos; lia).
      split; [exact Ht |].
      assert (Ek : (B64.pow2 e * inject_Z (2 ^ k) == 1)%Q).
      { rewrite <- pow2_Z, <- pow2_add by exact Hk.
        replace (e + k) with 0 by (unfold k; lia). reflexivity. }
      pose proof (pow2_pos e) as Pe.
      rewrite Zle_Qle in B1. rewrite Zlt_Qlt in B2.
      rewrite inject_Z_mult in B1. rewrite inject_Z_mult, inject_Z_plus in B2.
      change (inject_Z 1) with 1%Q in B2.
      apply (Qmult_le_compat_r _ _ (B64.pow2 e)) in B1; [| lra].
      apply (Qmult_lt_compat_r _ _ (B64.pow2 e)) in B2; [| exact Pe].
      setoid_replace (inject_Z t * inject_Z (2 ^ k) * B64.pow2 e)%Q
        with (inject_Z t * (B64.pow2 e * inject_Z (2 ^ k)))%Q in B1 by ring.
      setoid_replace ((inject_Z t + 1) * inject_Z (2 ^ k) * B64.pow2 e)%Q
        with ((inject_Z t + 1) * (B64.pow2 e * inject_Z (2 ^ k)))%Q in B2 by ring.
      rewrite Ek in B1, B2. split; lra.
Qed.

Lemma div_half_even_near (n d : Z) :
  0 < d -> - d <= 2 * (B64.div_half_even n d * d - n) <= d.
Proof.
  intros Hd. unfold B64.div_half_even.
  pose proof (Z.div_mod n d ltac:(lia)) as E.
  pose proof (Z.mod_pos_bound n d Hd) as M.
  generalize dependent (n mod d). generalize dependent (n / d).
  intros q r E M.
  assert (E1 : q * d = n - r) by lia.
  assert (E2 : (q + 1) * d = n - r + d) by lia.
  destruct (Z.compare_spec (2 * r) d) as [C | C | C].
  - destruct (Z.even q); rewrite ?E1, ?E2; lia.
  - rewrite E1. lia.
  - rewrite E2. lia.
Qed.

Lemma div_half_even_nonneg (n d : Z) :
  0 <= n -> 0 < d -> 0 <= B64.div_half_even n d.
Proof.
  intros Hn Hd. unfold B64.div_half_even.
  assert (0 <= n / d) by (apply Z.div_pos; lia).
  destruct (2 * (n mod d) ?= d); [destruct (Z.even (n / d)) | |]; lia.
Qed.

(** The nearest multiple of [10^-6] to a positive dyadic value. *)
Lemma round6_integer (m : positive) (e : Z) :
  let n := match e with
           | Zneg p => B64.div_half_even (Zpos m * 1000000) (Z.pow_pos 2 p)
           | _ => Z.shiftl (Zpos m * 1000000) e
           end in
  0 <= n
  /\ (- (1 # 2) <= inject_Z n - inject_Z (Zpos m) * B64.pow2 e * 1000000 <= 1 # 2)%Q.
Proof.
  cbv zeta. destruct (Z_le_gt_dec 0 e) as [He | He].
  - assert (En : match e with
                 | Zneg p => B64.div_half_even (Zpos m * 1000000) (Z.pow_pos 2 p)
                 | _ => Z.shiftl (Zpos m * 1000000) e
                 end = Zpos m * 1000000 * 2 ^ e).
    { destruct e as [| p | p]; [| | lia]; rewrite Z.shiftl_mul_pow2 by lia; reflexivity. }
    rewrite En. assert (P : 0 < 2 ^ e) by (apply Z.pow_pos_nonneg; lia).
    split; [nia |].
    rewrite !inject_Z_mult, <- pow2_Z by exact He.
    change (inject_Z 1000000) with 1000000%Q.
    set (Y := (inject_Z (Zpos m) * B64.pow2 e)%Q).
    setoid_replace (inject_Z (Zpos m) * 1000000 * B64.pow2 e)%Q with (Y * 1000000)%Q
      by (unfold Y; ring).
    split; lra.
  - destruct e as [| p | p]; try lia.
    change (Z.pow_pos 2 p) with (2 ^ Zpos p).
    set (D := 2 ^ Zpos p). assert (PD : 0 < D) by (apply Z.pow_pos_nonneg; lia).
    split; [apply div_half_even_nonneg; lia |].
    pose proof (div_half_even_near (Zpos m * 1000000) D PD) as [L U].
    set (n := B64.div_half_even (Zpos m * 1000000) D) in *.
    assert (Ek : (B64.pow2 (Zneg p) * inject_Z D == 1)%Q).
    { unfold D. rewrite <- pow2_Z, <- pow2_add by lia.
      replace (Zneg p + Zpos p) with 0 by lia. reflexivity. }
    pose proof (pow2_pos (Zneg p)) as Pe.
    rewrite Zle_Qle in L, U.
    rewrite inject_Z_opp in L.
    rewrite inject_Z_mult in L, U. unfold Zminus in L, U.
    rewrite inject_Z_plus, inject_Z_opp, !inject_Z_mult in L, U.
    change (inject_Z 2) with 2%Q in L, U.
    change (inject_Z 1000000) with 1000000%Q in L, U.
    set (nq := inject_Z n) in *. set (Dq := inject_Z D) in *.
    set (mq := inject_Z (Zpos m)) in *. set (pe := B64.pow2 (Zneg p)) in *.
    assert (PDq : (0 < Dq)%Q)
      by (unfold Dq; change 0%Q with (inject_Z 0); rewrite <- Zlt_Qlt; exact PD).
    (* multiply the two bounds by [pe / 2] *)
    apply (Qmult_le_compat_r _ _ (pe * (1 # 2))) in L; [| lra].
    apply (Qmult_le_compat_r _ _ (pe * (1 # 2))) in U; [| lra].
    setoid_replace (2 * (nq * Dq + - (mq * 1000000)) * (pe * (1 # 2)))%Q
      with (nq * (pe * Dq) - mq * pe * 1000000 * 1)%Q in L by ring.
    setoid_replace (2 * (nq * Dq + - (mq * 1000000)) * (pe * (1 # 2)))%Q
      with (nq * (pe * Dq) - mq * pe * 1000000 * 1)%Q in U by ring.
    setoid_replace (- Dq * (pe * (1 # 2)))%Q with (- (1 # 2) * (pe * Dq))%Q in L by ring.
    setoid_replace (Dq * (pe * (1 # 2)))%Q with ((1 # 2) * (pe * Dq))%Q in U by ring.
    rewrite Ek in L, U. split; lra.
Qed.

(** Rounding to six decimals moves a value of magnitude at most 15 by at
    most half of [10^-6], up to the rounding of the division. *)
Lemma round6_near (f : spec_float) :
  B64.is_finite f = true -> (Qabs (B64.to_Q f) <= 15)%Q ->
  B64.is_finite (py_round6 f) = true
  /\ (Qabs (B64.to_Q (py_round6 f) - B64.to_Q f) <= (1 # 2000000) + B64.pow2 (-48))%Q.
Proof.
  intros F H15.
  pose proof (pow2_pos (-48)) as P48.
  destruct f as [s | s | | s m e]; try discriminate F.
  - cbn. split; [reflexivity |]. cbn in P48. lra.
  - unfold py_round6.
    destruct (round6_integer m e) as [Hn Hnear]. cbv zeta in Hn, Hnear.
    set (n := match e with
              | Zneg p => B64.div_half_even (Zpos m * 1000000) (Z.pow_pos 2 p)
              | _ => Z.shiftl (Zpos m * 1000000) e
              end) in *.
    set (Y := (inject_Z (Zpos m) * B64.pow2 e)%Q) in *.
    assert (PY : (0 < Y)%Q) by (apply Qmult_lt_0_compat; [reflexivity | apply pow2_pos]).
    assert (Ef : (B64.to_Q (S754_finite s m e) == if s then - Y else Y)%Q).
    { cbn [B64.to_Q]. rewrite inject_cond_Zopp. unfold Y. destruct s; ring. }
    rewrite Ef in H15 |- *. rewrite Qabs_signed in H15 by lra.
    destruct n as [| q | q] eqn:En; [| | lia].
    + split; [reflexivity |]. cbn [B64.to_Q].
      change (inject_Z 0) with 0%Q in Hnear.
      apply Qabs_Qle_condition. destruct s; split; lra.
    + set (a := S754_finite s q 0).
      assert (Ea : (B64.to_Q a / B64.to_Q (S754_finite false 1000000 0)
                    == (if s then - inject_Z (Zpos q) else inject_Z (Zpos q)) / 1000000)%Q).
      { unfold a. cbn [B64.to_Q]. rewrite inject_cond_Zopp.
        change (B64.pow2 0) with 1%Q.
        change (inject_Z (cond_Zopp false 1000000)) with 1000000%Q.
        destruct s; field. }
      destruct (div_rounds a false 1000000 0 4 eq_refl) as (Fr & _ & _ & Near).
      { rewrite Ea. change (B64.pow2 4) with 16%Q.
        apply Qabs_Qlt_condition. destruct s; split.
        - apply Qlt_shift_div_l; [reflexivity | lra].
        - apply Qlt_shift_div_r; [reflexivity | lra].
        - apply Qlt_shift_div_l; [reflexivity | lra].
        - apply Qlt_shift_div_r; [reflexivity | lra]. }
      { lia. }
      split; [exact Fr |].
      change (Z.max (4 - 52) (-1074)) with (-48) in Near.
      rewrite Ea in Near.
      apply Qabs_Qle_condition in Near. destruct Near as [N1 N2].
      apply Qabs_Qle_condition.
      set (R := B64.to_Q (B64.div a (S754_finite false 1000000 0))) in *.
      set (nq := inject_Z (Zpos q)) in *.
      assert (Eq6 : forall z : Q, (z / 1000000 == z * (1 # 1000000))%Q) by (intros; field).
      rewrite Eq6 in N1, N2.
      destruct s; split; lra.
Qed.

(** ** Hexadecimal text of a code *)

Lemma digit_cases (d : Z) :
  0 <= d < 16 ->
  d = 0 \/ d = 1 \/ d = 2 \/ d = 3 \/ d = 4 \/ d = 5 \/ d = 6 \/ d = 7 \/ d = 8
  \/ d = 9 \/ d = 10 \/ d = 11 \/ d = 12 \/ d = 13 \/ d = 14 \/ d = 15.
Proof. lia. Qed.

Lemma upper_hex_digit_ok (d : Z) :
  0 <= d < 16 ->
  PyStr.hex_digit_value (PyStr.upper_hex_digit d) = Some d
  /\ plain (PyStr.upper_hex_digit d) = true.
Proof.
  intros H. destruct (digit_cases d H) as
    [-> | [-> | [-> | [-> | [-> | [-> | [-> | [-> | [-> | [-> | [-> | [-> | [-> | [-> | [-> | ->]]]]]]]]]]]]]]];
    split; reflexivity.
Qed.

Lemma lower_hex_digit_ok (d : Z) :
  0 <= d < 16 ->
  PyStr.hex_digit_value (lower_hex_digit d) = Some d
  /\ plain (lower_hex_digit d) = true.
Proof.
  intros H. destruct (digit_cases d H) as
    [-> | [-> | [-> | [-> | [-> | [-> | [-> | [-> | [-> | [-> | [-> | [-> | [-> | [-> | [-> | ->]]]]]]]]]]]]]]];
    split; reflexivity.
Qed.

Section Digits.

Variable digit : Z -> ascii.

Hypothesis digit_ok :
  forall d, 0 <= d < 16 ->
    PyStr.hex_digit_value (digit d) = Some d /\ plain (digit d) = true.

Lemma digits_onto_plain (fuel : nat) (n : Z) (rest : string) :
  0 <= n -> all_chars plain rest = true ->
  all_chars plain (PyStr.digits_onto digit 16 fuel n rest) = true.
Proof.
  revert n rest. induction fuel as [| fuel IH]; intros n rest Hn Hrest; cbn.
  - exact Hrest.
  - destruct (Z.ltb_spec n 16) as [L | L].
    + cbn. rewrite (proj2 (digit_ok n ltac:(lia))). exact Hrest.
    + apply IH; [apply Z.div_pos; lia |].
      cbn. rewrite (proj2 (digit_ok (n mod 16) ltac:(apply Z.mod_pos_bound; lia))).
      exact Hrest.
Qed.

Lemma digits_onto_nonempty (fuel : nat) (n : Z) (rest : string) :
  rest <> EmptyString \/ fuel <> O ->
  PyStr.digits_onto digit 16 fuel n rest <> EmptyString.
Proof.
  revert n rest. induction fuel as [| fuel IH]; intros n rest H; cbn.
  - destruct H as [H | H]; [exact H | congruence].
  - destruct (n <? 16); [discriminate |]. apply IH. left. discriminate.
Qed.

Lemma scan_digit (d : Z) (r : string) (acc : Z) (us seen : bool) :
  0 <= d < 16 ->
  PyStr.scan_hex (String (digit d) r) acc us seen
  = PyStr.scan_hex r (16 * acc + d) false true.
Proof.
  intros H. destruct (digit_ok d H) as [V P]. cbn. rewrite V.
  unfold plain in P. repeat (apply andb_prop in P as [P ?]).
  destruct (Ascii.eqb (digit d) "_"); [discriminate | reflexivity].
Qed.

Lemma digits_onto_S (fuel : nat) (n : Z) (rest : string) :
  PyStr.digits_onto digit 16 (S fuel) n rest
  = if n <? 16 then String (digit n) rest
    else PyStr.digits_onto digit 16 fuel (n / 16) (String (digit (n mod 16)) rest).
Proof. reflexivity. Qed.

(** Reading back the digits of [n]: the value read so far is shifted by
    the digits and [n] is added. *)
Lemma scan_digits_onto (fuel : nat) (n : Z) :
  0 <= n < 16 ^ Z.of_nat (S fuel) ->
  exists k, 0 <= k /\ forall rest acc us seen,
    PyStr.scan_hex (PyStr.digits_onto digit 16 (S fuel) n rest) acc us seen
    = PyStr.scan_hex rest (acc * 16 ^ k + n) false true.
Proof.
  revert n. induction fuel as [| fuel IH]; intros n Hn.
  - exists 1. split; [lia |]. intros rest acc us seen.
    change (16 ^ Z.of_nat 1) with 16 in Hn.
    rewrite digits_onto_S. replace (n <? 16) with true by (symmetry; apply Z.ltb_lt; lia).
    rewrite scan_digit by lia. f_equal. lia.
  - destruct (Z.ltb_spec n 16) as [L | L].
    + exists 1. split; [lia |]. intros rest acc us seen.
      rewrite digits_onto_S. replace (n <? 16) with true by (symmetry; apply Z.ltb_lt; lia).
      rewrite scan_digit by lia. f_equal. lia.
    + assert (Hq : 0 <= n / 16 < 16 ^ Z.of_nat (S fuel)).
      { split; [apply Z.div_pos; lia |].
        apply Z.div_lt_upper_bound; [lia |].
        rewrite Nat2Z.inj_succ, Z.pow_succ_r in Hn by lia. lia. }
      destruct (IH (n / 16) Hq) as (k & Hk & Hscan).
      exists (k + 1). split; [lia |]. intros rest acc us seen.
      rewrite digits_onto_S. replace (n <? 16) with false by (symmetry; apply Z.ltb_ge; lia).
      rewrite Hscan.
      rewrite scan_digit by (apply Z.mod_pos_bound; lia).
      f_equal. rewrite Z.pow_add_r by lia. change (16 ^ 1) with 16.
      pose proof (Z.div_mod n 16 ltac:(lia)). lia.
Qed.

Lemma log2_fuel (n : Z) : 0 <= n -> n < 16 ^ Z.of_nat (S (Z.to_nat (Z.log2 n))).
Proof.
  intros H. destruct (Z.eq_dec n 0) as [-> | N]; [reflexivity |].
  pose proof (Z.log2_nonneg n) as L.
  pose proof (Z.log2_spec n ltac:(lia)) as [_ U].
  rewrite Nat2Z.inj_succ, Z2Nat.id by exact L.
  eapply Z.lt_le_trans; [exact U |].
  apply Z.pow_le_mono_l. lia.
Qed.

(** The digits of [n] are plain characters, at least one, and they read
    back as [n]. *)
Lemma unsigned_digits_spec (n : Z) :
  0 <= n ->
  let s := PyStr.unsigned_digits digit 16 n in
  all_chars plain s = true
  /\ s <> EmptyString
  /\ PyStr.scan_hex s 0 false false = Some n.
Proof.
  intros Hn. cbv zeta. unfold PyStr.unsigned_digits.
  split; [apply digits_onto_plain; [exact Hn | reflexivity] |].
  split; [apply digits_onto_nonempty; right; discriminate |].
  destruct (scan_digits_onto (Z.to_nat (Z.log2 n)) n) as (k & Hk & Hscan).
  { split; [exact Hn | apply log2_fuel, Hn]. }
  rewrite Hscan. reflexivity.
Qed.

End Digits.

Lemma all_chars_rev_onto (P : ascii -> bool) (s acc : string) :
  all_chars P (PyStr.rev_onto s acc) = all_chars P s && all_chars P acc.
Proof.
  revert acc. induction s as [| c s IH]; intros acc; cbn; [reflexivity |].
  rewrite IH. cbn. rewrite !andb_assoc. f_equal. apply andb_comm.
Qed.

Lemma all_chars_weaken (P Q : ascii -> bool) (s : string) :
  (forall c, P c = true -> Q c = true) ->
  all_chars P s = true -> all_chars Q s = true.
Proof.
  intros H. induction s as [| c s IH]; cbn; [reflexivity |].
  intros E. apply andb_prop in E as [E1 E2]. rewrite (H c E1), (IH E2). reflexivity.
Qed.

Lemma lstrip_by_id (sp : ascii -> bool) (s : string) :
  all_chars (fun c => negb (sp c)) s = true -> PyStr.lstrip_by sp s = s.
Proof.
  destruct s as [| c r]; cbn; [reflexivity |]. intros H.
  apply andb_prop in H as [H _]. destruct (sp c); [discriminate | reflexivity].
Qed.

Lemma rev_rev (s : string) : PyStr.rev (PyStr.rev s) = s.
Proof.
  unfold PyStr.rev. rewrite rev_onto_rev_onto. cbn. apply string_app_nil_r.
Qed.

(** Stripping leaves a string without white space as it is. *)
Lemma strip_by_id (sp : ascii -> bool) (s : string) :
  all_chars (fun c => negb (sp c)) s = true -> PyStr.strip_by sp s = s.
Proof.
  intros H. unfold PyStr.strip_by. rewrite (lstrip_by_id sp s H).
  rewrite lstrip_by_id; [apply rev_rev |].
  unfold PyStr.rev. rewrite all_chars_rev_onto, H. reflexivity.
Qed.

Lemma nospace_is_space (c : ascii) : nospace c = true -> negb (PyStr.is_space c) = true.
Proof. unfold nospace. intros H. apply andb_prop in H as [H _]. exact H. Qed.

Lemma nospace_is_space_int (c : ascii) :
  nospace c = true -> negb (PyStr.is_space_int c) = true.
Proof. unfold nospace. intros H. apply andb_prop in H as [_ H]. exact H. Qed.

Lemma plain_nospace (c : ascii) : plain c = true -> nospace c = true.
Proof. unfold plain. intros H. do 5 (apply andb_prop in H as [H _]). exact H. Qed.

(** [int(s.strip(), 16)] on a string without white space. *)
Lemma int16_strip_nospace (s : string) :
  all_chars nospace s = true ->
  PyStr.int16 (PyStr.strip s)
  = let '(neg, body) := PyStr.split_sign s in
    match PyStr.parse_hex_body body with
    | Some v => Ret (if neg then - v else v)
    | None => Raise ValueError
    end.
Proof.
  intros H. unfold PyStr.int16, PyStr.strip.
  rewrite (strip_by_id PyStr.is_space s)
    by (exact (all_chars_weaken _ _ s nospace_is_space H)).
  rewrite (strip_by_id PyStr.is_space_int s)
    by (exact (all_chars_weaken _ _ s nospace_is_space_int H)).
  reflexivity.
Qed.

Lemma plain_facts (c : ascii) :
  plain c = true ->
  Ascii.eqb c "+" = false /\ Ascii.eqb c "-" = false /\ Ascii.eqb c "_" = false
  /\ Ascii.eqb c "x" = false /\ Ascii.eqb c "X" = false.
Proof.
  unfold plain. intros H.
  repeat (apply andb_prop in H as [H ?]).
  repeat split; apply negb_true_iff; assumption.
Qed.

(** A string of plain characters that reads as [n] is accepted by
    [int(., 16)] after stripping, with value [n]. *)
Lemma int16_plain (s : string) (n : Z) :
  all_chars plain s = true -> s <> EmptyString ->
  PyStr.scan_hex s 0 false false = Some n ->
  PyStr.int16 (PyStr.strip s) = Ret n.
Proof.
  intros Hp Hne Hscan.
  rewrite int16_strip_nospace by (exact (all_chars_weaken _ _ s plain_nospace Hp)).
  destruct s as [| c r]; [congruence |].
  cbn [all_chars] in Hp. apply andb_prop in Hp as [Hc Hr].
  destruct (plain_facts c Hc) as (E1 & E2 & E3 & E4 & E5).
  unfold PyStr.split_sign. rewrite E1, E2.
  assert (Eskip : PyStr.skip_prefix (String c r) = String c r).
  { unfold PyStr.skip_prefix. destruct r as [| x r']; [reflexivity |].
    cbn [all_chars] in Hr. apply andb_prop in Hr as [Hx _].
    destruct (plain_facts x Hx) as (_ & _ & _ & X4 & X5).
    rewrite X4, X5, andb_false_r. reflexivity. }
  unfold PyStr.parse_hex_body. rewrite Eskip. cbv zeta. rewrite E3, Hscan. reflexivity.
Qed.

(** The text the driver writes for a code reads back as the code. *)
Lemma int16_format_X (n : Z) :
  0 <= n -> PyStr.int16 (PyStr.strip (PyStr.format_X n)) = Ret n.
Proof.
  intros Hn. unfold PyStr.format_X, PyStr.signed_digits.
  replace (n <? 0) with false by (symmetry; apply Z.ltb_ge; lia).
  destruct (unsigned_digits_spec PyStr.upper_hex_digit upper_hex_digit_ok n Hn)
    as (Hp & Hne & Hscan).
  apply int16_plain; assumption.
Qed.

(** So does the text [hex] gives. *)
Lemma int16_py_hex (n : Z) :
  0 <= n -> PyStr.int16 (PyStr.strip (py_hex n)) = Ret n.
Proof.
  intros Hn. unfold py_hex.
  replace (n <? 0) with false by (symmetry; apply Z.ltb_ge; lia).
  destruct (unsigned_digits_spec lower_hex_digit lower_hex_digit_ok n Hn)
    as (Hp & Hne & Hscan).
  set (s := PyStr.unsigned_digits lower_hex_digit 16 n) in *.
  rewrite int16_strip_nospace.
  - change ("0x" ++ s)%string with (String "0" (String "x" s)).
    unfold PyStr.split_sign.
    change (Ascii.eqb "0" "+") with false. change (Ascii.eqb "0" "-") with false.
    cbv iota. unfold PyStr.parse_hex_body, PyStr.skip_prefix.
    change (Ascii.eqb "0" "0" && (Ascii.eqb "x" "x" || Ascii.eqb "x" "X")) with true.
    cbv iota.
    destruct s as [| c r]; [congruence |].
    cbn [all_chars] in Hp. apply andb_prop in Hp as [Hc Hr].
    destruct (plain_facts c Hc) as (_ & _ & E3 & _ & _).
    rewrite E3. cbv zeta. rewrite E3, Hscan. reflexivity.
  - change ("0x" ++ s)%string with (String "0" (String "x" s)).
    cbn [all_chars]. rewrite (all_chars_weaken _ _ s plain_nospace Hp). reflexivity.
Qed.

(** ** Round trip through the codec *)

Lemma exponent_of_bounded (v : spec_float) (E : Z) :
  (Qabs (B64.to_Q v) < B64.pow2 E)%Q -> exponent_le v E.
Proof.
  destruct v as [s | s | | s m e]; cbn [exponent_le]; try (intros; exact I).
  intros H. cbn [B64.to_Q] in H. rewrite inject_cond_Zopp in H.
  assert (P : (0 <= inject_Z (Zpos m) * B64.pow2 e)%Q)
    by (apply Qmult_le_0_compat; [discriminate | apply Qlt_le_weak, pow2_pos]).
  assert (H' : (inject_Z (Zpos m) * B64.pow2 e < B64.pow2 E)%Q).
  { destruct s.
    - setoid_replace (- inject_Z (Zpos m) * B64.pow2 e)%Q
        with (- (inject_Z (Zpos m) * B64.pow2 e))%Q in H by ring.
      rewrite Qabs_opp, Qabs_pos in H by exact P. exact H.
    - rewrite Qabs_pos in H by exact P. exact H. }
  destruct (pow2_bound_Z (Zpos m) e E ltac:(lia) H') as [L _]. exact L.
Qed.

Lemma ten_eq : SP1060Reader.ten = S754_finite false 5629499534213120 (-49).
Proof. reflexivity. Qed.

Lemma scale_eq : SP1060Reader.scale = S754_finite false 7205758974296064 (-33).
Proof. reflexivity. Qed.

Lemma ten_value : (B64.to_Q SP1060Reader.ten == 10)%Q.
Proof. reflexivity. Qed.

Lemma scale_value : (B64.to_Q SP1060Reader.scale == 3355443 # 4)%Q.
Proof. reflexivity. Qed.

(** What the encoder computes on a voltage of the span: a code between 0
    and [2^24 - 1], just below the scaled voltage. *)
Lemma encode_in_span (v : spec_float) :
  B64.is_finite v = true -> (-10 <= B64.to_Q v <= 10)%Q ->
  exists code,
    SP1060Reader._vval_to_dacval (PyFloat v) = Ret (Some code)
    /\ 0 <= code < 2 ^ 24
    /\ (- (1 # 10000000) <= (B64.to_Q v + 10) * (3355443 # 4) - inject_Z code
        < 1 + (1 # 10000000))%Q.
Proof.
  intros Fv [Hlo Hhi].
  set (V := B64.to_Q v) in *.
  (* the sum *)
  assert (Xv : exponent_le v 4).
  { apply exponent_of_bounded. fold V. change (B64.pow2 4) with 16%Q.
    apply Qabs_Qlt_condition. split; lra. }
  assert (Xt : exponent_le SP1060Reader.ten 4) by (rewrite ten_eq; cbn; lia).
  destruct (add_rounds v SP1060Reader.ten 5 4 Fv eq_refl Xv Xt) as (Fs & Xs & [Ss _] & As).
  { rewrite ten_value. fold V. change (B64.pow2 5) with 32%Q.
    apply Qabs_Qlt_condition. split; lra. }
  { lia. }
  change (Z.max 4 (Z.max (5 - 52) (-1074))) with 4 in Xs.
  change (Z.max (5 - 52) (-1074)) with (-47) in As.
  set (s := B64.add v SP1060Reader.ten) in *. set (Sx := B64.to_Q s) in *.
  rewrite ten_value in Ss, As. fold V in Ss, As.
  assert (E47 : (B64.pow2 (-47) == 1 # 140737488355328)%Q) by reflexivity.
  rewrite E47 in As. apply Qabs_Qle_condition in As. destruct As as [As1 As2].
  specialize (Ss ltac:(lra)).
  (* the product *)
  assert (Xc : exponent_le SP1060Reader.scale (-33)) by (rewrite scale_eq; cbn; lia).
  destruct (mul_rounds s SP1060Reader.scale 25 4 (-33) Fs eq_refl Xs Xc)
    as (Fp & _ & [Sp _] & Ap).
  { rewrite scale_value. fold Sx. change (B64.pow2 25) with 33554432%Q.
    apply Qabs_Qlt_condition. split; lra. }
  { lia. }
  { vm_compute. discriminate. }
  change (Z.max (Z.max (4 + -33) (25 - 52)) (-1074)) with (-27) in Ap.
  set (p := B64.mul s SP1060Reader.scale) in *. set (Px := B64.to_Q p) in *.
  rewrite scale_value in Sp, Ap. fold Sx in Sp, Ap.
  assert (E27 : (B64.pow2 (-27) == 1 # 134217728)%Q) by reflexivity.
  rewrite E27 in Ap. apply Qabs_Qle_condition in Ap. destruct Ap as [Ap1 Ap2].
  specialize (Sp ltac:(lra)).
  (* the truncation *)
  destruct (trunc_bounds p Fp Sp) as (Hc0 & Hc1 & Hc2). fold Px in Hc1, Hc2.
  exists (B64.trunc p).
  split; [| split].
  - unfold SP1060Reader._vval_to_dacval. cbn [py_float py_bind]. fold s p.
    destruct p; try discriminate Fp; reflexivity.
  - split; [exact Hc0 |].
    rewrite Zlt_Qlt. change (inject_Z (2 ^ 24)) with 16777216%Q. lra.
  - split; lra.
Qed.

(** What the decoder computes on a text that reads as a code of 24 bits:
    a finite number within half of [10^-6], up to rounding, of the voltage
    of the code. *)
Lemma decode_code (text : string) (code : Z) :
  PyStr.int16 (PyStr.strip text) = Ret code ->
  0 <= code < 2 ^ 24 ->
  exists r,
    SP1060Reader._dacval_to_vval text = Ret (Some r)
    /\ B64.is_finite r = true
    /\ (Qabs (B64.to_Q r - (inject_Z code * (4 # 3355443) - 10))
        <= (1 # 2000000) + (1 # 10000000000000))%Q.
Proof.
  intros Eparse [Hc0 Hc1].
  set (C := inject_Z code).
  assert (HC : (0 <= C <= 16777215)%Q).
  { unfold C. split; [apply inject_Z_nonneg, Hc0 |].
    change 16777215%Q with (inject_Z 16777215). rewrite <- Zle_Qle.
    change (2 ^ 24) with 16777216 in Hc1. lia. }
  (* the code as a float *)
  destruct (binary_normalize_rounds code 0 24) as (Fn & Xn & [Sn _] & An).
  { change (B64.pow2 0) with 1%Q. rewrite Qmult_1_r. fold C.
    change (B64.pow2 24) with 16777216%Q. apply Qabs_Qlt_condition. split; lra. }
  { lia. }
  change (binary_normalize B64.prec B64.emax code 0 false) with (B64.of_Z code) in *.
  set (num := B64.of_Z code) in *. set (Nm := B64.to_Q num) in *.
  change (Z.max (24 - 52) (-1074)) with (-28) in An.
  change (B64.pow2 0) with 1%Q in Sn, An. rewrite Qmult_1_r in Sn, An. fold C in Sn, An.
  assert (E28 : (B64.pow2 (-28) == 1 # 268435456)%Q) by reflexivity.
  rewrite E28 in An. apply Qabs_Qle_condition in An. destruct An as [An1 An2].
  specialize (Sn ltac:(lra)).
  (* the quotient *)
  assert (Esc : (B64.to_Q (S754_finite false 7205758974296064 (-33)) == 3355443 # 4)%Q)
    by reflexivity.
  assert (Ediv : forall z : Q, (z / (3355443 # 4) == z * (4 # 3355443))%Q)
    by (intros; field).
  destruct (div_rounds num false 7205758974296064 (-33) 5 Fn) as (Fq & Xq & _ & Aq).
  { rewrite Esc, Ediv. fold Nm. change (B64.pow2 5) with 32%Q.
    apply Qabs_Qlt_condition. split; lra. }
  { lia. }
  rewrite <- scale_eq in Fq, Xq, Aq.
  set (q := B64.div num SP1060Reader.scale) in *. set (Qx := B64.to_Q q) in *.
  change (Z.max (5 - 52) (-1074)) with (-47) in Xq, Aq.
  rewrite scale_value, Ediv in Aq. fold Nm in Aq.
  assert (E47 : (B64.pow2 (-47) == 1 # 140737488355328)%Q) by reflexivity.
  rewrite E47 in Aq. apply Qabs_Qle_condition in Aq. destruct Aq as [Aq1 Aq2].
  (* the difference *)
  assert (Xt : exponent_le SP1060Reader.ten (-47)) by (rewrite ten_eq; cbn; lia).
  destruct (sub_rounds q SP1060Reader.ten 5 (-47) Fq eq_refl Xq Xt) as (Fu & _ & _ & Au).
  { rewrite ten_value. fold Qx. change (B64.pow2 5) with 32%Q.
    apply Qabs_Qlt_condition. split; lra. }
  { lia. }
  set (u := B64.sub q SP1060Reader.ten) in *. set (U := B64.to_Q u) in *.
  change (Z.max (5 - 52) (-1074)) with (-47) in Au.
  rewrite ten_value in Au. fold Qx in Au.
  rewrite E47 in Au. apply Qabs_Qle_condition in Au. destruct Au as [Au1 Au2].
  (* the rounding to six decimals *)
  destruct (round6_near u Fu) as (Fr & Ar).
  { fold U. apply Qabs_Qle_condition. split; lra. }
  fold U in Ar.
  assert (E48 : (B64.pow2 (-48) == 1 # 281474976710656)%Q) by reflexivity.
  rewrite E48 in Ar. apply Qabs_Qle_condition in Ar. destruct Ar as [Ar1 Ar2].
  exists (py_round6 u). split; [| split; [exact Fr |]].
  - unfold SP1060Reader._dacval_to_vval. rewrite Eparse. cbn [py_bind py_float].
    fold num. destruct num; try discriminate Fn; reflexivity.
  - apply Qabs_Qle_condition. set (R := B64.to_Q (py_round6 u)) in *. split; lra.
Qed.

(** C1, with the tolerance the code keeps: for every voltage of the span
    [-10, 10] the round trip through the codec returns a finite number
    within 1.7e-6 of the voltage. *)
Theorem roundtrip_within_tolerance (v : spec_float) :
  B64.is_finite v = true ->
  (-10 <= B64.to_Q v <= 10)%Q ->
  roundtrip_within (17 # 10000000) v.
Proof.
  intros Fv Hv.
  destruct (encode_in_span v Fv Hv) as (code & Eenc & Hcode & Hc1 & Hc2).
  destruct (decode_code (PyStr.format_X code) code) as (r & Edec & Fr & Ar);
    [apply int16_format_X; lia | exact Hcode |].
  destruct (decode_code (py_hex code) code) as (r' & Edec' & _ & _);
    [apply int16_py_hex; lia | exact Hcode |].
  assert (Err' : r' = r).
  { unfold SP1060Reader._dacval_to_vval in Edec, Edec'.
    rewrite int16_format_X in Edec by lia. rewrite int16_py_hex in Edec' by lia.
    congruence. }
  subst r'.
  exists code, r. repeat (split; [assumption |]).
  apply Qabs_Qle_condition in Ar. destruct Ar as [Ar1 Ar2].
  apply Qabs_Qle_condition.
  set (V := B64.to_Q v) in *. set (R := B64.to_Q r) in *. set (C := inject_Z code) in *.
  split; lra.
Qed.

Lemma roundtrip_within_tolerance_witness :
  roundtrip_within (17 # 10000000) (B64.of_ratio (-999999762) 100000000).
Proof.
  apply (roundtrip_within_tolerance (B64.of_ratio (-999999762) 100000000)).
  - reflexivity.
  - split; vm_compute; discriminate.
Defined.

(** C1, as the claim has it, fails: the double nearest to -9.99999762 V is
    in the span, its code is 1, and code 1 decodes to -9.999999 V, which is
    1.38e-6 away: more than 1e-6, and more than one part in 838860.75. *)
Lemma roundtrip_exceeds_1e_6 :
  let v := B64.of_ratio (-999999762) 100000000 in
  B64.is_finite v = true
  /\ (-10 <= B64.to_Q v <= 10)%Q
  /\ SP1060Reader._vval_to_dacval (PyFloat v) = Ret (Some 1)
  /\ SP1060Reader._dacval_to_vval (PyStr.format_X 1)
     = Ret (Some (B64.of_ratio (-9999999) 1000000))
  /\ ~ roundtrip_within (1 # 1000000) v
  /\ ~ roundtrip_within (4 # 3355443) v.
Proof.
  cbv zeta. split; [reflexivity |]. split; [split; vm_compute; discriminate |].
  split; [vm_compute; reflexivity |]. split; [vm_compute; reflexivity |].
  split; intros (code & r & Eenc & Edec & _ & _ & Hr).
  - assert (Ec : code = 1) by (vm_compute in Eenc; congruence).
    subst code.
    assert (Er : r = B64.of_ratio (-9999999) 1000000)
      by (vm_compute in Edec |- *; congruence).
    subst r. vm_compute in Hr. apply Hr. reflexivity.
  - assert (Ec : code = 1) by (vm_compute in Eenc; congruence).
    subst code.
    assert (Er : r = B64.of_ratio (-9999999) 1000000)
      by (vm_compute in Edec |- *; congruence).
    subst r. vm_compute in Hr. apply Hr. reflexivity.
Qed.

(** ** Shape of the traffic of the driver's calls *)

Local Open Scope string_scope.

(** X1: whatever its arguments and whatever the instrument replies,
    [set_newWaveform] returns, and what it does on the handle is thirteen
    complete exchanges with a pause of 0.01 s between two of them: the
    first command is always [C WAV-B CLR], and the commands of the bank
    carry the letter of the selector. *)
Theorem set_newWaveform_trace (instr : instrument)
    (channel waveform frequency amplitude wavemem : string) (tr : list event) :
  exists tr',
    set_newWaveform instr channel waveform frequency amplitude wavemem tr
    = (Ret tt, tr')
    /\ skeleton tr'
       = List.app (skeleton tr)
           (paced (1 # 100)
              ["C WAV-B CLR"; "C SWG MODE 0"; "C SWG WF " ++ waveform;
               "C SWG DF " ++ frequency; "C SWG AMP " ++ amplitude;
               "C SWG WMEM " ++ wavemem; "C SWG WFUN 0"; "C SWG LIN " ++ channel;
               "C AWG-" ++ memsave wavemem ++ " CH " ++ channel; "C SWG APPLY";
               "C WAV-" ++ memsave wavemem ++ " SAVE";
               "C WAV-" ++ memsave wavemem ++ " WRITE";
               "C AWG-" ++ memsave wavemem ++ " START"]).
Proof.
  assert (P : performs
                (set_newWaveform instr channel waveform frequency amplitude wavemem)
                (paced (1 # 100)
                   ["C WAV-B CLR"; "C SWG MODE 0"; "C SWG WF " ++ waveform;
                    "C SWG DF " ++ frequency; "C SWG AMP " ++ amplitude;
                    "C SWG WMEM " ++ wavemem; "C SWG WFUN 0"; "C SWG LIN " ++ channel;
                    "C AWG-" ++ memsave wavemem ++ " CH " ++ channel; "C SWG APPLY";
                    "C WAV-" ++ memsave wavemem ++ " SAVE";
                    "C WAV-" ++ memsave wavemem ++ " WRITE";
                    "C AWG-" ++ memsave wavemem ++ " START"])).
  { unfold set_newWaveform. cbv zeta. fold (memsave wavemem).
    generalize (memsave wavemem). intros letter. performs_auto. }
  destruct (P tr) as ([] & tr' & E & S). exists tr'. split; assumption.
Qed.

(** X2: a bank selector other than 0, 1, 2 and 3 is not rejected: the
    thirteen commands are written all the same, those of the bank with no
    letter. *)
Theorem set_newWaveform_unknown_bank (instr : instrument)
    (channel waveform frequency amplitude wavemem : string) (tr : list event) :
  wavemem <> "0" -> wavemem <> "1" -> wavemem <> "2" -> wavemem <> "3" ->
  exists tr',
    set_newWaveform instr channel waveform frequency amplitude wavemem tr
    = (Ret tt, tr')
    /\ writes tr'
       = List.app (writes tr)
           ["C WAV-B CLR"; "C SWG MODE 0"; "C SWG WF " ++ waveform;
            "C SWG DF " ++ frequency; "C SWG AMP " ++ amplitude;
            "C SWG WMEM " ++ wavemem; "C SWG WFUN 0"; "C SWG LIN " ++ channel;
            "C AWG- CH " ++ channel; "C SWG APPLY"; "C WAV- SAVE";
            "C WAV- WRITE"; "C AWG- START"].
Proof.
  intros H0 H1 H2 H3.
  apply String.eqb_neq in H0, H1, H2, H3.
  assert (R : runs
                (set_newWaveform instr channel waveform frequency amplitude wavemem)
                ["C WAV-B CLR"; "C SWG MODE 0"; "C SWG WF " ++ waveform;
                 "C SWG DF " ++ frequency; "C SWG AMP " ++ amplitude;
                 "C SWG WMEM " ++ wavemem; "C SWG WFUN 0"; "C SWG LIN " ++ channel;
                 "C AWG- CH " ++ channel; "C SWG APPLY"; "C WAV- SAVE";
                 "C WAV- WRITE"; "C AWG- START"]).
  { unfold set_newWaveform. rewrite H0, H1, H2, H3. cbv zeta. runs_auto. }
  destruct (R tr) as ([] & tr' & E & W). exists tr'. split; assumption.
Qed.

Lemma set_newWaveform_unknown_bank_witness :
  exists tr',
    set_newWaveform (fun _ => "0") "12" "0" "100.0" "5.0" "7" [] = (Ret tt, tr')
    /\ writes tr'
       = List.app (writes [])
           ["C WAV-B CLR"; "C SWG MODE 0"; "C SWG WF " ++ "0";
            "C SWG DF " ++ "100.0"; "C SWG AMP " ++ "5.0";
            "C SWG WMEM " ++ "7"; "C SWG WFUN 0"; "C SWG LIN " ++ "12";
            "C AWG- CH " ++ "12"; "C SWG APPLY"; "C WAV- SAVE";
            "C WAV- WRITE"; "C AWG- START"].
Proof.
  apply (set_newWaveform_unknown_bank (fun _ => "0") "12" "0" "100.0" "5.0" "7" []);
    discriminate.
Defined.

(** ** Identity of the instrument *)

Lemma get_serial_eq (instr : instrument) (tr : list event) :
  get_serial instr tr
  = (Ret (drop3 (PyStr.strip (second_line instr "HARD?" tr))),
     (tr ++ [Clear; Write "HARD?"; Read (reply_to instr "HARD?" tr);
             Read (second_line instr "HARD?" tr); Sleep (1 # 100); Clear])%list).
Proof.
  unfold get_serial, second_line, reply_to.
  erewrite io_bind_ret by apply write_eq.
  unfold io_bind, visa_read, sleep, empty_buffer, visa_clear, io_ret.
  rewrite <- !app_assoc. reflexivity.
Qed.

Lemma get_firmware_eq (instr : instrument) (tr : list event) :
  get_firmware instr tr
  = (Ret (last5 (PyStr.strip (second_line instr "SOFT?" tr))),
     (tr ++ [Clear; Write "SOFT?"; Read (reply_to instr "SOFT?" tr);
             Read (second_line instr "SOFT?" tr); Sleep (1 # 100); Clear])%list).
Proof.
  unfold get_firmware, second_line, reply_to.
  erewrite io_bind_ret by apply write_eq.
  unfold io_bind, visa_read, sleep, empty_buffer, visa_clear, io_ret.
  rewrite <- !app_assoc. reflexivity.
Qed.

(** X3: [get_idn] always returns; the vendor and the model are fixed
    texts; the serial number and the firmware are cut from the line that
    follows the reply to [HARD?] and to [SOFT?], the reply itself being
    dropped; on the handle there are two exchanges, each followed by a
    second read, a pause of 0.01 s and a clear. *)
Theorem get_idn_identity (instr : instrument) (tr : list event) :
  exists tr1 tr',
    get_serial instr tr
    = (Ret (drop3 (PyStr.strip (second_line instr "HARD?" tr))), tr1)
    /\ get_idn instr tr
       = (Ret {| vendor := "BasPI"; model := "LNHR DAC SP1060";
                 serial := drop3 (PyStr.strip (second_line instr "HARD?" tr));
                 firmware := last5 (PyStr.strip (second_line instr "SOFT?" tr1)) |},
          tr')
    /\ skeleton tr'
       = (skeleton tr
          ++ [Clear; Write "HARD?"; Read EmptyString; Read EmptyString;
              Sleep (1 # 100); Clear;
              Clear; Write "SOFT?"; Read EmptyString; Read EmptyString;
              Sleep (1 # 100); Clear])%list.
Proof.
  eexists _, _. split; [apply get_serial_eq |]. split.
  - unfold get_idn.
    erewrite io_bind_ret by apply get_serial_eq.
    erewrite io_bind_ret by apply get_firmware_eq.
    reflexivity.
  - rewrite !skeleton_app, <- app_assoc. reflexivity.
Qed.

Lemma substring_whole (m : nat) (s : string) :
  (String.length s <= m)%nat -> String.substring 0 m s = s.
Proof.
  revert m. induction s as [| c s IH]; intros [| m] H; cbn in *; try reflexivity;
    try lia.
  rewrite IH by lia. reflexivity.
Qed.

Lemma substring_suffix (n m : nat) (s : string) :
  (String.length s <= n + m)%nat ->
  exists pre,
    s = pre ++ String.substring n m s
    /\ String.length pre = Nat.min n (String.length s).
Proof.
  revert s. induction n as [| n IH]; intros s H.
  - exists EmptyString. rewrite substring_whole by exact H. split; reflexivity.
  - destruct s as [| c s].
    + exists EmptyString. destruct m; split; reflexivity.
    + destruct (IH s) as (pre & E & L); [cbn in H; lia |].
      exists (String c pre). cbn [String.substring append String.length].
      rewrite <- E, L. split; reflexivity.
Qed.

Lemma length_append (a b : string) :
  String.length (a ++ b) = (String.length a + String.length b)%nat.
Proof. induction a as [| c a IH]; cbn; [reflexivity | rewrite IH; reflexivity]. Qed.

(** X4: the serial number is the stripped line without its first three
    characters, and is empty when the line has no more than three; the
    firmware is the last five characters of the stripped line, and the whole
    of it when the line has fewer than five. *)
Theorem identity_slices (instr : instrument) (tr : list event) :
  (exists pre sn tr',
     get_serial instr tr = (Ret sn, tr')
     /\ PyStr.strip (second_line instr "HARD?" tr) = pre ++ sn
     /\ String.length pre
        = Nat.min 3 (String.length (PyStr.strip (second_line instr "HARD?" tr))))
  /\ (exists pre fw tr',
        get_firmware instr tr = (Ret fw, tr')
        /\ PyStr.strip (second_line instr "SOFT?" tr) = pre ++ fw
        /\ String.length fw
           = Nat.min 5 (String.length (PyStr.strip (second_line instr "SOFT?" tr)))).
Proof.
  split.
  - set (line := PyStr.strip (second_line instr "HARD?" tr)).
    destruct (substring_suffix 3 (String.length line - 3) line) as (pre & E & L);
      [lia |].
    exists pre, (drop3 line). eexists. split; [apply get_serial_eq |].
    split; [exact E | exact L].
  - set (line := PyStr.strip (second_line instr "SOFT?" tr)).
    destruct (substring_suffix (String.length line - 5) 5 line) as (pre & E & L);
      [lia |].
    exists pre, (last5 line). eexists. split; [apply get_firmware_eq |].
    split; [exact E |].
    apply (f_equal String.length) in E. rewrite length_append, L in E.
    unfold last5. lia.
Qed.

(** ** Tokens of the status reply *)

Lemma rev_onto_app (s acc : string) :
  PyStr.rev_onto s acc = PyStr.rev s ++ acc.
Proof.
  unfold PyStr.rev. revert acc. induction s as [| c s IH]; intros acc; cbn.
  - reflexivity.
  - rewrite (IH (String c acc)), (IH (String c EmptyString)), string_app_assoc.
    reflexivity.
Qed.

Lemma lacks_char_app (c : ascii) (a b : string) :
  lacks_char c (a ++ b) = lacks_char c a && lacks_char c b.
Proof.
  induction a as [| x a IH]; cbn; [reflexivity |].
  rewrite IH, andb_assoc. reflexivity.
Qed.

Lemma lacks_char_rev (c : ascii) (s : string) :
  lacks_char c s = true -> lacks_char c (PyStr.rev s) = true.
Proof.
  induction s as [| x s IH]; cbn; [reflexivity |].
  intros H. apply andb_prop in H as [Hx Hs].
  change (PyStr.rev (String x s)) with (PyStr.rev_onto s (String x EmptyString)).
  rewrite rev_onto_app, lacks_char_app, IH by exact Hs. cbn. rewrite Hx. reflexivity.
Qed.

Lemma split_onto_nonempty (sep : ascii) (s cur : string) :
  PyStr.split_onto sep s cur <> [].
Proof.
  revert cur. induction s as [| c s IH]; intros cur; cbn.
  - discriminate.
  - destruct (Ascii.eqb c sep); [discriminate | apply IH].
Qed.

Lemma join_split_onto (sep : ascii) (s cur : string) :
  PyStr.join (String sep EmptyString) (PyStr.split_onto sep s cur)
  = PyStr.rev cur ++ s.
Proof.
  revert cur. induction s as [| c s IH]; intros cur.
  - cbn. rewrite string_app_nil_r. reflexivity.
  - cbn [PyStr.split_onto]. destruct (Ascii.eqb c sep) eqn:E.
    + apply Ascii.eqb_eq in E. subst c.
      specialize (IH EmptyString).
      pose proof (split_onto_nonempty sep s EmptyString) as NE.
      destruct (PyStr.split_onto sep s EmptyString) as [| p rest]; [contradiction |].
      change (PyStr.join (String sep EmptyString) (PyStr.rev cur :: p :: rest))
        with (PyStr.rev cur ++ String sep EmptyString
              ++ PyStr.join (String sep EmptyString) (p :: rest)).
      rewrite IH. reflexivity.
    + rewrite IH.
      change (PyStr.rev (String c cur)) with (PyStr.rev_onto cur (String c EmptyString)).
      rewrite rev_onto_app, string_app_assoc. reflexivity.
Qed.

Lemma split_onto_lacks (sep : ascii) (s cur : string) :
  lacks_char sep cur = true ->
  Forall (fun t => lacks_char sep t = true) (PyStr.split_onto sep s cur).
Proof.
  revert cur. induction s as [| c s IH]; intros cur H; cbn [PyStr.split_onto].
  - constructor; [apply lacks_char_rev, H | constructor].
  - destruct (Ascii.eqb c sep) eqn:E.
    + constructor; [apply lacks_char_rev, H | apply IH; reflexivity].
    + apply IH. cbn. rewrite E, H. reflexivity.
Qed.

(** X5: whatever the instrument replies, [query_all] returns, after one
    exchange, at least one token; no token holds a semicolon, and the
    tokens joined with semicolons are the reply without its line ends. *)
Theorem query_all_tokens_join (instr : instrument) (tr : list event) :
  exists tokens,
    query_all instr tr
    = (Ret tokens,
       (tr ++ [Clear; Write "All S?"; Read (reply_to instr "All S?" tr)])%list)
    /\ tokens <> []
    /\ Forall (fun t => lacks_char ";"%char t = true) tokens
    /\ PyStr.join ";" tokens
       = PyStr.replace_with_empty crlf (reply_to instr "All S?" tr).
Proof.
  eexists. split; [apply query_all_eq |].
  split; [apply split_onto_nonempty |].
  split; [apply split_onto_lacks; reflexivity |].
  unfold PyStr.split. rewrite join_split_onto. reflexivity.
Qed.

Lemma remove_all_terminated (s : string) (fuel : nat) :
  lacks_char (ascii_of_nat 13) s = true ->
  (String.length s < fuel)%nat ->
  PyStr.remove_all crlf (s ++ crlf) fuel = s.
Proof.
  revert fuel. induction s as [| c s IH]; intros fuel Hs Hf.
  - destruct fuel as [| fuel]; [cbn in Hf; lia |].
    destruct fuel; reflexivity.
  - destruct fuel as [| fuel]; [cbn in Hf; lia |].
    cbn in Hs. apply andb_prop in Hs as [Hc Hs].
    cbn [append PyStr.remove_all]. unfold crlf at 1. cbn [PyStr.starts_with].
    apply negb_true_iff in Hc. rewrite Ascii.eqb_sym in Hc.
    change (Ascii.eqb (ascii_of_nat 13) c = false) in Hc. rewrite Hc.
    rewrite IH; [reflexivity | exact Hs | cbn in Hf; lia].
Qed.

Lemma lacks_char_join (c : ascii) (sep : string) (ts : list string) :
  lacks_char c sep = true ->
  Forall (fun t => lacks_char c t = true) ts ->
  lacks_char c (PyStr.join sep ts) = true.
Proof.
  intros Hsep H. induction H as [| t ts Ht Hts IH]; [reflexivity |].
  destruct ts as [| u ts]; [exact Ht |].
  change (PyStr.join sep (t :: u :: ts)) with (t ++ sep ++ PyStr.join sep (u :: ts)).
  rewrite !lacks_char_app, Ht, Hsep, IH. reflexivity.
Qed.

(** X6: when the status reply is a line of tokens joined with semicolons
    and ended by CR LF, the tokens holding neither a semicolon nor a CR,
    [query_all] returns exactly the tokens. *)
Theorem query_all_terminated_reply (instr : instrument) (tr : list event)
    (t : string) (ts : list string) :
  Forall (fun x => lacks_char ";"%char x = true) (t :: ts) ->
  Forall (fun x => lacks_char (ascii_of_nat 13) x = true) (t :: ts) ->
  reply_to instr "All S?" tr = PyStr.join ";" (t :: ts) ++ crlf ->
  fst (query_all instr tr) = Ret (t :: ts).
Proof.
  intros Hsemi Hcr Hreply.
  rewrite query_all_eq. cbv zeta. cbn [fst].
  unfold reply_to in Hreply. rewrite Hreply.
  unfold PyStr.replace_with_empty.
  rewrite remove_all_terminated.
  - rewrite split_join by exact Hsemi. reflexivity.
  - apply lacks_char_join; [reflexivity | exact Hcr].
  - rewrite length_append. cbn. lia.
Qed.

Lemma query_all_terminated_reply_witness :
  fst (query_all (fun _ => PyStr.join ";" ("ON" :: ["OFF"; "ON"]) ++ crlf) [])
  = Ret ("ON" :: ["OFF"; "ON"]).
Proof.
  apply (query_all_terminated_reply
           (fun _ => PyStr.join ";" ("ON" :: ["OFF"; "ON"]) ++ crlf) [] "ON" ["OFF"; "ON"]).
  - repeat constructor.
  - repeat constructor.
  - reflexivity.
Defined.

(** ** Channels and their range *)

(** X8: the range of a channel is the interval between the two bounds,
    in whichever order they were given: a value is accepted exactly when
    it lies between them, the bounds included. *)
Theorem channel_range_any_order (nm : string) (channel : Z) (min_val max_val v : Q)
    (ch : SP1060Channel) :
  SP1060Channel_init nm channel min_val max_val = Ret ch ->
  Numbers_accepts (vals (volt ch)) v = true
  <-> ((min_val <= v /\ v <= max_val) \/ (max_val <= v /\ v <= min_val))%Q.
Proof.
  intros E. destruct (SP1060Channel_init_vals _ _ _ _ _ E) as (-> & _).
  unfold Numbers_accepts, py_min, py_max. cbn [_min_value _max_value].
  rewrite andb_true_iff, !Qle_bool_iff.
  destruct (Qle_bool min_val max_val) eqn:A; destruct (Qle_bool max_val min_val) eqn:B;
    try (apply Qle_bool_iff in A); try (apply Qle_bool_iff in B);
    try (apply Qle_bool_false in A); try (apply Qle_bool_false in B);
    split; intros H; lra.
Qed.

Lemma channel_range_any_order_witness :
  Numbers_accepts
    (vals (volt {| name := "chan3"; _channel := 3;
                   _volt_val := {| _min_value := -5; _max_value := 5 |};
                   volt := {| vals := {| _min_value := -5; _max_value := 5 |};
                              step := None; inter_delay := 0; latest := None |} |}))
    (7 # 2) = true
  <-> ((5 <= 7 # 2 /\ 7 # 2 <= -5) \/ (-5 <= 7 # 2 /\ 7 # 2 <= 5))%Q.
Proof.
  apply (channel_range_any_order "chan3" 3 5 (-5) (7 # 2)). reflexivity.
Defined.

(** ** The device after its construction *)

Lemma volt_get_settings (instr : instrument) (ch : SP1060Channel) (tr : list event) :
  exists r tr',
    volt_get instr ch tr
    = (Ret (r, with_volt ch (with_latest (volt ch) (option_map B64.to_Q r))), tr').
Proof.
  destruct (runs_read_voltage instr (_channel ch) tr) as (r & tr' & E & _).
  exists r, tr'. unfold volt_get. erewrite io_bind_ret by exact E. reflexivity.
Qed.

Lemma io_map_volt_get (instr : instrument) (chans : list SP1060Channel)
    (tr : list event) :
  exists read tr',
    io_map chans (volt_get instr) tr = (Ret read, tr')
    /\ Forall2 same_settings chans (map snd read).
Proof.
  revert tr. induction chans as [| ch chans IH]; intros tr.
  - exists [], tr. split; [reflexivity | constructor].
  - destruct (volt_get_settings instr ch tr) as (r & tr1 & E1).
    destruct (IH tr1) as (read & tr2 & E2 & F).
    eexists _, tr2. split.
    + cbn [io_map]. erewrite io_bind_ret by exact E1.
      erewrite io_bind_ret by exact E2. reflexivity.
    + cbn [map snd]. constructor; [| exact F].
      repeat split; reflexivity.
Qed.

(** The channels of a constructed device are those the device builds,
    but for their last known value. *)
Lemma SP1060_init_channels (instr : instrument) (nm address : string)
    (min_val max_val : Q) (baud_rate : Z) (tr : list event) :
  exists dev tr',
    SP1060_init instr nm address min_val max_val baud_rate tr = (Ret dev, tr')
    /\ num_chans dev = 24%Z
    /\ Forall2 same_settings
         (map (fun i => device_channel i None) (range 1 25)) (channels dev).
Proof.
  unfold SP1060_init. cbv zeta.
  destruct (py_map (fun i => SP1060Channel_init ("chan" ++ PyStr.format_d i) i (-10) 10)
              (range 1 (1 + 24))) as [chans | e] eqn:E;
    [| vm_compute in E; discriminate E].
  assert (Hc : map (fun ch => with_volt ch {| vals := vals (volt ch);
                                              step := Some (1 # 100);
                                              inter_delay := 2 # 100;
                                              latest := latest (volt ch) |}) chans
               = map (fun i => device_channel i None) (range 1 25)).
  { vm_compute in E. injection E as <-. reflexivity. }
  erewrite io_bind_ret by reflexivity. cbv beta.
  rewrite Hc. clear Hc E.
  erewrite io_bind_ret by apply (query_all_eq instr tr).
  set (tr0 := (tr ++ [Clear; Write "All S?"; Read _])%list).
  assert (S1 : exists tr1,
             (if existsb (String.eqb "OFF")
                   (PyStr.split ";"%char
                      (PyStr.replace_with_empty crlf
                         (instr (tr ++ [Clear; Write "All S?"])%list)))
              then all_on instr else io_ret tt) tr0 = (Ret tt, tr1)).
  { destruct (existsb _ _).
    - destruct (runs_all_on instr tr0) as ([] & tr1 & E1 & _). exists tr1. exact E1.
    - exists tr0. reflexivity. }
  destruct S1 as (tr1 & E1).
  erewrite io_bind_ret by exact E1.
  destruct (runs_get_idn instr tr1) as (i & tr2 & E2 & _).
  erewrite io_bind_ret by exact E2.
  destruct (io_map_volt_get instr (map (fun i => device_channel i None) (range 1 25)) tr2)
    as (read & tr3 & E3 & F).
  erewrite io_bind_ret by exact E3.
  eexists _, _. split; [reflexivity |]. split; [reflexivity | exact F].
Qed.

Lemma Forall2_map_eq {A B C : Type} (R : A -> B -> Prop) (f : A -> C) (g : B -> C)
    (l1 : list A) (l2 : list B) :
  (forall a b, R a b -> g b = f a) -> Forall2 R l1 l2 -> map g l2 = map f l1.
Proof.
  intros H F. induction F as [| a b l1 l2 Hab F IH]; [reflexivity |].
  cbn [map]. rewrite (H a b Hab), IH. reflexivity.
Qed.

Lemma Forall2_Forall_r {A B : Type} (R : A -> B -> Prop) (P : B -> Prop)
    (l1 : list A) (l2 : list B) :
  (forall a b, R a b -> P b) -> Forall2 R l1 l2 -> Forall P l2.
Proof.
  intros H F. induction F as [| a b l1 l2 Hab F IH]; constructor;
    [exact (H a b Hab) | exact IH].
Qed.

(** X9: the bounds given to the device are not handed on to its channels:
    whatever [min_val] and [max_val], and whatever the instrument replies,
    the constructed device has the 24 channels [chan1] to [chan24],
    numbered 1 to 24 in this order, and every one of them accepts exactly
    -10 V to 10 V, with step 0.01 V and delay 0.02 s. *)
Theorem init_channels_fixed (instr : instrument) (nm address : string)
    (min_val max_val : Q) (baud_rate : Z) (tr : list event) :
  exists dev tr',
    SP1060_init instr nm address min_val max_val baud_rate tr = (Ret dev, tr')
    /\ num_chans dev = 24%Z
    /\ map _channel (channels dev) = range 1 25
    /\ map name (channels dev) = map (fun i => "chan" ++ PyStr.format_d i) (range 1 25)
    /\ Forall (fun ch =>
                 vals (volt ch) = {| _min_value := -10; _max_value := 10 |}
                 /\ _volt_val ch = {| _min_value := -10; _max_value := 10 |}
                 /\ step (volt ch) = Some (1 # 100)%Q
                 /\ inter_delay (volt ch) = (2 # 100)%Q)
         (channels dev).
Proof.
  destruct (SP1060_init_channels instr nm address min_val max_val baud_rate tr)
    as (dev & tr' & E & N & F).
  exists dev, tr'. split; [exact E |]. split; [exact N |].
  split; [| split].
  - rewrite (Forall2_map_eq _ _channel _channel _ _
               (fun a b (H : same_settings a b) => proj1 (proj2 H)) F).
    rewrite map_map. cbn [device_channel _channel]. apply map_id.
  - rewrite (Forall2_map_eq _ name name _ _
               (fun a b (H : same_settings a b) => proj1 H) F).
    rewrite map_map. reflexivity.
  - set (chans := map (fun i => device_channel i None) (range 1 25)) in F.
    assert (Hall : Forall (fun a =>
                             vals (volt a) = {| _min_value := -10; _max_value := 10 |}
                             /\ _volt_val a = {| _min_value := -10; _max_value := 10 |}
                             /\ step (volt a) = Some (1 # 100)%Q
                             /\ inter_delay (volt a) = (2 # 100)%Q) chans).
    { unfold chans. apply Forall_forall. intros a Ha.
      apply in_map_iff in Ha as (i & <- & _). repeat split; reflexivity. }
    clear E N. induction F as [| a b l1 l2 Hab F IH]; constructor.
    + apply Forall_inv in Hall.
      destruct Hab as (_ & _ & Hv & Hvals & Hstep & Hdelay).
      destruct Hall as (A1 & A2 & A3 & A4).
      rewrite Hvals, Hv, Hstep, Hdelay. repeat split; assumption.
    + apply IH. apply Forall_inv_tail in Hall. exact Hall.
Qed.

(** X10: the commands of the construction, in their order: the status
    query, [ALL ON] when a token of the reply is [OFF], the two identity
    queries, and then the read of every channel from 1 to 24, so 27 or 28
    commands in all. *)
Theorem init_command_sequence (instr : instrument) (nm address : string)
    (min_val max_val : Q) (baud_rate : Z) (tr : list event) :
  exists dev tr' ws,
    SP1060_init instr nm address min_val max_val baud_rate tr = (Ret dev, tr')
    /\ writes tr' = (writes tr ++ ws)%list
    /\ ws = ("All S?"
             :: (if existsb (String.eqb "OFF") (PyStr.split ";"%char
                      (PyStr.replace_with_empty crlf (reply_to instr "All S?" tr)))
                 then ["ALL ON"] else [])
             ++ ["HARD?"; "SOFT?"]
             ++ map read_command (range 1 25))%list
    /\ skipn (List.length ws - 24) ws = map read_command (range 1 25)
    /\ (27 <= List.length ws <= 28)%nat.
Proof.
  destruct (SP1060_init_writes instr nm address min_val max_val baud_rate tr)
    as (dev & tr' & E & W).
  cbv zeta in W. unfold reply_to.
  eexists dev, tr', _. split; [exact E |]. split; [exact W |].
  split; [reflexivity |].
  destruct (existsb (String.eqb "OFF") _); (split; [reflexivity | vm_compute; lia]).
Qed.

(** ** Setting every channel *)

Lemma volt_set_rejects (instr : instrument) (ch : SP1060Channel) (v : Q)
    (tr : list event) :
  Numbers_accepts (vals (volt ch)) v = false ->
  volt_set instr ch v tr = (Raise ValueError, tr).
Proof.
  intros H. unfold volt_set.
  erewrite io_bind_raise; [reflexivity |].
  unfold io_lift, Numbers_validate. rewrite H. reflexivity.
Qed.

(** X11: on a constructed device, [set_all] with a value outside -10 V to
    10 V raises the range error at the first channel and nothing is
    written, whatever bounds were given to the device. *)
Theorem init_then_set_all_out_of_range (instr : instrument) (nm address : string)
    (min_val max_val : Q) (baud_rate : Z) (tr : list event) (v : Q) :
  (v < -10 \/ 10 < v)%Q ->
  exists dev tr',
    SP1060_init instr nm address min_val max_val baud_rate tr = (Ret dev, tr')
    /\ set_all instr dev v tr' = (Raise ValueError, tr').
Proof.
  intros Hv.
  destruct (SP1060_init_channels instr nm address min_val max_val baud_rate tr)
    as (dev & tr' & E & _ & F).
  exists dev, tr'. split; [exact E |].
  unfold set_all.
  destruct (channels dev) as [| ch rest]; [inversion F |].
  apply Forall2_cons_iff in F as [(_ & _ & _ & Hvals & _) _].
  cbn [io_map].
  erewrite io_bind_raise; [reflexivity |].
  erewrite io_bind_raise; [reflexivity |].
  apply volt_set_rejects. rewrite Hvals.
  unfold Numbers_accepts. cbn [device_channel volt vals _min_value _max_value].
  change (py_min (-10) 10) with (-10)%Q. change (py_max (-10) 10) with 10%Q.
  apply andb_false_iff. destruct Hv as [H | H]; [left | right];
    apply Qle_bool_false; exact H.
Qed.

Lemma init_then_set_all_out_of_range_witness :
  exists dev tr',
    SP1060_init (fun _ => "0") "dac" "addr" (-1) 1 115200 [] = (Ret dev, tr')
    /\ set_all (fun _ => "0") dev 11 tr' = (Raise ValueError, tr').
Proof.
  apply (init_then_set_all_out_of_range (fun _ => "0") "dac" "addr" (-1) 1 115200 [] 11).
  right. reflexivity.
Defined.

Lemma volt_set_values (instr : instrument) (ch : SP1060Channel) (v : Q)
    (tr : list event) :
  Numbers_accepts (vals (volt ch)) v = true ->
  Forall (fun x => dac_code x <> None) (update_values (volt ch) v) ->
  exists tr',
    volt_set instr ch v tr = (Ret (channel_set_to v ch), tr')
    /\ writes tr'
       = (writes tr
          ++ map (set_command (_channel ch)) (update_values (volt ch) v))%list.
Proof.
  intros Hacc Hcodes.
  destruct (runs_send_values instr (_channel ch) (inter_delay (volt ch)) _ Hcodes tr)
    as ([] & tr' & Esend & W).
  exists tr'. split; [| exact W].
  unfold volt_set.
  erewrite io_bind_ret
    by (unfold io_lift, Numbers_validate; rewrite Hacc; reflexivity).
  fold (update_values (volt ch) v).
  erewrite io_bind_ret by exact Esend. reflexivity.
Qed.

(** X12: [set_all] updates the channels one after the other in the order
    of the device's list, each through its own ramp, when every channel
    accepts the value and every value of the ramps has a code; it returns
    the device with the value as the last known value of every channel. *)
Theorem set_all_in_order (instr : instrument) (dev : SP1060) (v : Q)
    (tr : list event) :
  Forall (fun ch =>
            Numbers_accepts (vals (volt ch)) v = true
            /\ Forall (fun x => dac_code x <> None) (update_values (volt ch) v))
         (channels dev) ->
  exists tr',
    set_all instr dev v tr
    = (Ret {| num_chans := num_chans dev;
              channels := map (channel_set_to v) (channels dev) |}, tr')
    /\ writes tr'
       = (writes tr
          ++ flat_map (fun ch => map (set_command (_channel ch))
                                     (update_values (volt ch) v))
               (channels dev))%list.
Proof.
  intros H. unfold set_all.
  assert (M : exists tr',
             io_map (channels dev) (fun ch => volt_set instr ch v) tr
             = (Ret (map (channel_set_to v) (channels dev)), tr')
             /\ writes tr'
                = (writes tr
                   ++ flat_map (fun ch => map (set_command (_channel ch))
                                              (update_values (volt ch) v))
                        (channels dev))%list).
  { revert tr. induction H as [| ch chans [Hacc Hcodes] Hrest IH]; intros tr.
    - exists tr. rewrite app_nil_r. split; reflexivity.
    - destruct (volt_set_values instr ch v tr Hacc Hcodes) as (tr1 & E1 & W1).
      destruct (IH tr1) as (tr2 & E2 & W2).
      exists tr2. split.
      + cbn [io_map map]. erewrite io_bind_ret by exact E1.
        erewrite io_bind_ret by exact E2. reflexivity.
      + rewrite W2, W1. cbn [flat_map]. rewrite app_assoc. reflexivity. }
  destruct M as (tr' & E & W). exists tr'. split; [| exact W].
  erewrite io_bind_ret by exact E. reflexivity.
Qed.

Lemma set_all_in_order_witness :
  let dev := {| num_chans := 2;
                channels := [device_channel 1 (Some 0%Q); device_channel 2 None] |} in
  exists tr',
    set_all (fun _ => "0") dev (1 # 50) []
    = (Ret {| num_chans := num_chans dev;
              channels := map (channel_set_to (1 # 50)) (channels dev) |}, tr')
    /\ writes tr'
       = (writes []
          ++ flat_map (fun ch => map (set_command (_channel ch))
                                     (update_values (volt ch) (1 # 50)))
               (channels dev))%list.
Proof.
  apply (set_all_in_order (fun _ => "0")
           {| num_chans := 2;
              channels := [device_channel 1 (Some 0%Q); device_channel 2 None] |}
           (1 # 50) []).
  repeat constructor; vm_compute; discriminate.
Defined.

(** ** White space around the text of a code *)

Lemma lstrip_spaces_app (sp : ascii -> bool) (pre x : string) :
  all_chars sp pre = true ->
  PyStr.lstrip_by sp (pre ++ x) = PyStr.lstrip_by sp x.
Proof.
  induction pre as [| c pre IH]; cbn; [reflexivity |].
  intros H. apply andb_prop in H as [Hc Hp]. rewrite Hc. exact (IH Hp).
Qed.

Lemma lstrip_empty_all (sp : ascii -> bool) (s : string) :
  PyStr.lstrip_by sp s = EmptyString -> all_chars sp s = true.
Proof.
  induction s as [| c s IH]; cbn; [reflexivity |].
  destruct (sp c); [exact IH | discriminate].
Qed.

Lemma lstrip_app_nonempty (sp : ascii -> bool) (s t : string) :
  PyStr.lstrip_by sp s <> EmptyString ->
  PyStr.lstrip_by sp (s ++ t) = PyStr.lstrip_by sp s ++ t.
Proof.
  induction s as [| c s IH]; cbn; [intros H; contradiction |].
  destruct (sp c); [exact IH | reflexivity].
Qed.

Lemma all_chars_app (P : ascii -> bool) (a b : string) :
  all_chars P (a ++ b) = all_chars P a && all_chars P b.
Proof.
  induction a as [| c a IH]; cbn; [reflexivity |].
  rewrite IH, andb_assoc. reflexivity.
Qed.

Lemma all_chars_rev (P : ascii -> bool) (s : string) :
  all_chars P (PyStr.rev s) = all_chars P s.
Proof.
  unfold PyStr.rev. rewrite all_chars_rev_onto. cbn. apply andb_true_r.
Qed.

Lemma rev_app (a b : string) : PyStr.rev (a ++ b) = PyStr.rev b ++ PyStr.rev a.
Proof.
  induction a as [| c a IH].
  - cbn. rewrite string_app_nil_r. reflexivity.
  - change (PyStr.rev (String c a ++ b))
      with (PyStr.rev_onto (a ++ b) (String c EmptyString)).
    change (PyStr.rev (String c a)) with (PyStr.rev_onto a (String c EmptyString)).
    rewrite !rev_onto_app, IH, string_app_assoc. reflexivity.
Qed.

(** Stripping does not see white space added at either end. *)
Lemma strip_padded (sp : ascii -> bool) (pre s post : string) :
  all_chars sp pre = true -> all_chars sp post = true ->
  PyStr.strip_by sp (pre ++ s ++ post) = PyStr.strip_by sp s.
Proof.
  intros Hpre Hpost. unfold PyStr.strip_by.
  rewrite lstrip_spaces_app by exact Hpre.
  destruct (PyStr.lstrip_by sp s) as [| c w] eqn:E.
  - assert (A : all_chars sp (s ++ post) = true)
      by (rewrite all_chars_app, (lstrip_empty_all sp s E), Hpost; reflexivity).
    rewrite <- (string_app_nil_r (s ++ post)).
    rewrite lstrip_spaces_app by exact A. reflexivity.
  - rewrite lstrip_app_nonempty by (rewrite E; discriminate).
    rewrite E, rev_app.
    rewrite lstrip_spaces_app by (rewrite all_chars_rev; exact Hpost).
    reflexivity.
Qed.

(** X13: the decoder does not see white space around the text: a reply
    with blanks, tabs or line ends before or after it decodes as the text
    alone, whatever the text. *)
Theorem decode_ignores_surrounding_space (raw pre post : string) :
  all_chars PyStr.is_space pre = true ->
  all_chars PyStr.is_space post = true ->
  SP1060Reader._dacval_to_vval (pre ++ raw ++ post)
  = SP1060Reader._dacval_to_vval raw.
Proof.
  intros Hpre Hpost. unfold SP1060Reader._dacval_to_vval, PyStr.strip.
  rewrite strip_padded by assumption. reflexivity.
Qed.

Lemma decode_ignores_surrounding_space_witness :
  SP1060Reader._dacval_to_vval (" " ++ "7FFFFF" ++ crlf)
  = SP1060Reader._dacval_to_vval "7FFFFF".
Proof.
  apply (decode_ignores_surrounding_space "7FFFFF" " " crlf); reflexivity.
Defined.

(** ** Reading and setting a channel *)

Lemma read_voltage_eq (instr : instrument) (chan : Z) (tr : list event) :
  _read_voltage instr chan tr
  = (SP1060Reader._dacval_to_vval (reply_to instr (read_command chan) tr),
     (tr ++ [Clear; Write (read_command chan);
             Read (reply_to instr (read_command chan) tr)])%list).
Proof.
  unfold _read_voltage, reply_to, read_command.
  erewrite io_bind_ret by apply write_eq. reflexivity.
Qed.

Lemma decode_padded_code (code : Z) (pre post : string) :
  (0 <= code < 2 ^ 24)%Z ->
  all_chars PyStr.is_space pre = true ->
  all_chars PyStr.is_space post = true ->
  exists r,
    SP1060Reader._dacval_to_vval (pre ++ PyStr.format_X code ++ post) = Ret (Some r)
    /\ B64.is_finite r = true
    /\ (Qabs (B64.to_Q r - (inject_Z code * (4 # 3355443) - 10))
        <= (1 # 2000000) + (1 # 10000000000000))%Q.
Proof.
  intros Hc Hpre Hpost.
  apply decode_code; [| exact Hc].
  unfold PyStr.strip. rewrite strip_padded by assumption.
  apply int16_format_X. lia.
Qed.

(** X14: when the instrument answers the query of a channel with the
    hexadecimal text of a code of 24 bits, white space around it or not,
    [_read_voltage] returns, after this one exchange, a finite number
    within 0.5e-6 (and 1e-13 of rounding) of the voltage of the code,
    code / 838860.75 - 10. *)
Theorem read_voltage_decodes_reply (instr : instrument) (chan code : Z)
    (pre post : string) (tr : list event) :
  (0 <= code < 2 ^ 24)%Z ->
  all_chars PyStr.is_space pre = true ->
  all_chars PyStr.is_space post = true ->
  reply_to instr (read_command chan) tr = pre ++ PyStr.format_X code ++ post ->
  exists r,
    _read_voltage instr chan tr
    = (Ret (Some r),
       (tr ++ [Clear; Write (PyStr.format_d chan ++ " V?");
               Read (pre ++ PyStr.format_X code ++ post)])%list)
    /\ B64.is_finite r = true
    /\ (Qabs (B64.to_Q r - (inject_Z code * (4 # 3355443) - 10))
        <= (1 # 2000000) + (1 # 10000000000000))%Q.
Proof.
  intros Hc Hpre Hpost Hreply.
  destruct (decode_padded_code code pre post Hc Hpre Hpost) as (r & E & F & A).
  exists r. split; [| split; assumption].
  rewrite read_voltage_eq, Hreply, E. reflexivity.
Qed.

Lemma read_voltage_decodes_reply_witness :
  exists r,
    _read_voltage (fun _ => "" ++ PyStr.format_X 8388608 ++ crlf) 12 []
    = (Ret (Some r),
       ([] ++ [Clear; Write (PyStr.format_d 12 ++ " V?");
               Read ("" ++ PyStr.format_X 8388608 ++ crlf)])%list)
    /\ B64.is_finite r = true
    /\ (Qabs (B64.to_Q r - (inject_Z 8388608 * (4 # 3355443) - 10))
        <= (1 # 2000000) + (1 # 10000000000000))%Q.
Proof.
  apply (read_voltage_decodes_reply
           (fun _ => "" ++ PyStr.format_X 8388608 ++ crlf) 12 8388608 "" crlf []).
  - split; [discriminate | reflexivity].
  - reflexivity.
  - reflexivity.
  - reflexivity.
Defined.

(** X15: a voltage of the span set on a channel and read back from an
    instrument that answers the query with the code it was sent: the set
    is one command with the channel and the code in hexadecimal, and the
    number read is finite and within 1.7e-6 of the voltage. *)
Theorem set_then_read_round_trip (instr : instrument) (chan : Z) (v : spec_float)
    (tr : list event) :
  B64.is_finite v = true ->
  (-10 <= B64.to_Q v <= 10)%Q ->
  exists code tr1,
    SP1060Reader._vval_to_dacval (PyFloat v) = Ret (Some code)
    /\ _set_voltage instr chan (Some code) tr = (Ret tt, tr1)
    /\ writes tr1
       = (writes tr ++ [(PyStr.format_d chan ++ " " ++ PyStr.format_X code)%string])%list
    /\ forall pre post,
         all_chars PyStr.is_space pre = true ->
         all_chars PyStr.is_space post = true ->
         reply_to instr (read_command chan) tr1 = pre ++ PyStr.format_X code ++ post ->
         exists r tr2,
           _read_voltage instr chan tr1 = (Ret (Some r), tr2)
           /\ B64.is_finite r = true
           /\ (Qabs (B64.to_Q r - B64.to_Q v) <= 17 # 10000000)%Q.
Proof.
  intros Fv Hv.
  destruct (encode_in_span v Fv Hv) as (code & Eenc & Hcode & Hc1 & Hc2).
  assert (R : runs (_set_voltage instr chan (Some code))
                [PyStr.format_d chan ++ " " ++ PyStr.format_X code])
    by (unfold _set_voltage; runs_auto).
  destruct (R tr) as ([] & tr1 & Eset & W).
  exists code, tr1. split; [exact Eenc |]. split; [exact Eset |].
  split; [exact W |].
  intros pre post Hpre Hpost Hreply.
  destruct (decode_padded_code code pre post Hcode Hpre Hpost) as (r & E & F & A).
  exists r. eexists. split; [| split; [exact F |]].
  - rewrite read_voltage_eq, Hreply, E. reflexivity.
  - apply Qabs_Qle_condition in A. destruct A as [A1 A2].
    apply Qabs_Qle_condition.
    set (V := B64.to_Q v) in *. set (Rq := B64.to_Q r) in *.
    set (C := inject_Z code) in *.
    split; lra.
Qed.

Lemma set_then_read_round_trip_witness :
  exists code tr1,
    SP1060Reader._vval_to_dacval (PyFloat (B64.of_Z 1)) = Ret (Some code)
    /\ _set_voltage (fun _ => "8CCCCC") 12 (Some code) [] = (Ret tt, tr1)
    /\ writes tr1
       = (writes [] ++ [(PyStr.format_d 12 ++ " " ++ PyStr.format_X code)%string])%list
    /\ forall pre post,
         all_chars PyStr.is_space pre = true ->
         all_chars PyStr.is_space post = true ->
         reply_to (fun _ => "8CCCCC") (read_command 12) tr1
         = pre ++ PyStr.format_X code ++ post ->
         exists r tr2,
           _read_voltage (fun _ => "8CCCCC") 12 tr1 = (Ret (Some r), tr2)
           /\ B64.is_finite r = true
           /\ (Qabs (B64.to_Q r - B64.to_Q (B64.of_Z 1)) <= 17 # 10000000)%Q.
Proof.
  apply (set_then_read_round_trip (fun _ => "8CCCCC") 12 (B64.of_Z 1) []).
  - reflexivity.
  - split; vm_compute; discriminate.
Defined.

(** ** Codes of the voltages of the span *)

Local Open Scope Z_scope.

Lemma digits_onto_length (digit : Z -> ascii) (fuel k : nat) (n : Z) (acc : string) :
  (1 <= k)%nat -> 0 <= n < 16 ^ Z.of_nat k ->
  (String.length (PyStr.digits_onto digit 16 fuel n acc) <= k + String.length acc)%nat.
Proof.
  revert k n acc. induction fuel as [| fuel IH]; intros k n acc Hk Hn.
  - cbn. lia.
  - cbn [PyStr.digits_onto]. destruct (n <? 16) eqn:E.
    + cbn. lia.
    + apply Z.ltb_ge in E.
      destruct k as [| [| k]]; [lia | change (16 ^ Z.of_nat 1) with 16 in Hn; lia |].
      assert (Hd : 0 <= n / 16 < 16 ^ Z.of_nat (S k)).
      { split; [apply Z.div_pos; lia |].
        apply Z.div_lt_upper_bound; [lia |].
        replace (Z.of_nat (S (S k))) with (Z.succ (Z.of_nat (S k))) in Hn by lia.
        rewrite Z.pow_succ_r in Hn by lia. lia. }
      specialize (IH (S k) (n / 16) (String (digit (n mod 16)) acc) ltac:(lia) Hd).
      cbn [String.length] in IH. lia.
Qed.

(** X16: every voltage of the span has a code, the code is between 0 and
    [2^24 - 1], it is the scaled voltage (v + 10) * 838860.75 cut to an
    integer, and its hexadecimal text has from one to six characters. *)
Theorem encode_code_fits_24_bits (v : spec_float) :
  B64.is_finite v = true ->
  (-10 <= B64.to_Q v <= 10)%Q ->
  exists code,
    SP1060Reader._vval_to_dacval (PyFloat v) = Ret (Some code)
    /\ 0 <= code <= 16777215
    /\ (inject_Z code - (1 # 10000000) <= (B64.to_Q v + 10) * (3355443 # 4)
        < inject_Z code + 1 + (1 # 10000000))%Q
    /\ (1 <= String.length (PyStr.format_X code) <= 6)%nat.
Proof.
  intros Fv Hv.
  destruct (encode_in_span v Fv Hv) as (code & Eenc & Hcode & Hc1 & Hc2).
  exists code. split; [exact Eenc |].
  change (2 ^ 24) with 16777216 in Hcode.
  split; [lia |]. split; [split; lra |].
  unfold PyStr.format_X, PyStr.signed_digits.
  assert (En : (code <? 0) = false) by (apply Z.ltb_ge; lia).
  rewrite En. split.
  - destruct (unsigned_digits_spec PyStr.upper_hex_digit upper_hex_digit_ok code)
      as (_ & NE & _); [lia |].
    cbv zeta in NE.
    destruct (PyStr.unsigned_digits PyStr.upper_hex_digit 16 code);
      [contradiction | cbn; lia].
  - unfold PyStr.unsigned_digits.
    pose proof (digits_onto_length PyStr.upper_hex_digit
                  (S (Z.to_nat (Z.log2 code))) 6 code EmptyString) as L.
    cbn [String.length] in L. rewrite Nat.add_0_r in L. apply L; [lia |].
    change (16 ^ Z.of_nat 6) with 16777216. lia.
Qed.

Lemma encode_code_fits_24_bits_witness :
  exists code,
    SP1060Reader._vval_to_dacval (PyFloat (B64.of_ratio 314159 100000)) = Ret (Some code)
    /\ 0 <= code <= 16777215
    /\ (inject_Z code - (1 # 10000000)
        <= (B64.to_Q (B64.of_ratio 314159 100000) + 10) * (3355443 # 4)
        < inject_Z code + 1 + (1 # 10000000))%Q
    /\ (1 <= String.length (PyStr.format_X code) <= 6)%nat.
Proof.
  apply (encode_code_fits_24_bits (B64.of_ratio 314159 100000)).
  - reflexivity.
  - split; vm_compute; discriminate.
Defined.

(** X17: the encoder keeps apart two voltages of the span that are at
    least 1.2e-6 V from each other: the higher one has the larger code. *)
Theorem encode_separates_voltages (v w : spec_float) :
  B64.is_finite v = true -> B64.is_finite w = true ->
  (-10 <= B64.to_Q v)%Q -> (B64.to_Q w <= 10)%Q ->
  (B64.to_Q v + (12 # 10000000) <= B64.to_Q w)%Q ->
  exists cv cw,
    SP1060Reader._vval_to_dacval (PyFloat v) = Ret (Some cv)
    /\ SP1060Reader._vval_to_dacval (PyFloat w) = Ret (Some cw)
    /\ cv < cw.
Proof.
  intros Fv Fw Hv Hw Hvw.
  destruct (encode_in_span v Fv) as (cv & Ev & _ & V1 & V2); [split; lra |].
  destruct (encode_in_span w Fw) as (cw & Ew & _ & W1 & W2); [split; lra |].
  exists cv, cw. split; [exact Ev |]. split; [exact Ew |].
  rewrite Zlt_Qlt.
  set (V := B64.to_Q v) in *. set (W := B64.to_Q w) in *.
  set (Cv := inject_Z cv) in *. set (Cw := inject_Z cw) in *.
  lra.
Qed.

Lemma encode_separates_voltages_witness :
  exists cv cw,
    SP1060Reader._vval_to_dacval (PyFloat (B64.of_Z 1)) = Ret (Some cv)
    /\ SP1060Reader._vval_to_dacval (PyFloat (B64.of_ratio 10000012 10000000))
       = Ret (Some cw)
    /\ cv < cw.
Proof.
  apply (encode_separates_voltages (B64.of_Z 1) (B64.of_ratio 10000012 10000000)).
  - reflexivity.
  - reflexivity.
  - vm_compute; discriminate.
  - vm_compute; discriminate.
  - vm_compute; discriminate.
Defined.

(** ** Voltages outside the span *)

(** What the encoder computes on a voltage of magnitude up to 1000: the
    truncation of a product within 1e-6 of the scaled voltage. *)
Lemma encode_product (v : spec_float) :
  B64.is_finite v = true -> (-1000 <= B64.to_Q v <= 1000)%Q ->
  exists p,
    SP1060Reader._vval_to_dacval (PyFloat v) = Ret (Some (B64.trunc p))
    /\ B64.is_finite p = true
    /\ (Qabs (B64.to_Q p - (B64.to_Q v + 10) * (3355443 # 4)) <= 1 # 1000000)%Q.
Proof.
  intros Fv [Hlo Hhi].
  set (V := B64.to_Q v) in *.
  assert (Xv : exponent_le v 10).
  { apply exponent_of_bounded. fold V. change (B64.pow2 10) with 1024%Q.
    apply Qabs_Qlt_condition. split; lra. }
  assert (Xt : exponent_le SP1060Reader.ten 10) by (rewrite ten_eq; cbn; lia).
  destruct (add_rounds v SP1060Reader.ten 11 10 Fv eq_refl Xv Xt) as (Fs & Xs & _ & As).
  { rewrite ten_value. fold V. change (B64.pow2 11) with 2048%Q.
    apply Qabs_Qlt_condition. split; lra. }
  { lia. }
  change (Z.max 10 (Z.max (11 - 52) (-1074))) with 10 in Xs.
  change (Z.max (11 - 52) (-1074)) with (-41) in As.
  set (s := B64.add v SP1060Reader.ten) in *. set (Sx := B64.to_Q s) in *.
  rewrite ten_value in As. fold V in As.
  assert (E41 : (B64.pow2 (-41) == 1 # 2199023255552)%Q) by reflexivity.
  rewrite E41 in As. apply Qabs_Qle_condition in As. destruct As as [As1 As2].
  assert (Xc : exponent_le SP1060Reader.scale (-33)) by (rewrite scale_eq; cbn; lia).
  destruct (mul_rounds s SP1060Reader.scale 31 10 (-33) Fs eq_refl Xs Xc)
    as (Fp & _ & _ & Ap).
  { rewrite scale_value. fold Sx. change (B64.pow2 31) with 2147483648%Q.
    apply Qabs_Qlt_condition. split; lra. }
  { lia. }
  { vm_compute. discriminate. }
  change (Z.max (Z.max (10 + -33) (31 - 52)) (-1074)) with (-21) in Ap.
  set (p := B64.mul s SP1060Reader.scale) in *. set (Px := B64.to_Q p) in *.
  rewrite scale_value in Ap. fold Sx in Ap.
  assert (E21 : (B64.pow2 (-21) == 1 # 2097152)%Q) by reflexivity.
  rewrite E21 in Ap. apply Qabs_Qle_condition in Ap. destruct Ap as [Ap1 Ap2].
  exists p. split; [| split; [exact Fp |]].
  - unfold SP1060Reader._vval_to_dacval. cbn [py_float py_bind]. fold s p.
    destruct p; try discriminate Fp; reflexivity.
  - apply Qabs_Qle_condition. fold Px. split; lra.
Qed.

(** Truncation of a float that is not positive: the integer just above. *)
Lemma trunc_bounds_neg (p : spec_float) :
  B64.is_finite p = true -> (B64.to_Q p <= 0)%Q ->
  B64.trunc p <= 0
  /\ (B64.to_Q p <= inject_Z (B64.trunc p) < B64.to_Q p + 1)%Q.
Proof.
  intros F H. destruct p as [s | s | | s m e]; try discriminate F.
  - cbn. split; [lia | split; [discriminate | reflexivity]].
  - assert (Epos : (0 < inject_Z (Zpos m) * B64.pow2 e)%Q)
      by (apply Qmult_lt_0_compat; [reflexivity | apply pow2_pos]).
    destruct s.
    + destruct (trunc_bounds (S754_finite false m e) eq_refl) as (T0 & T1 & T2).
      { cbn [B64.to_Q cond_Zopp]. lra. }
      cbn [B64.trunc B64.to_Q cond_Zopp] in *.
      change (- Zpos m) with (Zneg m).
      change (Zneg m) with (- Zpos m). rewrite !inject_Z_opp.
      set (t := inject_Z (Z.shiftl (Zpos m) e)) in *.
      set (Y := (inject_Z (Zpos m) * B64.pow2 e)%Q) in *.
      setoid_replace (- inject_Z (Zpos m) * B64.pow2 e)%Q with (- Y)%Q
        by (unfold Y; ring).
      split; [lia | split; lra].
    + exfalso. cbn [B64.to_Q cond_Zopp] in H. lra.
Qed.

(** X18: the encoder does not clamp above the span: a voltage from
    10.000002 V up to 1000 V has a code of at least [2^24], which the 24
    bits of the converter do not hold. *)
Theorem encode_above_span_exceeds_24_bits (v : spec_float) :
  B64.is_finite v = true ->
  (10 + (2 # 1000000) <= B64.to_Q v <= 1000)%Q ->
  exists code,
    SP1060Reader._vval_to_dacval (PyFloat v) = Ret (Some code)
    /\ 2 ^ 24 <= code.
Proof.
  intros Fv [Hlo Hhi].
  destruct (encode_product v Fv) as (p & E & Fp & Ap); [split; lra |].
  exists (B64.trunc p). split; [exact E |].
  apply Qabs_Qle_condition in Ap. destruct Ap as [Ap1 Ap2].
  set (V := B64.to_Q v) in *. set (Px := B64.to_Q p) in *.
  destruct (trunc_bounds p Fp) as (_ & T1 & T2); [fold Px; lra |].
  fold Px in T1, T2.
  assert (L : (inject_Z 16777215 < inject_Z (B64.trunc p))%Q).
  { change (inject_Z 16777215) with 16777215%Q. lra. }
  rewrite <- Zlt_Qlt in L. change (2 ^ 24) with 16777216. lia.
Qed.

Lemma encode_above_span_exceeds_24_bits_witness :
  exists code,
    SP1060Reader._vval_to_dacval (PyFloat (B64.of_Z 11)) = Ret (Some code)
    /\ 2 ^ 24 <= code.
Proof.
  apply (encode_above_span_exceeds_24_bits (B64.of_Z 11)).
  - reflexivity.
  - split; vm_compute; discriminate.
Defined.

(** X19: nor does it clamp below the span: a voltage from -1000 V up to
    -10.000002 V has a negative code, whose hexadecimal text starts with a
    minus sign. *)
Theorem encode_below_span_is_negative (v : spec_float) :
  B64.is_finite v = true ->
  (-1000 <= B64.to_Q v <= -10 - (2 # 1000000))%Q ->
  exists code rest,
    SP1060Reader._vval_to_dacval (PyFloat v) = Ret (Some code)
    /\ code < 0
    /\ PyStr.format_X code = String "-"%char rest.
Proof.
  intros Fv [Hlo Hhi].
  destruct (encode_product v Fv) as (p & E & Fp & Ap); [split; lra |].
  apply Qabs_Qle_condition in Ap. destruct Ap as [Ap1 Ap2].
  set (V := B64.to_Q v) in *. set (Px := B64.to_Q p) in *.
  destruct (trunc_bounds_neg p Fp) as (_ & T1 & T2); [fold Px; lra |].
  fold Px in T1, T2.
  assert (L : (inject_Z (B64.trunc p) < inject_Z 0)%Q).
  { change (inject_Z 0) with 0%Q. lra. }
  rewrite <- Zlt_Qlt in L.
  exists (B64.trunc p). eexists. split; [exact E |]. split; [exact L |].
  unfold PyStr.format_X, PyStr.signed_digits.
  apply Z.ltb_lt in L. rewrite L. reflexivity.
Qed.

Lemma encode_below_span_is_negative_witness :
  exists code rest,
    SP1060Reader._vval_to_dacval (PyFloat (B64.of_Z (-11))) = Ret (Some code)
    /\ code < 0
    /\ PyStr.format_X code = String "-"%char rest.
Proof.
  apply (encode_below_span_is_negative (B64.of_Z (-11))).
  - reflexivity.
  - split; vm_compute; discriminate.
Defined.

(** ** Decoded voltages are whole numbers of microvolts *)

(** What the decoder rounds to six decimals, on a text that reads as a code
    of 24 bits: a finite number within 5e-14 of the voltage of the code. *)
Lemma decode_difference (text : string) (code : Z) :
  PyStr.int16 (PyStr.strip text) = Ret code ->
  0 <= code < 2 ^ 24 ->
  exists u,
    SP1060Reader._dacval_to_vval text = Ret (Some (py_round6 u))
    /\ B64.is_finite u = true
    /\ (Qabs (B64.to_Q u - (inject_Z code * (4 # 3355443) - 10))
        <= 1 # 20000000000000)%Q.
Proof.
  intros Eparse [Hc0 Hc1].
  set (C := inject_Z code).
  assert (HC : (0 <= C <= 16777215)%Q).
  { unfold C. split; [apply inject_Z_nonneg, Hc0 |].
    change 16777215%Q with (inject_Z 16777215). rewrite <- Zle_Qle.
    change (2 ^ 24) with 16777216 in Hc1. lia. }
  destruct (binary_normalize_rounds code 0 24) as (Fn & Xn & [Sn _] & An).
  { change (B64.pow2 0) with 1%Q. rewrite Qmult_1_r. fold C.
    change (B64.pow2 24) with 16777216%Q. apply Qabs_Qlt_condition. split; lra. }
  { lia. }
  change (binary_normalize B64.prec B64.emax code 0 false) with (B64.of_Z code) in *.
  set (num := B64.of_Z code) in *. set (Nm := B64.to_Q num) in *.
  change (Z.max (24 - 52) (-1074)) with (-28) in An.
  change (B64.pow2 0) with 1%Q in Sn, An. rewrite Qmult_1_r in Sn, An. fold C in Sn, An.
  assert (E28 : (B64.pow2 (-28) == 1 # 268435456)%Q) by reflexivity.
  rewrite E28 in An. apply Qabs_Qle_condition in An. destruct An as [An1 An2].
  specialize (Sn ltac:(lra)).
  assert (Esc : (B64.to_Q (S754_finite false 7205758974296064 (-33)) == 3355443 # 4)%Q)
    by reflexivity.
  assert (Ediv : forall z : Q, (z / (3355443 # 4) == z * (4 # 3355443))%Q)
    by (intros; field).
  destruct (div_rounds num false 7205758974296064 (-33) 5 Fn) as (Fq & Xq & _ & Aq).
  { rewrite Esc, Ediv. fold Nm. change (B64.pow2 5) with 32%Q.
    apply Qabs_Qlt_condition. split; lra. }
  { lia. }
  rewrite <- scale_eq in Fq, Xq, Aq.
  set (q := B64.div num SP1060Reader.scale) in *. set (Qx := B64.to_Q q) in *.
  change (Z.max (5 - 52) (-1074)) with (-47) in Xq, Aq.
  rewrite scale_value, Ediv in Aq. fold Nm in Aq.
  assert (E47 : (B64.pow2 (-47) == 1 # 140737488355328)%Q) by reflexivity.
  rewrite E47 in Aq. apply Qabs_Qle_condition in Aq. destruct Aq as [Aq1 Aq2].
  assert (Xt : exponent_le SP1060Reader.ten (-47)) by (rewrite ten_eq; cbn; lia).
  destruct (sub_rounds q SP1060Reader.ten 5 (-47) Fq eq_refl Xq Xt) as (Fu & _ & _ & Au).
  { rewrite ten_value. fold Qx. change (B64.pow2 5) with 32%Q.
    apply Qabs_Qlt_condition. split; lra. }
  { lia. }
  set (u := B64.sub q SP1060Reader.ten) in *. set (U := B64.to_Q u) in *.
  change (Z.max (5 - 52) (-1074)) with (-47) in Au.
  rewrite ten_value in Au. fold Qx in Au.
  rewrite E47 in Au. apply Qabs_Qle_condition in Au. destruct Au as [Au1 Au2].
  exists u. split; [| split; [exact Fu |]].
  - unfold SP1060Reader._dacval_to_vval. rewrite Eparse. cbn [py_bind py_float].
    fold num. destruct num; try discriminate Fn; reflexivity.
  - apply Qabs_Qle_condition. fold U. split; lra.
Qed.

(** Rounding to six decimals gives the double nearest to a whole number
    of millionths, the nearest to the value; a negative zero when that
    number is 0 and the value is negative. *)
Lemma round6_form (u : spec_float) :
  B64.is_finite u = true ->
  exists n,
    (py_round6 u = B64.of_ratio n 1000000 \/ (n = 0 /\ py_round6 u = S754_zero true))
    /\ (Qabs (inject_Z n - B64.to_Q u * 1000000) <= 1 # 2)%Q.
Proof.
  intros F. destruct u as [s | s | | s m e]; try discriminate F.
  - exists 0. split.
    + destruct s; [right; split; reflexivity | left; reflexivity].
    + cbn. discriminate.
  - unfold py_round6.
    destruct (round6_integer m e) as [Hn Hnear]. cbv zeta in Hn, Hnear.
    set (n := match e with
              | Zneg p => B64.div_half_even (Zpos m * 1000000) (Z.pow_pos 2 p)
              | _ => Z.shiftl (Zpos m * 1000000) e
              end) in *.
    set (Y := (inject_Z (Zpos m) * B64.pow2 e)%Q) in *.
    assert (Ef : (B64.to_Q (S754_finite s m e) == if s then - Y else Y)%Q).
    { cbn [B64.to_Q]. rewrite inject_cond_Zopp. unfold Y. destruct s; ring. }
    destruct n as [| q | q] eqn:En; [| | lia].
    + exists 0. split.
      * destruct s; [right; split; reflexivity | left; reflexivity].
      * rewrite Ef. change (inject_Z 0) with 0%Q in Hnear |- *.
        apply Qabs_Qle_condition. destruct s; split; lra.
    + exists (cond_Zopp s (Zpos q)). split.
      * left. destruct s; reflexivity.
      * rewrite Ef, inject_cond_Zopp. apply Qabs_Qle_condition.
        set (nq := inject_Z (Zpos q)) in *. destruct s; split; lra.
Qed.

(** X20: the text of a code of 24 bits decodes to the double nearest to a
    whole number of microvolts between -10 V and 10 V, which is the number
    of microvolts nearest to the voltage of the code, code / 838860.75 - 10;
    the result is the negative zero when that number is 0 and the voltage is
    below 0. *)
Theorem decode_six_decimals (code : Z) :
  0 <= code < 2 ^ 24 ->
  exists n r,
    SP1060Reader._dacval_to_vval (PyStr.format_X code) = Ret (Some r)
    /\ -10000000 <= n <= 10000000
    /\ (r = B64.of_ratio n 1000000 \/ (n = 0 /\ r = S754_zero true))
    /\ (Qabs (inject_Z n - (inject_Z code * (4 # 3355443) - 10) * 1000000)
        <= (1 # 2) + (1 # 10000000))%Q.
Proof.
  intros Hc.
  destruct (decode_difference (PyStr.format_X code) code) as (u & E & Fu & Au);
    [apply int16_format_X; lia | exact Hc |].
  destruct (round6_form u Fu) as (n & Hform & Hn).
  assert (HC : (0 <= inject_Z code <= 16777215)%Q).
  { split; [apply inject_Z_nonneg; lia |].
    change 16777215%Q with (inject_Z 16777215). rewrite <- Zle_Qle.
    change (2 ^ 24) with 16777216 in Hc. lia. }
  apply Qabs_Qle_condition in Au. destruct Au as [Au1 Au2].
  apply Qabs_Qle_condition in Hn. destruct Hn as [Hn1 Hn2].
  set (U := B64.to_Q u) in *. set (C := inject_Z code) in *.
  assert (Near : (Qabs (inject_Z n - (C * (4 # 3355443) - 10) * 1000000)
                  <= (1 # 2) + (1 # 10000000))%Q).
  { apply Qabs_Qle_condition. split; lra. }
  exists n, (py_round6 u). split; [exact E |].
  split; [| split; [exact Hform | exact Near]].
  apply Qabs_Qle_condition in Near. destruct Near as [N1 N2].
  assert (L : (inject_Z (-10000001) < inject_Z n)%Q).
  { change (inject_Z (-10000001)) with (-10000001)%Q. lra. }
  assert (R : (inject_Z n < inject_Z 10000001)%Q).
  { change (inject_Z 10000001) with 10000001%Q. lra. }
  rewrite <- Zlt_Qlt in L, R. lia.
Qed.

Lemma decode_six_decimals_witness :
  exists n r,
    SP1060Reader._dacval_to_vval (PyStr.format_X 8388607) = Ret (Some r)
    /\ -10000000 <= n <= 10000000
    /\ (r = B64.of_ratio n 1000000 \/ (n = 0 /\ r = S754_zero true))
    /\ (Qabs (inject_Z n - (inject_Z 8388607 * (4 # 3355443) - 10) * 1000000)
        <= (1 # 2) + (1 # 10000000))%Q.
Proof.
  apply (decode_six_decimals 8388607). split; [discriminate | reflexivity].
Defined.

(** ** Numbers with no code, and whole volts *)

(** X21: a NaN or an infinity has no code: the encoder returns [None]
    without raising, and the set command given [None] raises the type error
    of the formatting before anything is written. *)
Theorem encode_nonfinite_sets_nothing (f : spec_float) (instr : instrument)
    (chan : Z) (tr : list event) :
  B64.is_finite f = false ->
  SP1060Reader._vval_to_dacval (PyFloat f) = Ret None
  /\ (code <~ io_lift (SP1060Reader._vval_to_dacval (PyFloat f)) ;;
      _set_voltage instr chan code) tr
     = (Raise TypeError, tr).
Proof.
  intros H. destruct f as [s | s | | s m e]; try discriminate H.
  - destruct s; split; reflexivity.
  - split; reflexivity.
Qed.

Lemma encode_nonfinite_sets_nothing_witness :
  SP1060Reader._vval_to_dacval (PyFloat S754_nan) = Ret None
  /\ (code <~ io_lift (SP1060Reader._vval_to_dacval (PyFloat S754_nan)) ;;
      _set_voltage (fun _ => "0") 12 code) []
     = (Raise TypeError, []).
Proof.
  apply (encode_nonfinite_sets_nothing S754_nan (fun _ => "0") 12 []). reflexivity.
Defined.

Lemma in_range (lo hi z : Z) : lo <= z < hi -> In z (range lo hi).
Proof.
  intros H. unfold range. apply in_map_iff.
  exists (Z.to_nat (z - lo)). split; [lia |].
  apply in_seq. lia.
Qed.

(** X22: a whole number of volts from -10 to 10, given as an [int], is
    encoded without any rounding: its code is (z + 10) * 838860.75 cut to an
    integer. *)
Theorem encode_integer_volts_exact (z : Z) :
  -10 <= z <= 10 ->
  SP1060Reader._vval_to_dacval (PyInt z) = Ret (Some ((z + 10) * 3355443 / 4)).
Proof.
  intros H.
  assert (B : forallb (fun z =>
                         match SP1060Reader._vval_to_dacval (PyInt z) with
                         | Ret (Some c) => c =? (z + 10) * 3355443 / 4
                         | _ => false
                         end) (range (-10) 11) = true)
    by (vm_compute; reflexivity).
  rewrite forallb_forall in B. specialize (B z (in_range (-10) 11 z ltac:(lia))).
  destruct (SP1060Reader._vval_to_dacval (PyInt z)) as [[c |] | e];
    try discriminate B.
  apply Z.eqb_eq in B. rewrite B. reflexivity.
Qed.

Lemma encode_integer_volts_exact_witness :
  SP1060Reader._vval_to_dacval (PyInt 3) = Ret (Some ((3 + 10) * 3355443 / 4)).
Proof.
  apply (encode_integer_volts_exact 3). lia.
Defined.
